(** * WebScraperX: the extraction-and-merge pipeline of [scrapping.py]

    A shallow embedding of [scrapping.py] (and of the call made by the web
    route of [main.py]) together with the properties of its natural-language
    specification.

    Conventions of the embedding.
    - A Python [str] is a list of code points ([pystr]); [len] is [length].
    - A value that comes out of JSON (a provider payload, a JSON-LD block) or
      that is stored in one of the program's dictionaries is a [pyval].
    - A dictionary built by the program with literal keys ([out], [record],
      [comps]) is a [gmap string pyval]; a dictionary that comes from JSON is
      the list of its items ([JObj]).
    - Code that may raise returns a [result]; code that talks to the network
      runs in the monad [M], which threads the state of the outside world and
      the log of the requests made, and keeps both when an exception passes.
    - Functions of the Python library are embedded from CPython 3.11
      ([urllib.parse], [str] methods, [re] for the two patterns that
      [clean_business_name] uses).  What the library computes from tables that
      are not part of this development (Unicode case mapping and NFKC beyond
      ASCII, [ipaddress], HTML character references, [str()] of a value that
      is not a string, [postal], [bs4], [json.loads], the two compiled
      patterns [WHATSAPP_RE] and [ZIP_RE]) is a field of the classes
      [PyLib] and [World]. *)

From Stdlib Require Import ZArith NArith QArith List String Ascii Bool Lia Sorted.
From stdpp Require Import gmap strings list.
Import ListNotations.

Set Default Proof Using "Type".
Set Warnings "-register-all".


(* ===================================================================== *)
(** * Part I.  The embedding                                              *)
(* ===================================================================== *)

(** ** Exceptions and results *)

Inductive exn :=
| AttributeError | KeyError | TypeError | ValueError | IndexError
| UnboundLocalError | UnicodeEncodeError | HTTPError | RequestException
| JSONDecodeError.

Inductive result (A : Type) :=
| Ok (a : A)
| Raise (e : exn).
Arguments Ok {A} a.
Arguments Raise {A} e.

#[global] Instance result_ret : MRet result := fun A a => Ok a.
#[global] Instance result_bind : MBind result := fun A B k r =>
  match r with
  | Ok a => k a
  | Raise e => Raise e
  end.

(** ** Text *)

Definition char := N.
Bind Scope N_scope with char.
Definition pystr := list char.

Definition ch (a : ascii) : char := N_of_ascii a.
Definition py (s : string) : pystr := map N_of_ascii (list_ascii_of_string s).

Definition c_tab : char := 9.
Definition c_lf : char := 10.
Definition c_cr : char := 13.
Definition c_space : char := Eval cbv in ch " ".
Definition c_hash : char := Eval cbv in ch "#".
Definition c_pct : char := Eval cbv in ch "%".
Definition c_amp : char := Eval cbv in ch "&".
Definition c_plus : char := Eval cbv in ch "+".
Definition c_hyphen : char := Eval cbv in ch "-".
Definition c_dot : char := Eval cbv in ch ".".
Definition c_slash : char := Eval cbv in ch "/".
Definition c_colon : char := Eval cbv in ch ":".
Definition c_semi : char := Eval cbv in ch ";".
Definition c_eq : char := Eval cbv in ch "=".
Definition c_qmark : char := Eval cbv in ch "?".
Definition c_at : char := Eval cbv in ch "@".
Definition c_lbr : char := Eval cbv in ch "[".
Definition c_rbr : char := Eval cbv in ch "]".
Definition c_pipe : char := Eval cbv in ch "|".
Definition c_v : char := Eval cbv in ch "v".
(** U+2013, the en dash. *)
Definition c_endash : char := 8211.
(** U+FFFD, the replacement character. *)
Definition c_replacement : char := 65533.

Definition in_range (lo hi c : N) : bool := (lo <=? c)%N && (c <=? hi)%N.

Definition is_ascii_char (c : char) : bool := (c <? 128)%N.
Definition is_upper (c : char) : bool := in_range 65 90 c.
Definition is_lower (c : char) : bool := in_range 97 122 c.
Definition is_alpha (c : char) : bool := is_upper c || is_lower c.
Definition is_digit (c : char) : bool := in_range 48 57 c.
Definition is_alnum (c : char) : bool := is_alpha c || is_digit c.

(** [str.isascii]. *)
Definition isascii (s : pystr) : bool := forallb is_ascii_char s.

(** [str.isspace] of one character, which is also [\s] of [re] on [str]:
    the ASCII blanks and the Unicode white space beyond them. *)
Definition is_space (c : char) : bool :=
  in_range 9 13 c || in_range 28 32 c
  || (c =? 133)%N || (c =? 160)%N || (c =? 5760)%N
  || in_range 8192 8202 c || (c =? 8232)%N || (c =? 8233)%N
  || (c =? 8239)%N || (c =? 8287)%N || (c =? 12288)%N.

Definition ascii_lower (c : char) : char := if is_upper c then (c + 32)%N else c.
Definition ascii_upper (c : char) : char := if is_lower c then (c - 32)%N else c.

Definition str_eqb (a b : pystr) : bool := bool_decide (a = b).

Fixpoint startswith (p s : pystr) : bool :=
  match p, s with
  | [], _ => true
  | _ :: _, [] => false
  | a :: p', b :: s' => (a =? b)%N && startswith p' s'
  end.

Definition endswith (p s : pystr) : bool := startswith (rev p) (rev s).

(** [c in s] for a one-character [c]. *)
Definition has_char (c : char) (s : pystr) : bool := existsb (N.eqb c) s.

(** [p in s]: substring test. *)
Fixpoint contains (p s : pystr) : bool :=
  startswith p s ||
  match s with
  | [] => false
  | _ :: s' => contains p s'
  end.

(** [s.partition(c)] for a one-character separator: [None] when [c] does not
    occur, else the text before the first [c] and the text after it.  With
    [i = s.find(c)] the two parts are [s[:i]] and [s[i+1:]]. *)
Fixpoint partition_at (c : char) (s : pystr) : option (pystr * pystr) :=
  match s with
  | [] => None
  | x :: r =>
      if (x =? c)%N then Some ([], r)
      else match partition_at c r with
           | Some (a, b) => Some (x :: a, b)
           | None => None
           end
  end.

(** [s.rpartition(c)[2]]: the text after the last [c], all of [s] when [c]
    does not occur. *)
Fixpoint after_last (c : char) (s : pystr) : pystr :=
  match s with
  | [] => []
  | x :: r => if has_char c r then after_last c r
              else if (x =? c)%N then r else s
  end.

(** The longest prefix whose characters satisfy [p], and the rest. *)
Fixpoint span (p : char -> bool) (s : pystr) : pystr * pystr :=
  match s with
  | [] => ([], [])
  | x :: r => if p x then let '(a, b) := span p r in (x :: a, b) else ([], s)
  end.

Fixpoint dropwhile (p : char -> bool) (s : pystr) : pystr :=
  match s with
  | [] => []
  | x :: r => if p x then dropwhile p r else s
  end.

(** [s.lstrip(chars)], [s.rstrip(chars)] with the set [chars] given by [p]. *)
Definition lstrip_by (p : char -> bool) (s : pystr) : pystr := dropwhile p s.
Definition rstrip_by (p : char -> bool) (s : pystr) : pystr :=
  rev (dropwhile p (rev s)).

(** [s.strip()]. *)
Definition strip (s : pystr) : pystr := rstrip_by is_space (lstrip_by is_space s).

(** [s.split(c)] for a one-character separator: never empty. *)
Fixpoint split_on (c : char) (s : pystr) : list pystr :=
  match s with
  | [] => [[]]
  | x :: r =>
      if (x =? c)%N then [] :: split_on c r
      else match split_on c r with
           | [] => [[x]]
           | w :: ws => (x :: w) :: ws
           end
  end.

(** [sep.join(l)] for a one-character separator. *)
Fixpoint join_with (c : char) (l : list pystr) : pystr :=
  match l with
  | [] => []
  | [w] => w
  | w :: ws => w ++ c :: join_with c ws
  end.

(** [s.replace(c, d)] for one-character [c] and [d]. *)
Definition replace_char (c d : char) (s : pystr) : pystr :=
  map (fun x => if (x =? c)%N then d else x) s.

(** [s.replace(c, "")] for a one-character [c]. *)
Definition remove_char (c : char) (s : pystr) : pystr :=
  List.filter (fun x => negb (x =? c)%N) s.

(** [s.replace(p, "")]: the occurrences of [p] are removed from left to
    right, without overlap.  [skip] counts the characters of the occurrence
    being removed that are still to come. *)
Fixpoint remove_sub_go (p : pystr) (skip : nat) (s : pystr) : pystr :=
  match s with
  | [] => []
  | x :: r =>
      match skip with
      | S k => remove_sub_go p k r
      | O =>
          if startswith p s then remove_sub_go p (length p - 1) r
          else x :: remove_sub_go p 0 r
      end
  end.
Definition remove_sub (p s : pystr) : pystr :=
  match p with
  | [] => s
  | _ => remove_sub_go p 0 s
  end.

(** Comparison of two [str]: lexicographic on code points. *)
Fixpoint str_leb (a b : pystr) : bool :=
  match a, b with
  | [], _ => true
  | _ :: _, [] => false
  | x :: a', y :: b' => (x <? y)%N || ((x =? y)%N && str_leb a' b')
  end.

(** ** Values *)

(** A Python value as it comes out of [json.loads] or is stored in one of the
    program's dictionaries.  A number carries its value and whether it is a
    [float]; NaN and the infinities, which JSON does not have, are not
    represented.  The items of a [JObj] have distinct keys, and [dict_get]
    returns the value of the first item with the key. *)
Inductive pyval :=
| JNull
| JBool (b : bool)
| JNum (q : Q) (is_float : bool)
| JStr (s : pystr)
| JArr (l : list pyval)
| JObj (items : list (pystr * pyval)).

(** Truth value testing: [None], [False], zero, and the empty string, list and
    dict are false. *)
Definition truthy (v : pyval) : bool :=
  match v with
  | JNull => false
  | JBool b => b
  | JNum q _ => negb (Qeq_bool q 0)
  | JStr s => match s with [] => false | _ => true end
  | JArr l => match l with [] => false | _ => true end
  | JObj l => match l with [] => false | _ => true end
  end.

(** [a or b]. *)
Definition py_or (a b : pyval) : pyval := if truthy a then a else b.

Definition is_none (v : pyval) : bool :=
  match v with JNull => true | _ => false end.

Fixpoint assoc_get (k : pystr) (items : list (pystr * pyval)) : option pyval :=
  match items with
  | [] => None
  | (k', v) :: r => if str_eqb k' k then Some v else assoc_get k r
  end.

(** [o.get(k)]: [None] for a missing key, [AttributeError] when [o] is not a
    dict (a str, a list, a number, a bool and [None] have no [get]). *)
Definition py_get (o : pyval) (k : string) : result pyval :=
  match o with
  | JObj items => Ok (default JNull (assoc_get (py k) items))
  | _ => Raise AttributeError
  end.

(** [o[k]] for a string key [k]: [KeyError] for a missing key, [TypeError]
    when [o] is not a dict. *)
Definition py_item (o : pyval) (k : string) : result pyval :=
  match o with
  | JObj items =>
      match assoc_get (py k) items with
      | Some v => Ok v
      | None => Raise KeyError
      end
  | _ => Raise TypeError
  end.

(** [k in o] for a dict [o]. *)
Definition py_has_key (o : pyval) (k : string) : bool :=
  match o with
  | JObj items => bool_decide (is_Some (assoc_get (py k) items))
  | _ => false
  end.

(** What [for x in v] iterates over: the elements of a list, the characters
    of a str, the keys of a dict; any other value is not iterable. *)
Definition py_iter (v : pyval) : result (list pyval) :=
  match v with
  | JArr l => Ok l
  | JStr s => Ok (map (fun c => JStr [c]) s)
  | JObj items => Ok (map (fun kv => JStr (fst kv)) items)
  | _ => Raise TypeError
  end.

(** ** What the page parser shows of a document *)

(** One element of [soup.find_all(True)]. *)
Record TagView := {
  tag_class : list pystr;          (* tag.get("class", []) *)
  tag_id : option pystr;           (* tag.get("id") *)
  tag_itemprop : option pystr;     (* tag.get("itemprop") *)
  tag_text : pystr                 (* tag.get_text(" ", strip=True) *)
}.

(** One element of [soup.find_all(["h1", "h2", "h3", "h4"])]. *)
Record HeaderView := {
  header_text : pystr;                     (* header.get_text(" ", strip=True) *)
  header_next_list : option (list pystr);  (* the text of each li of header.find_next(["ul", "ol"]) *)
  header_next_p : list pystr               (* the text of each header.find_all_next("p") *)
}.

Record Soup := {
  soup_title_string : option pystr;      (* soup.title.string, when both exist *)
  soup_ld_scripts : list (option pystr); (* tag.string or tag.text of each ld+json script *)
  soup_hrefs : list pystr;               (* a["href"] of each a with an href *)
  soup_address_texts : list pystr;       (* get_text(" ", strip=True) of each address element *)
  soup_tags : list TagView;
  soup_headers : list HeaderView
}.

(** ** The library beyond this development *)

Class PyLib := {
  (** [str.lower] and [str.title] of a string that has a character beyond
      ASCII. *)
  unicode_lower : pystr -> pystr;
  unicode_title : pystr -> pystr;
  (** [unicodedata.normalize('NFKC', s)]. *)
  unicodedata_nfkc : pystr -> pystr;
  (** [ipaddress.ip_address(h)] returns an [IPv6Address]. *)
  ip_address_is_v6 : pystr -> bool;
  (** What [html.unescape] makes of a string that contains an ampersand. *)
  html_charrefs : pystr -> pystr;
  (** [str(v)], also in an f-string, of a value that is not a str. *)
  py_repr : pyval -> pystr;
  (** [json.loads]; [None] when it raises. *)
  json_loads : pystr -> option pyval;
  (** [WHATSAPP_RE.search(s)] finds a match. *)
  WHATSAPP_RE_search : pystr -> bool;
  (** [ZIP_RE.search(s)], and [m.group(0)]. *)
  ZIP_RE_search : pystr -> option pystr;
  (** [postal.parser.parse_address]. *)
  parse_address : pystr -> result (list (pystr * pystr));
  (** [BeautifulSoup(html_text, "html.parser")]. *)
  BeautifulSoup : pystr -> Soup
}.

Section Library.
Context `{PyLib}.

(** [str.lower]. *)
Definition lower (s : pystr) : pystr :=
  if isascii s then map ascii_lower s else unicode_lower s.

Fixpoint ascii_title (prev_cased : bool) (s : pystr) : pystr :=
  match s with
  | [] => []
  | c :: r =>
      (if prev_cased then ascii_lower c else ascii_upper c)
        :: ascii_title (is_alpha c) r
  end.

(** [str.title]. *)
Definition title (s : pystr) : pystr :=
  if isascii s then ascii_title false s else unicode_title s.

(** [str(v)]. *)
Definition py_str (v : pyval) : pystr :=
  match v with
  | JStr s => s
  | _ => py_repr v
  end.

(** ** [urllib.parse] *)

Definition uses_netloc : list pystr :=
  map py [""; "ftp"; "http"; "gopher"; "nntp"; "telnet"; "imap"; "wais"; "file";
          "mms"; "https"; "shttp"; "snews"; "prospero"; "rtsp"; "rtspu";
          "rsync"; "svn"; "svn+ssh"; "sftp"; "nfs"; "git"; "git+ssh"; "ws";
          "wss"]%string.

Definition uses_params : list pystr :=
  map py [""; "ftp"; "hdl"; "prospero"; "http"; "imap"; "https"; "shttp";
          "rtsp"; "rtspu"; "sip"; "sips"; "mms"; "sftp"; "tel"]%string.

Definition str_in (s : pystr) (l : list pystr) : bool := existsb (str_eqb s) l.

Definition is_scheme_char (c : char) : bool :=
  is_alnum c || (c =? c_plus)%N || (c =? c_hyphen)%N || (c =? c_dot)%N.

Definition is_c0_or_space (c : char) : bool := (c <=? 32)%N.

Definition is_netloc_delim (c : char) : bool :=
  (c =? c_slash)%N || (c =? c_qmark)%N || (c =? c_hash)%N.

Definition is_hexdig (c : char) : bool :=
  is_digit c || in_range 65 70 c || in_range 97 102 c.

Record SplitResult := {
  sr_scheme : pystr;
  sr_netloc : pystr;
  sr_path : pystr;
  sr_query : pystr;
  sr_fragment : pystr
}.

Record ParseResult := {
  scheme : pystr;
  netloc : pystr;
  path : pystr;
  params : pystr;
  query : pystr;
  fragment : pystr
}.

(** The scheme test of [urlsplit]: with [i = url.find(':')], a scheme is
    split off when [i > 0], [url[0]] is an ASCII letter and [url[:i]] has
    scheme characters only. *)
Definition split_scheme (url : pystr) : pystr * pystr :=
  match partition_at c_colon url with
  | Some (c0 :: pre, rest) =>
      if is_ascii_char c0 && is_alpha c0 && forallb is_scheme_char (c0 :: pre)
      then (lower (c0 :: pre), rest)
      else ([], url)
  | _ => ([], url)
  end.

(** [_check_bracketed_host]. *)
Definition check_bracketed_host (hostname : pystr) : result unit :=
  if startswith [c_v] hostname then
    (* re.match(r"\Av[a-fA-F0-9]+\..+\Z", hostname) *)
    let '(digits, rest) := span is_hexdig (drop 1 hostname) in
    match digits, rest with
    | _ :: _, dot :: ((_ :: _) as tail) =>
        if (dot =? c_dot)%N && negb (has_char c_lf tail) then Ok tt
        else Raise ValueError
    | _, _ => Raise ValueError
    end
  else if ip_address_is_v6 hostname then Ok tt
  else Raise ValueError.

(** [_check_bracketed_netloc]. *)
Definition check_bracketed_netloc (netloc : pystr) : result unit :=
  let hostname_and_port := after_last c_at netloc in
  match partition_at c_lbr hostname_and_port with
  | Some (before_bracket, bracketed) =>
      match before_bracket with
      | _ :: _ => Raise ValueError
      | [] =>
          let '(hostname, port) :=
            match partition_at c_rbr bracketed with
            | Some (h, p) => (h, p)
            | None => (bracketed, [])
            end in
          match port with
          | c :: _ =>
              if (c =? c_colon)%N then check_bracketed_host hostname
              else Raise ValueError
          | [] => check_bracketed_host hostname
          end
      end
  | None =>
      let hostname :=
        match partition_at c_colon hostname_and_port with
        | Some (h, _) => h
        | None => hostname_and_port
        end in
      check_bracketed_host hostname
  end.

(** The tests of [urlsplit] on the brackets of the host. *)
Definition check_brackets (netloc : pystr) : result unit :=
  let lb := has_char c_lbr netloc in
  let rb := has_char c_rbr netloc in
  if (lb && negb rb) || (rb && negb lb) then Raise ValueError
  else if lb && rb then check_bracketed_netloc netloc
  else Ok tt.

(** [_checknetloc]. *)
Definition checknetloc (netloc : pystr) : result unit :=
  match netloc with
  | [] => Ok tt
  | _ =>
      if isascii netloc then Ok tt
      else
        let n := remove_char c_qmark (remove_char c_hash
                   (remove_char c_colon (remove_char c_at netloc))) in
        let netloc2 := unicodedata_nfkc n in
        if str_eqb n netloc2 then Ok tt
        else if existsb (fun c => has_char c netloc2)
                  [c_slash; c_qmark; c_hash; c_at; c_colon]
        then Raise ValueError
        else Ok tt
  end.

(** [urlsplit(url)], with the default [scheme=''] and
    [allow_fragments=True]. *)
Definition urlsplit (url : pystr) : result SplitResult :=
  let url := lstrip_by is_c0_or_space url in
  let url := remove_char c_lf (remove_char c_cr (remove_char c_tab url)) in
  let '(scheme, url) := split_scheme url in
  '(netloc, url) ←
    match url with
    | a :: b :: r =>
        if (a =? c_slash)%N && (b =? c_slash)%N then
          (* _splitnetloc(url, 2) *)
          let '(netloc, rest) := span (fun c => negb (is_netloc_delim c)) r in
          _ ← check_brackets netloc; Ok (netloc, rest)
        else Ok ([], url)
    | _ => Ok ([], url)
    end;
  let '(url, fragment) :=
    match partition_at c_hash url with
    | Some (u, f) => (u, f)
    | None => (url, [])
    end in
  let '(url, query) :=
    match partition_at c_qmark url with
    | Some (u, q) => (u, q)
    | None => (url, [])
    end in
  _ ← checknetloc netloc;
  Ok {| sr_scheme := scheme; sr_netloc := netloc; sr_path := url;
        sr_query := query; sr_fragment := fragment |}.

(** The text before the last [c] and the text after it. *)
Fixpoint rpartition_at (c : char) (s : pystr) : option (pystr * pystr) :=
  match s with
  | [] => None
  | x :: r =>
      match rpartition_at c r with
      | Some (a, b) => Some (x :: a, b)
      | None => if (x =? c)%N then Some ([], r) else None
      end
  end.

(** [_splitparams]: the parameters start at the first semicolon of the last
    path segment. *)
Definition splitparams (url : pystr) : pystr * pystr :=
  match rpartition_at c_slash url with
  | Some (dir, last) =>
      (* i = url.find(';', url.rfind('/')) *)
      match partition_at c_semi last with
      | Some (a, b) => (dir ++ c_slash :: a, b)
      | None => (url, [])
      end
  | None =>
      (* i = url.find(';'); url[:i], url[i+1:] *)
      match partition_at c_semi url with
      | Some (a, b) => (a, b)
      | None => (removelast url, url)
      end
  end.

(** [urlparse(url)]. *)
Definition urlparse (url : pystr) : result ParseResult :=
  r ← urlsplit url;
  let '(url, params) :=
    if str_in (sr_scheme r) uses_params && has_char c_semi (sr_path r)
    then splitparams (sr_path r)
    else (sr_path r, []) in
  Ok {| scheme := sr_scheme r; netloc := sr_netloc r; path := url;
        params := params; query := sr_query r; fragment := sr_fragment r |}.

(** [urlunsplit]. *)
Definition urlunsplit (scheme netloc url query fragment : pystr) : pystr :=
  let url :=
    if match netloc with [] => false | _ => true end
       || (match scheme with [] => false | _ => true end
           && str_in scheme uses_netloc
           && negb (startswith [c_slash; c_slash] url))
    then
      let url := match url with
                 | [] => []
                 | c :: _ => if (c =? c_slash)%N then url else c_slash :: url
                 end in
      c_slash :: c_slash :: netloc ++ url
    else url in
  let url := match scheme with [] => url | _ => scheme ++ c_colon :: url end in
  let url := match query with [] => url | _ => url ++ c_qmark :: query end in
  match fragment with [] => url | _ => url ++ c_hash :: fragment end.

(** [urlunparse]. *)
Definition urlunparse (scheme netloc url params query fragment : pystr) : pystr :=
  let url := match params with [] => url | _ => url ++ c_semi :: params end in
  urlunsplit scheme netloc url query fragment.

(** *** Percent-encoding *)

(** [str.encode('utf-8')] with [errors='strict']: a surrogate cannot be
    encoded. *)
Definition utf8_encode_char (c : char) : option (list N) :=
  if (c <? 0x80)%N then Some [c]
  else if (c <? 0x800)%N then Some [0xC0 + c / 64; 0x80 + c mod 64]%N
  else if in_range 0xD800 0xDFFF c then None
  else if (c <? 0x10000)%N then
    Some [0xE0 + c / 4096; 0x80 + (c / 64) mod 64; 0x80 + c mod 64]%N
  else if (c <? 0x110000)%N then
    Some [0xF0 + c / 262144; 0x80 + (c / 4096) mod 64;
          0x80 + (c / 64) mod 64; 0x80 + c mod 64]%N
  else None.

Fixpoint utf8_encode (s : pystr) : result (list N) :=
  match s with
  | [] => Ok []
  | c :: r =>
      match utf8_encode_char c with
      | Some bs => rest ← utf8_encode r; Ok (bs ++ rest)
      | None => Raise UnicodeEncodeError
      end
  end.

Definition is_cont (b : N) : bool := in_range 0x80 0xBF b.

(** [bytes.decode('utf-8', 'replace')]: every maximal ill-formed part becomes
    one U+FFFD. *)
Fixpoint utf8_decode (bs : list N) : pystr :=
  match bs with
  | [] => []
  | b0 :: r =>
      if (b0 <? 0x80)%N then b0 :: utf8_decode r
      else if in_range 0xC2 0xDF b0 then
        match r with
        | b1 :: r1 =>
            if is_cont b1
            then ((b0 - 0xC0) * 64 + (b1 - 0x80))%N :: utf8_decode r1
            else c_replacement :: utf8_decode r
        | [] => [c_replacement]
        end
      else if in_range 0xE0 0xEF b0 then
        match r with
        | b1 :: r1 =>
            if is_cont b1
               && negb ((b0 =? 0xE0)%N && (b1 <? 0xA0)%N)
               && negb ((b0 =? 0xED)%N && (0xA0 <=? b1)%N)
            then
              match r1 with
              | b2 :: r2 =>
                  if is_cont b2
                  then ((b0 - 0xE0) * 4096 + (b1 - 0x80) * 64 + (b2 - 0x80))%N
                         :: utf8_decode r2
                  else c_replacement :: utf8_decode r1
              | [] => [c_replacement]
              end
            else c_replacement :: utf8_decode r
        | [] => [c_replacement]
        end
      else if in_range 0xF0 0xF4 b0 then
        match r with
        | b1 :: r1 =>
            if is_cont b1
               && negb ((b0 =? 0xF0)%N && (b1 <? 0x90)%N)
               && negb ((b0 =? 0xF4)%N && (0x90 <=? b1)%N)
            then
              match r1 with
              | b2 :: r2 =>
                  if is_cont b2 then
                    match r2 with
                    | b3 :: r3 =>
                        if is_cont b3
                        then ((b0 - 0xF0) * 262144 + (b1 - 0x80) * 4096
                              + (b2 - 0x80) * 64 + (b3 - 0x80))%N
                               :: utf8_decode r3
                        else c_replacement :: utf8_decode r2
                    | [] => [c_replacement]
                    end
                  else c_replacement :: utf8_decode r1
              | [] => [c_replacement]
              end
            else c_replacement :: utf8_decode r
        | [] => [c_replacement]
        end
      else c_replacement :: utf8_decode r
  end.

(** [_ALWAYS_SAFE]. *)
Definition always_safe (b : N) : bool :=
  is_alnum b || (b =? 95)%N || (b =? c_dot)%N || (b =? c_hyphen)%N
  || (b =? 126)%N.

Definition hexdigit_upper (n : N) : char :=
  if (n <? 10)%N then (48 + n)%N else (55 + n)%N.

(** [_Quoter]: a safe byte as it is, any other as [%XX]. *)
Definition quote_byte (safe : pystr) (b : N) : pystr :=
  if always_safe b || has_char b safe then [b]
  else [c_pct; hexdigit_upper (b / 16); hexdigit_upper (b mod 16)].

Definition quote_from_bytes (bs : list N) (safe : pystr) : pystr :=
  concat (map (quote_byte safe) bs).

(** [quote(string, safe)] of a str. *)
Definition quote (s safe : pystr) : result pystr :=
  bs ← utf8_encode s; Ok (quote_from_bytes bs (List.filter is_ascii_char safe)).

(** [quote_plus(string)]. *)
Definition quote_plus (s : pystr) : result pystr :=
  if negb (has_char c_space s) then quote s []
  else r ← quote s [c_space]; Ok (replace_char c_space c_plus r).

Definition hexval (c : char) : option N :=
  if is_digit c then Some (c - 48)%N
  else if in_range 65 70 c then Some (c - 55)%N
  else if in_range 97 102 c then Some (c - 87)%N
  else None.

(** [unquote_to_bytes] of ASCII text: a percent sign followed by two
    hexadecimal digits is one byte, any other character is itself. *)
Fixpoint unquote_to_bytes (s : pystr) : list N :=
  match s with
  | [] => []
  | c :: r =>
      if (c =? c_pct)%N then
        match r with
        | h1 :: h2 :: r' =>
            match hexval h1, hexval h2 with
            | Some a, Some b => (16 * a + b)%N :: unquote_to_bytes r'
            | _, _ => c :: unquote_to_bytes r
            end
        | _ => c :: unquote_to_bytes r
        end
      else c :: unquote_to_bytes r
  end.

(** The loop of [unquote] over [_asciire.split(string)]: each maximal run of
    ASCII characters is unquoted and decoded, the text between is kept.  [run]
    is the current run, reversed. *)
Fixpoint unquote_runs (run : pystr) (s : pystr) : pystr :=
  match s with
  | [] => utf8_decode (unquote_to_bytes (rev run))
  | c :: r =>
      if is_ascii_char c then unquote_runs (c :: run) r
      else utf8_decode (unquote_to_bytes (rev run)) ++ c :: unquote_runs [] r
  end.

(** [unquote(string)]. *)
Definition unquote (s : pystr) : pystr :=
  if negb (has_char c_pct s) then s else unquote_runs [] s.

(** [parse_qsl(qs, keep_blank_values=True)]. *)
Definition parse_qsl (qs : pystr) : list (pystr * pystr) :=
  let query_args := match qs with [] => [] | _ => split_on c_amp qs end in
  flat_map
    (fun name_value =>
       match name_value with
       | [] => []
       | _ =>
           let '(n, v) :=
             match partition_at c_eq name_value with
             | Some (a, b) => (a, b)
             | None => (name_value, [])
             end in
           [(unquote (replace_char c_plus c_space n),
             unquote (replace_char c_plus c_space v))]
       end)
    query_args.

(** [urlencode(q, doseq=True)] of a list of pairs of str. *)
Fixpoint urlencode_items (q : list (pystr * pystr)) : result (list pystr) :=
  match q with
  | [] => Ok []
  | (k, v) :: r =>
      k' ← quote_plus k;
      v' ← quote_plus v;
      l ← urlencode_items r;
      Ok ((k' ++ c_eq :: v') :: l)
  end.

Definition urlencode (q : list (pystr * pystr)) : result pystr :=
  l ← urlencode_items q; Ok (join_with c_amp l).

(** [list.sort(key=lambda kv: kv[0])]: stable, by the first component. *)
Fixpoint insert_by_key (x : pystr * pystr) (l : list (pystr * pystr))
  : list (pystr * pystr) :=
  match l with
  | [] => [x]
  | y :: l' =>
      if str_leb (fst x) (fst y) then x :: l else y :: insert_by_key x l'
  end.

Definition sort_by_key (l : list (pystr * pystr)) : list (pystr * pystr) :=
  foldr insert_by_key [] l.

(** ** The Identity Normalizer *)

Definition TRACKING_QUERY_PREFIXES : list pystr := [py "utm_"].
Definition TRACKING_QUERY_KEYS : list pystr :=
  map py ["gclid"; "fbclid"; "mc_cid"; "mc_eid"]%string.

Definition is_tracking_key (k : pystr) : bool :=
  str_in k TRACKING_QUERY_KEYS
  || existsb (fun prefix => startswith prefix k) TRACKING_QUERY_PREFIXES.

(** The host: in lower case, without a leading "www.". *)
Definition normalize_netloc (netloc : pystr) : pystr :=
  let netloc := lower netloc in
  if startswith (py "www.") netloc then drop 4 netloc else netloc.

(** The path: "/" for none, and without trailing slashes unless it is
    "/". *)
Definition normalize_path (path : pystr) : pystr :=
  let path := match path with [] => [c_slash] | p => p end in
  if negb (str_eqb path [c_slash]) && endswith [c_slash] path
  then rstrip_by (N.eqb c_slash) path
  else path.

(** The query parameters: without the tracking ones, sorted by key. *)
Definition normalize_query (query : pystr) : list (pystr * pystr) :=
  let q := List.filter (fun kv => negb (is_tracking_key (fst kv)))
                       (parse_qsl query) in
  sort_by_key q.

(** The body of the [try] of [normalize_url]. *)
Definition normalize_url_try (url : pystr) : result pystr :=
  parsed ← urlparse url;
  let netloc := normalize_netloc (netloc parsed) in
  let path := normalize_path (path parsed) in
  let q := normalize_query (query parsed) in
  query ← urlencode q;
  Ok (urlunparse (scheme parsed) netloc path [] query []).

(** [normalize_url] on a str that is not empty. *)
Definition normalize_url_str (url : pystr) : pystr :=
  match normalize_url_try url with
  | Ok normalized => normalized
  | Raise _ => url
  end.

(** [normalize_url(url)].  A value that is not a str makes [urlparse] raise
    (it has no [decode]), and the [except] returns it as it is. *)
Definition normalize_url (url : pyval) : pyval :=
  if negb (truthy url) then JNull
  else match url with
       | JStr s => JStr (normalize_url_str s)
       | _ => url
       end.

End Library.

(** ** Computations with a state *)

(** Computations over a state [S] that may raise; the state survives the
    exception. *)
Definition M (S A : Type) : Type := S -> result A * S.

#[global] Instance M_ret {S} : MRet (M S) := fun A a s => (Ok a, s).
#[global] Instance M_bind {S} : MBind (M S) := fun A B k m s =>
  match m s with
  | (Ok a, s') => k a s'
  | (Raise e, s') => (Raise e, s')
  end.

Definition lift {S A} (r : result A) : M S A := fun s => (r, s).
Definition raise {S A} (e : exn) : M S A := fun s => (Raise e, s).

(** [try: m except Exception: h]. *)
Definition try_except {S A} (m : M S A) (h : M S A) : M S A := fun s =>
  match m s with
  | (Ok a, s') => (Ok a, s')
  | (Raise _, s') => h s'
  end.

(** The statements of the [try] of the JSON-LD loop run over [out]: they
    update it in place and may raise, and what was written stays written. *)
Abbreviation LD := (M (gmap string pyval)).

(** ** The program's dictionaries *)

(** [d.get(k)] and [d[k]] on a dictionary of the program; every key that the
    program reads this way is set when the dictionary is built. *)
Definition dget (d : gmap string pyval) (k : string) : pyval :=
  default JNull (d !! k).

(** Keys of a set or of [in]: a list and a dict are not hashable. *)
Definition hashable (v : pyval) : bool :=
  match v with
  | JArr _ | JObj _ => false
  | _ => true
  end.

Definition num_of (v : pyval) : option Q :=
  match v with
  | JBool b => Some (if b then 1 else 0)%Q
  | JNum q _ => Some q
  | _ => None
  end.

(** [a == b] on hashable values: numbers and bools by value. *)
Definition py_key_eqb (a b : pyval) : bool :=
  match a, b with
  | JNull, JNull => true
  | JStr s, JStr t => str_eqb s t
  | _, _ =>
      match num_of a, num_of b with
      | Some x, Some y => Qeq_bool x y
      | _, _ => false
      end
  end.

(** [key in seen] for a set [seen], given as the list of its elements. *)
Definition set_mem (key : pyval) (seen : list pyval) : bool :=
  existsb (py_key_eqb key) seen.

Section Program.
Context `{PyLib}.

(** ** Search results: [clean_results] and [filter_relevant] *)

Fixpoint clean_results_loop (seen : list pyval) (results : list pyval)
  : result (list pyval) :=
  match results with
  | [] => Ok []
  | r :: rest =>
      url ← py_get r "link";
      let norm := normalize_url url in
      if truthy norm then
        if hashable norm then
          if negb (set_mem norm seen) then
            cleaned ← clean_results_loop (norm :: seen) rest;
            Ok (r :: cleaned)
          else clean_results_loop seen rest
        else Raise TypeError
      else clean_results_loop seen rest
  end.

Definition clean_results (results : pyval) : result (list pyval) :=
  items ← py_iter results;
  clean_results_loop [] items.

Definition default_keywords : list pystr :=
  map py ["care"; "postpartum"; "baby"; "mother"; "confinement"]%string.

(** [(v or "").lower()]: only a str has [lower]. *)
Definition lower_or_empty (v : pyval) : result pystr :=
  match py_or v (JStr []) with
  | JStr s => Ok (lower s)
  | _ => Raise AttributeError
  end.

Fixpoint filter_relevant_loop (lowered : list pystr) (results : list pyval)
  : result (list pyval) :=
  match results with
  | [] => Ok []
  | r :: rest =>
      t ← py_get r "title";
      title ← lower_or_empty t;
      sn ← py_get r "snippet";
      snippet ← lower_or_empty sn;
      filtered ← filter_relevant_loop lowered rest;
      if existsb (fun kw => contains kw title || contains kw snippet) lowered
      then Ok (r :: filtered)
      else Ok filtered
  end.

Definition filter_relevant (results : list pyval) (keywords : option (list pystr))
  : result (list pyval) :=
  let keywords := default default_keywords keywords in
  let lowered := map lower keywords in
  filter_relevant_loop lowered results.

(** ** The Component Extractor *)

Definition extract_components (address_pairs : list (pystr * pystr))
  : gmap string pyval :=
  foldl
    (fun comps '(text, label) =>
       if str_eqb label (py "city") then <["city" := JStr text]> comps
       else if str_eqb label (py "state") then <["state" := JStr text]> comps
       else if str_eqb label (py "country") then <["country" := JStr text]> comps
       else if str_eqb label (py "postcode") then <["zipcode" := JStr text]> comps
       else comps)
    (<["city" := JNull]> (<["state" := JNull]> (<["country" := JNull]>
       (<["zipcode" := JNull]> ∅))))
    address_pairs.

(** ** Title cleaning *)

(** [domain_to_name]: a bare [except] makes every failure ["Unknown"]. *)
Definition domain_to_name (url : pyval) : pystr :=
  match py_or url (JStr []) with
  | JStr u =>
      match urlparse u with
      | Ok parsed =>
          let domain := remove_sub (py "www.") (netloc parsed) in
          let domain := match partition_at c_dot domain with
                        | Some (a, _) => a
                        | None => domain
                        end in
          title (replace_char c_hyphen c_space domain)
      | Raise _ => py "Unknown"
      end
  | _ => py "Unknown"
  end.

(** [html.unescape] of a str. *)
Definition html_unescape (s : pystr) : pystr :=
  if negb (has_char c_amp s) then s else html_charrefs s.

Definition is_title_sep (c : char) : bool := (c =? c_hyphen)%N || (c =? c_pipe)%N.

(** [re.split(r"\s*[\-|\|]\s*", t)[0]]: the text before the first hyphen or
    bar, without the white space that precedes the separator; all of [t]
    when there is no separator. *)
Definition split_title_head (t : pystr) : pystr :=
  let '(before, rest) := span (fun c => negb (is_title_sep c)) t in
  match rest with
  | [] => t
  | _ => rstrip_by is_space before
  end.

(** [re.sub(r"\s+", " ", s)]; [in_run] says that the previous character was
    white space. *)
Fixpoint collapse_ws (in_run : bool) (s : pystr) : pystr :=
  match s with
  | [] => []
  | c :: r =>
      if is_space c then
        if in_run then collapse_ws true r else c_space :: collapse_ws true r
      else c :: collapse_ws false r
  end.

Definition generic_words : list pystr :=
  map py ["about"; "services"; "home"; "faq"; "contact"]%string.

Definition clean_business_name (title url : pyval) : result pystr :=
  if negb (truthy title) then Ok (domain_to_name url)
  else
    match title with
    | JStr s =>
        let t := html_unescape s in
        let t := replace_char c_endash c_hyphen t in
        let t := split_title_head t in
        let t_stripped := strip t in
        if (length t_stripped <? 3)%nat || str_in (lower t_stripped) generic_words
        then Ok (domain_to_name url)
        else Ok (collapse_ws false t_stripped)
    | JArr l =>
        (* html.unescape returns a list without "&" as it is, and a list has
           no replace *)
        if existsb (py_key_eqb (JStr [c_amp])) l then Raise TypeError
        else Raise AttributeError
    | JObj _ =>
        if py_has_key title "&" then Raise TypeError else Raise AttributeError
    | _ => Raise TypeError
    end.

(** ** The Enrichment Extractor *)

Definition SOCIAL_DOMAINS : list (string * list pystr) :=
  [("facebookurl", [py "facebook.com"]);
   ("instagramurl", [py "instagram.com"]);
   ("twitterurl", [py "twitter.com"; py "x.com"]);
   ("tiktokurl", [py "tiktok.com"]);
   ("linkedinurl", [py "linkedin.com"])]%string.

Definition SOCIAL_KEYS : list string := map fst SOCIAL_DOMAINS.

(** The first network one of whose domains occurs in [l]: the
    [if]/[elif] chain over [SOCIAL_DOMAINS]. *)
Definition social_key_of (l : pystr) : option string :=
  fst <$> List.find (fun kd => existsb (fun d => contains d l) (snd kd))
                    SOCIAL_DOMAINS.

Definition extract_json_ld (soup : Soup) : list pyval :=
  flat_map
    (fun text =>
       match text with
       | Some ((_ :: _) as t) =>
           match json_loads t with
           | Some (JArr l) => l
           | Some obj => [obj]
           | None => []
           end
       | _ => []
       end)
    (soup_ld_scripts soup).

Fixpoint first (vals : list pyval) : pyval :=
  match vals with
  | [] => JNull
  | v :: rest =>
      match v with
      | JStr ((_ :: _) as t) =>
          match strip t with
          | [] => first rest
          | s => JStr s
          end
      | _ => first rest
      end
  end.

Definition no_social : gmap string pyval :=
  <["facebookurl" := JNull]> (<["instagramurl" := JNull]>
    (<["twitterurl" := JNull]> (<["tiktokurl" := JNull]>
      (<["linkedinurl" := JNull]> ∅)))).

Definition pick_social_from_sameas (same_as : pyval) : gmap string pyval :=
  if negb (truthy same_as) then no_social
  else
    let links := match same_as with JArr l => l | _ => [same_as] end in
    foldl
      (fun out link =>
         match link with
         | JStr s =>
             match social_key_of (lower s) with
             | Some k => <[k := link]> out
             | None => out
             end
         | _ => out
         end)
      no_social links.

(** The scan of [@graph] for [sameAs]: the entry of type Organization when
    the scan meets one, else the last entry. *)
Fixpoint graph_sameas (link : pyval) (graphs : list pyval) : result pyval :=
  match graphs with
  | [] => Ok link
  | graph :: rest =>
      type ← py_get graph "@type";
      link ← py_get graph "sameAs";
      if py_key_eqb type (JStr (py "Organization")) then Ok link
      else graph_sameas link rest
  end.

(** The scan of [@graph] for the first [email] that is not [None]. *)
Fixpoint graph_email (graphs : list pyval) : result pyval :=
  match graphs with
  | [] => Ok JNull
  | graph :: rest =>
      email ← py_get graph "email";
      if negb (is_none email) then Ok email else graph_email rest
  end.

Definition ld_read (k : string) : LD pyval := fun out => (Ok (dget out k), out).
Definition ld_write (k : string) (v : pyval) : LD unit :=
  fun out => (Ok tt, <[k := v]> out).
Definition ld_when (b : bool) (m : LD unit) : LD unit := if b then m else mret tt.

(** [out[k] = first(...) or out[k]]. *)
Definition ld_take (k : string) (vals : list pyval) : LD unit :=
  old ← ld_read k; ld_write k (py_or (first vals) old).

(** [sameAs] of the object, looked up in [@graph] when the object has
    none. *)
Definition resolve_link (obj : pyval) : result pyval :=
  link ← py_get obj "sameAs";
  if is_none link then
    graphs ← py_get obj "@graph";
    if negb (is_none graphs) then gs ← py_iter graphs; graph_sameas link gs
    else Ok link
  else Ok link.

(** [email] of the object, looked up in [contactPoint] and then in [@graph]
    when the object has none. *)
Definition resolve_email (obj : pyval) : result pyval :=
  email ← py_get obj "email";
  if is_none email then
    contact_point ← py_get obj "contactPoint";
    email ← (if negb (is_none contact_point) then py_get contact_point "email"
             else Ok email);
    if is_none email then
      graphs ← py_get obj "@graph";
      if negb (is_none graphs) then gs ← py_iter graphs; graph_email gs
      else Ok email
    else Ok email
  else Ok email.

(** The statements of the [try], in the order of the source: the name, the
    address, the phone and the alternate website, and then the links and the
    email, of which nothing is written before both are resolved. *)
Definition ld_name (obj : pyval) : LD unit :=
  name ← lift (py_get obj "name");
  center_name ← ld_read "center_name";
  ld_when (truthy name && negb (truthy center_name))
    (ld_write "center_name" (JStr (strip (py_str name)))).

Definition ld_address (obj : pyval) : LD unit :=
  address ← lift (py_get obj "address");
  match address with
  | JObj _ =>
      a1 ← lift (py_get address "streetAddress");
      a2 ← lift (py_get address "address");
      _ ← ld_take "address" [a1; a2];
      c1 ← lift (py_get address "addressLocality");
      c2 ← lift (py_get address "locality");
      _ ← ld_take "city" [c1; c2];
      s1 ← lift (py_get address "addressRegion");
      s2 ← lift (py_get address "region");
      _ ← ld_take "state" [s1; s2];
      k1 ← lift (py_get address "addressCountry");
      _ ← ld_take "country" [k1];
      z1 ← lift (py_get address "postalCode");
      ld_take "zipcode" [z1]
  | _ => mret tt
  end.

Definition ld_contact (obj : pyval) : LD unit :=
  p1 ← lift (py_get obj "telephone");
  p2 ← lift (py_get obj "phone");
  _ ← ld_take "phone" [p1; p2];
  u1 ← lift (py_get obj "url");
  ld_take "websiteurl" [u1].

(** [for k, v in social.items(): out[k] = out[k] or v]. *)
Definition ld_social (social : gmap string pyval) : LD unit :=
  foldr (fun k rest =>
           old ← ld_read k;
           _ ← ld_write k (py_or old (dget social k));
           rest)
        (mret tt) SOCIAL_KEYS.

Definition ld_links (obj : pyval) : LD unit :=
  link ← lift (resolve_link obj);
  email ← lift (resolve_email obj);
  _ ← ld_take "email" [email];
  ld_social (pick_social_from_sameas link).

Definition json_ld_body (obj : pyval) : LD unit :=
  _ ← ld_name obj;
  _ ← ld_address obj;
  _ ← ld_contact obj;
  ld_links obj.

(** One turn of [for obj in ld_list]: the [except] drops the exception and
    goes on with the next object. *)
Definition json_ld_step (out : gmap string pyval) (obj : pyval)
  : gmap string pyval :=
  snd (json_ld_body obj out).

Definition json_ld_pass (out : gmap string pyval) (ld_list : list pyval)
  : gmap string pyval :=
  foldl json_ld_step out ld_list.

(** The scan of the hyperlinks. *)
Definition href_step (out : gmap string pyval) (a_href : pystr)
  : gmap string pyval :=
  let href := strip a_href in
  let out :=
    if WHATSAPP_RE_search href
    then <["whatsapp" := py_or (dget out "whatsapp") (JStr href)]> out
    else out in
  match social_key_of (lower href) with
  | Some k => <[k := py_or (dget out k) (JStr href)]> out
  | None => out
  end.

Definition text_candidate (min : nat) (t : pystr) : bool :=
  match t with
  | [] => false
  | _ => (min <? length t)%nat
  end.

Definition address_like_tag (tag : TagView) : bool :=
  let cls := lower (join_with c_space (tag_class tag)) in
  let idv := lower (default [] (tag_id tag)) in
  let itemprop := lower (default [] (tag_itemprop tag)) in
  existsb (fun key => contains key cls) [py "address"; py "addr"]
  || existsb (fun key => contains key idv) [py "address"; py "addr"]
  || str_eqb itemprop (py "address").

(** The loop over the headings, up to the first that gives services. *)
Fixpoint services_scan (headers : list HeaderView) : list pystr :=
  match headers with
  | [] => []
  | header :: rest =>
      let htxt := lower (header_text header) in
      if contains (py "service") htxt then
        let services :=
          match header_next_list header with
          | Some lis => List.filter (text_candidate 2) lis
          | None => List.filter (text_candidate 5) (take 5 (header_next_p header))
          end in
        match services with
        | [] => services_scan rest
        | _ => services
        end
      else services_scan rest
  end.

Definition out_defaults (url : pyval) : gmap string pyval :=
  list_to_map
    [("center_name", JNull); ("address", JNull); ("city", JNull);
     ("state", JNull); ("country", JNull); ("zipcode", JNull);
     ("email", JNull); ("website", normalize_url url); ("websiteurl", JNull);
     ("phone", JNull); ("whatsapp", JNull); ("facebookurl", JNull);
     ("instagramurl", JNull); ("twitterurl", JNull); ("tiktokurl", JNull);
     ("linkedinurl", JNull); ("services", JNull)]%string.

Definition extract_from_html (url : pyval) (html_text : pystr)
  : result (gmap string pyval) :=
  let soup := BeautifulSoup html_text in
  let out := out_defaults url in
  let title_text :=
    match soup_title_string soup with
    | Some ((_ :: _) as s) => JStr (strip s)
    | _ => JNull
    end in
  center_name ← clean_business_name title_text url;
  let out := <["center_name" := JStr center_name]> out in
  let ld_list := extract_json_ld soup in
  let out := json_ld_pass out ld_list in
  let out := foldl href_step out (soup_hrefs soup) in
  let addr_candidates :=
    List.filter (text_candidate 10) (soup_address_texts soup)
    ++ List.filter (text_candidate 10)
         (map tag_text (List.filter address_like_tag (soup_tags soup))) in
  let out :=
    match addr_candidates with
    | c :: _ =>
        if negb (truthy (dget out "address")) then <["address" := JStr c]> out
        else out
    | [] => out
    end in
  out ←
    (if truthy (dget out "address") && negb (truthy (dget out "zipcode")) then
       match dget out "address" with
       | JStr a =>
           match ZIP_RE_search a with
           | Some m => Ok (<["zipcode" := JStr m]> out)
           | None => Ok out
           end
       | _ => Raise TypeError
       end
     else Ok out);
  let services := services_scan (soup_headers soup) in
  match services with
  | [] => Ok out
  | _ => Ok (<["services" := JArr (map JStr services)]> out)
  end.

(** ** The Record Merger *)

Definition MERGE_KEYS : list string :=
  ["center_name"; "address"; "city"; "state"; "country"; "zipcode"; "email";
   "website"; "websiteurl"; "phone"; "whatsapp"; "facebookurl";
   "instagramurl"; "twitterurl"; "tiktokurl"; "linkedinurl"; "services"]%string.

(** One turn of the loop over the field list:
    [if k in enrich and enrich[k]: record[k] = record.get(k) or enrich[k]]. *)
Definition merge_field (enrich record : gmap string pyval) (k : string)
  : gmap string pyval :=
  match enrich !! k with
  | Some v =>
      if truthy v then <[k := py_or (dget record k) v]> record else record
  | None => record
  end.

Definition merge_enrichment (record enrich : gmap string pyval)
  : gmap string pyval :=
  foldl (merge_field enrich) record MERGE_KEYS.

End Program.

(** ** The outside world *)

Record Request := {
  req_url : pystr;
  req_params : list (string * pyval)
}.

Record Response := {
  status_code : Z;
  text : pystr;
  (** [response.json()]; [None] when it raises. *)
  json_body : option pyval
}.

(** The network answers a request with a response or with an exception, and
    changes; the two keys come from the environment of the process. *)
Class World := {
  world : Type;
  requests_get : Request -> world -> result Response * world;
  API_KEY : option pystr;
  GEO_MAP_API : option pystr
}.

Section Collaborators.
Context `{PyLib} `{World}.

(** The state of a run: the world, and the requests made so far. *)
Definition state : Type := world * list Request.

Definition http_get (req : Request) : M state Response := fun '(w, log) =>
  let '(r, w') := requests_get req w in (r, (w', log ++ [req])).

Definition opt_str (o : option pystr) : pyval :=
  match o with
  | Some s => JStr s
  | None => JNull
  end.

Definition key_missing (o : option pystr) : bool := negb (truthy (opt_str o)).

Definition JInt (z : Z) : pyval := JNum (inject_Z z) false.

(** [response.raise_for_status()]. *)
Definition raise_for_status (resp : Response) : result unit :=
  if (400 <=? status_code resp)%Z && (status_code resp <? 600)%Z
  then Raise HTTPError else Ok tt.

(** [response.json()]. *)
Definition response_json (resp : Response) : result pyval :=
  match json_body resp with
  | Some v => Ok v
  | None => Raise JSONDecodeError
  end.

Definition SEARCH_URL : pystr := py "https://api.scrapingdog.com/google".
Definition MAPS_URL : pystr := py "https://api.scrapingdog.com/google_maps".
Definition SCRAPE_URL : pystr := py "https://api.scrapingdog.com/scrape".
Definition GEO_URL : pystr := py "http://api.openweathermap.org/geo/1.0/direct".

(** [for attempt in range(n)]: the first attempt that does not raise
    returns; after [n] failures [fallback] is returned. *)
Fixpoint attempts {A} (n : nat) (m : M state A) (fallback : A) : M state A :=
  match n with
  | O => mret fallback
  | S n' => try_except m (attempts n' m fallback)
  end.

(** [data.get("organic_results", [])]. *)
Definition organic_results (data : pyval) : result pyval :=
  match data with
  | JObj items => Ok (default (JArr []) (assoc_get (py "organic_results") items))
  | _ => Raise AttributeError
  end.

Definition get_google_search_results (query : pystr) (num_results : Z)
    (country : pyval) : M state pyval :=
  let params :=
    [("api_key", opt_str API_KEY); ("query", JStr query);
     ("results", JInt num_results); ("country", country);
     ("domain", JStr (py "google.com"));
     ("advance_search", JStr (py "true"))]%string in
  attempts 3
    (response ← http_get {| req_url := SEARCH_URL; req_params := params |};
     _ ← lift (raise_for_status response);
     data ← lift (response_json response);
     lift (organic_results data))
    (JArr []).

(** [data[0]]. *)
Definition py_index0 (data : pyval) : result pyval :=
  match data with
  | JArr (x :: _) => Ok x
  | JArr [] => Raise IndexError
  | JStr (c :: _) => Ok (JStr [c])
  | JStr [] => Raise IndexError
  | JObj _ => Raise KeyError
  | _ => Raise TypeError
  end.

(** The anchor [f"@{lat},{lon},15z"]. *)
Definition anchor (lat lon : pyval) : pystr :=
  py "@" ++ py_str lat ++ py "," ++ py_str lon ++ py ",15z".

Definition get_lat_lng (location_name : pyval) (api_key : option pystr)
  : M state pystr :=
  let params :=
    [("q", location_name); ("limit", JInt 1); ("appid", opt_str api_key)]%string in
  response ← http_get {| req_url := GEO_URL; req_params := params |};
  _ ← lift (raise_for_status response);
  data ← lift (response_json response);
  if truthy data then
    d0 ← lift (py_index0 data);
    lat ← lift (py_item d0 "lat");
    d0 ← lift (py_index0 data);
    lon ← lift (py_item d0 "lon");
    mret (anchor lat lon)
  else mret [].

(** What [get_google_maps_results] returns for the decoded answer. *)
Definition maps_results_of (data : pyval) : list pyval :=
  match data with
  | JArr l => l
  | JObj items =>
      match assoc_get (py "search_results") items with
      | Some (JArr l) => l
      | _ =>
          if py_has_key data "name" || py_has_key data "formatted_address"
          then [data] else []
      end
  | _ => []
  end.

Definition get_google_maps_results (query ll : pystr) (page : Z)
  : M state (list pyval) :=
  if key_missing API_KEY then mret []
  else
    let params :=
      [("api_key", opt_str API_KEY); ("query", JStr query);
       ("page", JInt page); ("ll", JStr ll)]%string in
    attempts 3
      (resp ← http_get {| req_url := MAPS_URL; req_params := params |};
       _ ← lift (raise_for_status resp);
       data ← lift (response_json resp);
       mret (maps_results_of data))
      [].

(** ** The Discovery Aggregator *)

(** [range(n)]. *)
Definition py_range (n : Z) : list Z := map Z.of_nat (seq 0 (Z.to_nat n)).

(** The anchor after a page: that of the first result when there is one. *)
Definition recenter (results : list pyval) (ll : pystr) : result pystr :=
  match results with
  | r0 :: _ =>
      g ← py_item r0 "gps_coordinates";
      latitude ← py_item g "latitude";
      g ← py_item r0 "gps_coordinates";
      longitude ← py_item g "longitude";
      Ok (anchor latitude longitude)
  | [] => Ok ll
  end.

(** The loop of [get_all_google_maps_results], over the collaborator
    [fetch] that answers one page. *)
Fixpoint get_all_loop {S} (fetch : pystr -> pystr -> Z -> M S (list pyval))
    (query ll : pystr) (pages : list Z) (all_results : list pyval)
  : M S (list pyval) :=
  match pages with
  | [] => mret all_results
  | page :: rest =>
      results ← fetch query ll page;
      ll ← lift (recenter results ll);
      get_all_loop fetch query ll rest (all_results ++ results)
  end.

Definition get_all_google_maps_results_with {S}
    (fetch : pystr -> pystr -> Z -> M S (list pyval))
    (query ll : pystr) (max_pages : Z) : M S (list pyval) :=
  get_all_loop fetch query ll (py_range max_pages) [].

Definition get_all_google_maps_results (query ll : pystr) (max_pages : Z)
  : M state (list pyval) :=
  get_all_google_maps_results_with get_google_maps_results query ll max_pages.

(** ** Fetching a page *)

Definition page_text (resp : Response) : option pystr :=
  if (200 <=? status_code resp)%Z && (status_code resp <? 400)%Z then
    match text resp with
    | [] => None
    | t => Some t
    end
  else None.

Definition fetch_html_via_scrapingdog (target_url : pyval) (dynamic : bool)
  : M state (option pystr) :=
  if key_missing API_KEY then mret None
  else
    let params :=
      [("api_key", opt_str API_KEY); ("url", target_url);
       ("premium", JStr (py "true")); ("dynamic", JStr (py "true"))]%string in
    try_except
      (resp ← http_get {| req_url := SCRAPE_URL; req_params := params |};
       mret (page_text resp))
      (mret None).

(** A value that is not a str is not a URL: [session.get] raises before any
    request is made. *)
Definition fetch_html_direct (url : pyval) : M state (option pystr) :=
  try_except
    (match url with
     | JStr u =>
         resp ← http_get {| req_url := u; req_params := [] |};
         mret (page_text resp)
     | _ => raise TypeError
     end)
    (mret None).

(** ** The Pipeline Orchestrator *)

(** [url_for_dedupe]. *)
Definition url_for_dedupe (r : pyval) : result pyval :=
  w ← py_get r "website";
  wu ← py_get r "website_url";
  l ← py_get r "link";
  let u := py_or (py_or w wu) l in
  Ok (if truthy u then normalize_url u else JNull).

Fixpoint dedupe_loop (seen_urls : list pyval) (tagged : list (pystr * pyval))
  : result (list (pystr * pyval)) :=
  match tagged with
  | [] => Ok []
  | (src, r) :: rest =>
      key ← url_for_dedupe r;
      if truthy key then
        if hashable key then
          if negb (set_mem key seen_urls) then
            kept ← dedupe_loop (key :: seen_urls) rest;
            Ok ((src, r) :: kept)
          else dedupe_loop seen_urls rest
        else Raise TypeError
      else if is_none key then
        kept ← dedupe_loop seen_urls rest;
        Ok ((src, r) :: kept)
      else dedupe_loop seen_urls rest
  end.

Definition dedupe (combined_tagged : list (pystr * pyval))
  : result (list (pystr * pyval)) :=
  dedupe_loop [] combined_tagged.

Definition no_comps : gmap string pyval := extract_components [].

(** [a or b or None]. *)
Definition or_none (a b : pyval) : pyval := py_or (py_or a b) JNull.

(** The website of a discovery item:
    [res.get("website") or res.get("website_url") or res.get("link") or None]. *)
Definition website_field_of (res : pyval) : result pyval :=
  w ← py_get res "website";
  wu ← py_get res "website_url";
  l ← py_get res "link";
  Ok (py_or (py_or (py_or w wu) l) JNull).

(** The provisional record. *)
Definition make_record (idx : Z) (business_name : pystr)
    (website_field : pyval) (link : option pyval) (snippet address : pyval)
    (comps : gmap string pyval) (phone services : pyval)
  : gmap string pyval :=
  list_to_map
    [("id", JInt idx);
     ("business_name", JStr business_name);
     ("url", match link with
             | Some l => py_or website_field l
             | None => JNull
             end);
     ("snippet", snippet);
     ("center_name", JStr business_name);
     ("address", address);
     ("city", dget comps "city");
     ("state", py_or (dget comps "state") (dget comps "city"));
     ("country", py_or (py_or (dget comps "country") (dget comps "state"))
                       (dget comps "city"));
     ("zipcode", dget comps "zipcode");
     ("email", JNull);
     ("website", if truthy website_field then normalize_url website_field
                 else JNull);
     ("websiteurl", JNull);
     ("phone", phone);
     ("whatsapp", JNull);
     ("facebookurl", JNull);
     ("instagramurl", JNull);
     ("twitterurl", JNull);
     ("tiktokurl", JNull);
     ("linkedinurl", JNull);
     ("services", services)]%string.

(** The local variables of [scrape_businesses] that one turn of the loop
    over the candidates may leave unassigned: they keep the value of an
    earlier turn. *)
Record locals := {
  l_search_filtered : option (list pyval);
  l_link : option pyval;
  l_record : option (gmap string pyval)
}.

Definition fetch_html (fetch : pystr) (dynamic : bool) (website_field : pyval)
  : M state (option pystr) :=
  if truthy website_field then
    if str_eqb fetch (py "api") then
      fetch_html_via_scrapingdog website_field dynamic
    else if str_eqb fetch (py "direct") then fetch_html_direct website_field
    else
      t ← fetch_html_via_scrapingdog website_field dynamic;
      match t with
      | Some _ => mret t
      | None => fetch_html_direct website_field
      end
  else mret None.

(** The body of [if src == "maps":]. *)
Definition maps_candidate (country : pystr) (keywords : option (list pystr))
    (fetch : pystr) (dynamic : bool) (idx : Z) (res : pyval) (loc : locals)
  : M state locals :=
  n1 ← lift (py_get res "name");
  n2 ← lift (py_get res "title");
  let name := py_or n1 n2 in
  a1 ← lift (py_get res "formatted_address");
  a2 ← lift (py_get res "address");
  let address := py_or a1 a2 in
  p1 ← lift (py_get res "phone");
  p2 ← lift (py_get res "phone_number");
  let phone := py_or p1 p2 in
  website_field ← lift (website_field_of res);
  let snippet := JNull in
  t1 ← lift (py_get res "types");
  t2 ← lift (py_get res "type");
  let services := or_none t1 t2 in
  business_name ← lift (clean_business_name name website_field);
  comps ←
    (if truthy address then
       match address with
       | JStr a =>
           parsed ← lift (parse_address a);
           match parsed with
           | [] => mret no_comps
           | _ => mret (extract_components parsed)
           end
       | _ => raise TypeError
       end
     else mret no_comps);
  search_results ←
    get_google_search_results business_name 11
      (py_or (py_or (py_or (py_or (dget comps "country") (dget comps "state"))
                           (dget comps "city")) (JStr country)) JNull);
  search_clean ← lift (clean_results search_results);
  search_filtered ←
    match search_clean with
    | [] => mret (l_search_filtered loc)
    | _ => f ← lift (filter_relevant search_clean keywords); mret (Some f)
    end;
  sf ← match search_filtered with
       | Some sf => mret sf
       | None => raise UnboundLocalError
       end;
  '(link, snippet) ←
    match sf with
    | top :: _ =>
        if is_none website_field then
          link ← lift (py_get top "link");
          snippet ← lift (py_get top "snippet");
          mret (Some link, snippet)
        else mret (l_link loc, snippet)
    | [] => mret (l_link loc, snippet)
    end;
  let record :=
    make_record idx business_name website_field link snippet address comps
                phone services in
  html_text ← fetch_html fetch dynamic website_field;
  record ←
    match html_text with
    | Some t =>
        enrich ← lift (extract_from_html website_field t);
        mret (merge_enrichment record enrich)
    | None => mret record
    end;
  mret {| l_search_filtered := search_filtered; l_link := link;
          l_record := Some record |}.

(** The loop over [enumerate(filtered_tagged, start=1)]. *)
Fixpoint candidates_loop (country : pystr) (keywords : option (list pystr))
    (fetch : pystr) (dynamic : bool) (idx : Z)
    (filtered_tagged : list (pystr * pyval)) (loc : locals)
    (all_data : list (gmap string pyval))
  : M state (list (gmap string pyval)) :=
  match filtered_tagged with
  | [] => mret all_data
  | (src, res) :: rest =>
      loc ← (if str_eqb src (py "maps")
             then maps_candidate country keywords fetch dynamic idx res loc
             else mret loc);
      match l_record loc with
      | Some record =>
          candidates_loop country keywords fetch dynamic (idx + 1) rest loc
                          (all_data ++ [record])
      | None => raise UnboundLocalError
      end
  end.

(** The body of [if src == "maps":] in the loop over the sources. *)
Definition discover_maps (query ll : pystr) (page : Z) : M state (list pyval) :=
  ll_param ←
    try_except
      (parsed ← lift (parse_address query);
       let location := extract_components parsed in
       let place := py_or (py_or (dget location "country")
                                 (dget location "state"))
                          (JStr (py "malaysia")) in
       get_lat_lng place GEO_MAP_API)
      (mret []);
  try_except
    (get_all_google_maps_results query
       (match ll_param with [] => ll | _ => ll_param end)
       (if (page =? 0)%Z then 0%Z else page))
    (mret []).

Fixpoint sources_loop (query ll : pystr) (page : Z) (source_order : list pystr)
    (combined_tagged : list (pystr * pyval))
  : M state (list (pystr * pyval)) :=
  match source_order with
  | [] => mret combined_tagged
  | src :: rest =>
      if str_eqb src (py "maps") then
        maps_raw ← discover_maps query ll page;
        sources_loop query ll page rest
          (combined_tagged ++ map (fun item => (py "maps", item)) maps_raw)
      else sources_loop query ll page rest combined_tagged
  end.

Definition no_locals : locals :=
  {| l_search_filtered := None; l_link := None; l_record := None |}.

Definition scrape_businesses (query country : pystr)
    (keywords : option (list pystr)) (fetch : pystr) (dynamic : bool)
    (source ll : pystr) (page : Z) : M state (list (gmap string pyval)) :=
  if key_missing API_KEY then mret []
  else
    match query with
    | [] => mret []
    | _ =>
        let source_order :=
          if str_eqb source (py "all") then [py "search"; py "maps"]
          else [source] in
        combined_tagged ← sources_loop query ll page source_order [];
        filtered_tagged ← lift (dedupe combined_tagged);
        candidates_loop country keywords fetch dynamic 1 filtered_tagged
                        no_locals []
    end.

(** ** The web route of [main.py] *)

Definition DEFAULT_LL : pystr := py "@4.2105,101.9758,15z".
Definition DEFAULT_PAGE_COUNT : Z := 0.

(** [data = scrape_businesses(query=query, page=page_count)] of
    [read_root]. *)
Definition read_root_data (query : pystr) (page_count : Z)
  : M state (list (gmap string pyval)) :=
  scrape_businesses query [] None (py "api") false (py "all") DEFAULT_LL
                    page_count.

End Collaborators.

(** ** Notions used in the statements *)

(** The loop that the two deduplications share, on items that raise
    nothing: an item is kept when its key is true and not yet seen, or,
    with [keep_null], when its key is [None]. *)
Fixpoint first_per_key {A} (key : A -> pyval) (keep_null : bool)
    (seen : list pyval) (l : list A) : list A :=
  match l with
  | [] => []
  | x :: r =>
      if truthy (key x) then
        if negb (set_mem (key x) seen)
        then x :: first_per_key key keep_null (key x :: seen) r
        else first_per_key key keep_null seen r
      else if keep_null && is_none (key x)
      then x :: first_per_key key keep_null seen r
      else first_per_key key keep_null seen r
  end.

(** The item [x] has the key [k]. *)
Definition keyed {A} (key : A -> pyval) (k : pyval) (x : A) : bool :=
  py_key_eqb (key x) k.

(** A value that is a str or [None]. *)
Definition text_or_null (v : pyval) : bool :=
  match v with
  | JNull | JStr _ => true
  | _ => false
  end.

Definition is_dict (v : pyval) : bool :=
  match v with
  | JObj _ => true
  | _ => false
  end.

(** [o.get(k)] of a dict, [None] of anything else. *)
Definition field (o : pyval) (k : string) : pyval :=
  match py_get o k with
  | Ok v => v
  | Raise _ => JNull
  end.

Section Keys.
Context `{PyLib}.

(** The key of a search result in [clean_results]. *)
Definition link_key (r : pyval) : pyval := normalize_url (field r "link").

(** A search result as the provider documents it: an object whose link is a
    str or is missing. *)
Definition result_has_text_link (r : pyval) : bool :=
  is_dict r && text_or_null (field r "link").

(** The URL of a discovery item: its website, else its website_url, else
    its link. *)
Definition item_url (r : pyval) : pyval :=
  py_or (py_or (field r "website") (field r "website_url")) (field r "link").

(** The key of a tagged discovery item in the cross-source deduplication. *)
Definition dedupe_key (t : pystr * pyval) : pyval :=
  if truthy (item_url (snd t)) then normalize_url (item_url (snd t)) else JNull.

(** A discovery item as the provider documents it: an object whose URL
    is a str when it has one. *)
Definition item_has_text_url (t : pystr * pyval) : bool :=
  is_dict (snd t) && (negb (truthy (item_url (snd t))) || text_or_null (item_url (snd t))).


End Keys.

(** *** The maps collaborator under observation *)




Section Anchors.
Context `{PyLib}.





End Anchors.

(** A computation of the JSON-LD loop leaves the field [k] as it is; and
    leaves it as it is once it is set. *)
Definition ld_keeps {A} (k : string) (m : LD A) : Prop :=
  forall out, dget (snd (m out)) k = dget out k.

(** *** Percent-encoding, byte by byte *)

(** What [quote_plus] makes of one byte: a plus sign of a space, the byte of
    a safe one, [%XX] of any other. *)
Definition quote_plus_byte (b : N) : pystr :=
  if (b =? c_space)%N then [c_plus] else quote_byte [] b.

(** The characters of a percent-encoded query. *)
Definition is_query_char (c : char) : bool :=
  always_safe c || (c =? c_plus)%N || (c =? c_pct)%N || (c =? c_eq)%N
  || (c =? c_amp)%N.

(** *** What [urlsplit] returns *)

(** The characters that [urlsplit] removes from a URL. *)
Definition is_ctl (c : char) : bool :=
  (c =? c_tab)%N || (c =? c_lf)%N || (c =? c_cr)%N.

(** A character that can stand in a path returned by [urlsplit]. *)
Definition is_path_char (c : char) : bool :=
  negb (c =? c_qmark)%N && negb (c =? c_hash)%N && negb (is_ctl c).

(** A character that can stand in a host returned by [urlsplit]. *)
Definition is_host_char (c : char) : bool :=
  negb (is_netloc_delim c) && negb (is_ctl c).

(** A scheme as [urlsplit] returns it: an ASCII letter, then letters,
    digits, [+], [-] and [.], none of them a capital. *)
Definition is_scheme (s : pystr) : bool :=
  match s with
  | [] => false
  | c0 :: _ =>
      is_alpha c0 && forallb is_scheme_char s
      && forallb (fun c => negb (is_upper c)) s
  end.

Section Split.
Context `{PyLib}.

(** The scheme, the host and the path of one result of [urlsplit]. *)
Definition split_facts (S N0 P : pystr) : Prop :=
  (S = [] \/ is_scheme S = true)
  /\ forallb is_host_char N0 = true
  /\ forallb is_path_char P = true
  /\ (P = [] \/ startswith [c_slash] P = true
      \/ (N0 = []
          /\ (S = [] ->
              lstrip_by is_c0_or_space P = P
              /\ exists w, split_scheme (P ++ w) = ([], P ++ w)))).

End Split.

(** The path with which [urlunsplit] writes a URL that has a host part: it
    starts with a slash. *)
Definition rooted (path : pystr) : pystr :=
  if startswith [c_slash] path then path else c_slash :: path.

(** [urlunsplit] writes the two slashes of the host part. *)
Definition writes_netloc (scheme netloc path : pystr) : bool :=
  match netloc with [] => false | _ => true end
  || (match scheme with [] => false | _ => true end
      && str_in scheme uses_netloc
      && negb (startswith [c_slash; c_slash] path)).

(** The query part that [urlunsplit] writes. *)
Definition qpart (qs : pystr) : pystr :=
  match qs with [] => [] | _ => c_qmark :: qs end.

Section Regular.
Context `{PyLib}.

(** The scheme [S], the host [h] and the path [rest] are parts in normal
    form: [urlparse] reads them back from the URL that [urlunsplit] writes
    of them, and [normalize_url] leaves them as they are.
    - [h] is a host in lower case: it has none of [/ ? #], tab, line feed
      and carriage return, [str.lower] leaves it as it is, and it does not
      start with "www.";
    - [rest] is not empty, and does not start with two slashes when [h] is
      empty;
    - under a scheme with path parameters, the last segment of [rest] has
      no semicolon. *)
Definition normal_parts (S h rest : pystr) : bool :=
  forallb is_host_char h
  && str_eqb (lower h) h
  && negb (startswith (py "www.") h)
  && negb (str_eqb rest [])
  && negb (str_eqb h [] && startswith [c_slash; c_slash] rest)
  && negb (str_in S uses_params
           && has_char c_semi (after_last c_slash rest)).

(** The URLs on which the normalizer reaches its fixed point in one step.
    They are the URLs that it returns as they are, because [urlparse] or
    [urlencode] raises; those whose normalized URL [urlparse] rejects; and
    those of which it writes parts in normal form: the host in lower case
    without its leading "www.", and the path without its trailing slashes.
    When it writes no host and a path that starts with two slashes, the
    parts that are read back are others: the text between these slashes and
    the next slash as the host, and what follows as the path; then these
    are to be in normal form, and when this host is empty again the scheme
    is one for which [urlunsplit] writes the two slashes. *)
Definition regular_url (u : pystr) : bool :=
  match urlparse u, normalize_url_try u with
  | Ok p, Ok normalized =>
      match urlparse normalized with
      | Raise _ => true
      | Ok _ =>
          let host := normalize_netloc (netloc p) in
          let pa := normalize_path (path p) in
          if str_eqb host [] && startswith [c_slash; c_slash] pa then
            let '(h, rest) := span (fun c => negb (c =? c_slash)%N) (drop 2 pa) in
            (negb (str_eqb h []) || writes_netloc (scheme p) [] rest)
            && normal_parts (scheme p) h rest
          else normal_parts (scheme p) host pa
      end
  | _, _ => true
  end.

End Regular.

Section Website.
Context `{PyLib}.

(** The website of a record is null, or a string that the normalizer leaves
    as it is. *)
Definition website_is_normal (record : gmap string pyval) : Prop :=
  dget record "website" = JNull
  \/ exists s, dget record "website" = JStr s
               /\ normalize_url (JStr s) = JStr s.

(** A discovery item whose website (its website, else its website_url, else
    its link) is missing or a regular URL. *)
Definition regular_item (res : pyval) : bool :=
  match website_field_of res with
  | Ok JNull => true
  | Ok (JStr u) => regular_url u
  | Ok _ => false
  | Raise _ => true
  end.

End Website.

(** Every result that the computation [m] returns satisfies [P]. *)
Definition returns {S A} (P : A -> Prop) (m : M S A) : Prop :=
  forall s a s', m s = (Ok a, s') -> P a.

Section Provider.
Context `{PyLib} `{World}.

(** The maps provider answers with regular items only. *)
Definition regular_provider : Prop :=
  forall req w resp w' data,
    requests_get req w = (Ok resp, w') ->
    req_url req = MAPS_URL ->
    json_body resp = Some data ->
    Forall (fun res => regular_item res = true) (maps_results_of data).

End Provider.

(** *** The helpers of the extraction *)

Section Links.
Context `{PyLib}.

(** The links of a [sameAs] value: the list itself, or the one value. *)
Definition sameas_links (same_as : pyval) : list pyval :=
  match same_as with JArr l => l | _ => [same_as] end.

(** [link] is a str that counts for the network of key [k]. *)
Definition names_network (k : string) (link : pyval) : bool :=
  match link with
  | JStr s => bool_decide (social_key_of (lower s) = Some k)
  | _ => false
  end.

End Links.

(** The address components and the labels they are read from. *)
Definition COMPONENT_LABELS : list (string * pystr) :=
  [("city", py "city"); ("state", py "state"); ("country", py "country");
   ("zipcode", py "postcode")]%string.

(** ** Sample inputs *)

Module Sample.

Definition no_soup : Soup :=
  {| soup_title_string := None; soup_ld_scripts := []; soup_hrefs := [];
     soup_address_texts := []; soup_tags := []; soup_headers := [] |}.

(** The decimal digits of [n]; [fuel] bounds their number. *)
Fixpoint decimal (fuel n : nat) : pystr :=
  match fuel with
  | O => [48%N]
  | S fuel' =>
      (if (n <? 10)%nat then [] else decimal fuel' (n / 10))
      ++ [(48 + N.of_nat (n mod 10))%N]
  end.

(** A library that knows nothing beyond ASCII: it leaves other text as it
    is, accepts no bracketed host, prints of the numbers the natural ones,
    and finds nothing in a page. *)
Definition plain_lib : PyLib :=
  {| unicode_lower := fun s => s;
     unicode_title := fun s => s;
     unicodedata_nfkc := fun s => s;
     ip_address_is_v6 := fun _ => false;
     html_charrefs := fun s => s;
     py_repr := fun v =>
       match v with
       | JNum q is_float =>
           if (Qden q =? 1)%positive && (0 <=? Qnum q)%Z
           then decimal (Z.to_nat (Qnum q)) (Z.to_nat (Qnum q))
                ++ (if is_float then py ".0" else [])
           else []
       | _ => []
       end;
     json_loads := fun _ => None;
     WHATSAPP_RE_search := fun _ => false;
     ZIP_RE_search := fun _ => None;
     parse_address := fun _ => Ok [];
     BeautifulSoup := fun _ => no_soup |}.

(** A base record and an enrichment that both have a phone. *)
Definition record_phone_123 : gmap string pyval :=
  <["phone"%string := JStr (py "123")]> ∅.
Definition enrich_phone_456 : gmap string pyval :=
  <["phone"%string := JStr (py "456")]> ∅.

(** A network that answers nothing; both keys are configured. *)
Definition silent_world : World :=
  {| world := unit;
     requests_get := fun _ w => (Raise RequestException, w);
     API_KEY := Some (py "key");
     GEO_MAP_API := Some (py "geokey") |}.

(** A search result without a link. *)
Definition result_without_link : pyval := JObj [(py "title", JStr (py "Acme Care"))].

(** A search result whose link is four slashes. *)
Definition result_slashes : pyval :=
  JObj [(py "title", JStr (py "Acme Care")); (py "link", JStr (py "////"))].

(** A discovery item whose website is four slashes. *)
Definition item_slashes : pystr * pyval :=
  (py "maps", JObj [(py "name", JStr (py "Acme Care")); (py "website", JStr (py "////"))]).

Definition item_a : pystr * pyval :=
  (py "maps", JObj [(py "name", JStr (py "A")); (py "website", JStr (py "https://www.acme.com/"))]).
Definition item_b : pystr * pyval :=
  (py "maps", JObj [(py "name", JStr (py "B")); (py "link", JStr (py "https://acme.com/#top"))]).
Definition item_c : pystr * pyval :=
  (py "maps", JObj [(py "name", JStr (py "C"))]).







(** A place at latitude 1.0 and longitude 2.0. *)
Definition place_1_2 : pyval :=
  JObj [(py "name", JStr (py "Acme Care"));
        (py "gps_coordinates",
         JObj [(py "latitude", JNum 1 true); (py "longitude", JNum 2 true)])].

(** A network on which the maps provider answers every page with one
    place and every other request fails; both keys are configured. *)
Definition search_down_world : World :=
  {| world := unit;
     requests_get := fun req w =>
       if str_eqb (req_url req) MAPS_URL
       then (Ok {| status_code := 200; text := [];
                   json_body := Some (JArr [place_1_2]) |}, w)
       else (Raise RequestException, w);
     API_KEY := Some (py "key");
     GEO_MAP_API := Some (py "geokey") |}.

(** A URL in capitals, with a tracking parameter and a fragment. *)
Definition url_tracking : pystr :=
  py "HTTP://WWW.Example.com/a/b/?utm_source=x&b=2&a=1#frag".

(** A URL whose host has a letter beyond ASCII. *)
Definition url_umlaut : pystr := py "http://b" ++ [252%N] ++ py "cher.de/".

(** A URL whose host starts with "www." twice. *)
Definition url_www_www : pystr := py "http://www.www.example.com/".




(** A place with a website. *)
Definition place_with_website (website : pystr) : pyval :=
  JObj [(py "name", JStr (py "Acme Care"));
        (py "website", JStr website);
        (py "gps_coordinates",
         JObj [(py "latitude", JNum 1 true); (py "longitude", JNum 2 true)])].

(** A network on which the maps provider answers every page with one place
    that has the given website, the search provider with one result, and
    the page fetcher with a page; every other request fails. *)
Definition shop_world (website : pystr) : World :=
  {| world := unit;
     requests_get := fun req w =>
       if str_eqb (req_url req) MAPS_URL
       then (Ok {| status_code := 200; text := [];
                   json_body := Some (JArr [place_with_website website]) |}, w)
       else if str_eqb (req_url req) SEARCH_URL
       then (Ok {| status_code := 200; text := [];
                   json_body :=
                     Some (JObj [(py "organic_results",
                                  JArr [JObj [(py "title", JStr (py "Acme Care"));
                                              (py "link", JStr (py "https://acme.example/care"));
                                              (py "snippet", JStr (py "care for mothers"))]])]) |}, w)
       else if str_eqb (req_url req) SCRAPE_URL
       then (Ok {| status_code := 200; text := py "<html></html>";
                   json_body := None |}, w)
       else (Raise RequestException, w);
     API_KEY := Some (py "key");
     GEO_MAP_API := Some (py "geokey") |}.

End Sample.

(* ===================================================================== *)
(** * Part II.  Properties                                                *)
(* ===================================================================== *)

(** ** Values and dictionaries *)

Lemma truthy_dget_lookup (d : gmap string pyval) (k : string) :
  truthy (dget d k) = true -> d !! k = Some (dget d k).
Proof.
  unfold dget. destruct (d !! k) as [v|]; simpl; [done | discriminate].
Qed.

Lemma dget_insert_eq (d : gmap string pyval) (k : string) (v : pyval) :
  dget (<[k := v]> d) k = v.
Proof. unfold dget. by rewrite lookup_insert_eq. Qed.

Lemma dget_insert_ne (d : gmap string pyval) (j k : string) (v : pyval) :
  j ≠ k -> dget (<[j := v]> d) k = dget d k.
Proof. intros Hne. unfold dget. by rewrite lookup_insert_ne. Qed.


Lemma py_or_falsy_l (a b : pyval) : truthy a = false -> py_or a b = b.
Proof. unfold py_or. by intros ->. Qed.

(** ** The Record Merger *)

Section Merge.
Context `{PyLib}.

(** What one turn of the loop leaves under its own key. *)
Lemma merge_field_same (enrich record : gmap string pyval) (k : string) :
  merge_field enrich record k !! k =
    if truthy (dget record k) then record !! k
    else if truthy (dget enrich k) then enrich !! k
    else record !! k.
Proof.
  unfold merge_field, py_or, dget.
  destruct (enrich !! k) as [v|] eqn:He; simpl.
  - destruct (truthy v) eqn:Hv.
    + rewrite lookup_insert_eq.
      destruct (record !! k) as [r|] eqn:Hr; simpl; [|done].
      by destruct (truthy r).
    + by destruct (truthy (default JNull (record !! k))).
  - by destruct (truthy (default JNull (record !! k))).
Qed.

Lemma merge_field_other (enrich record : gmap string pyval) (j k : string) :
  j ≠ k -> merge_field enrich record j !! k = record !! k.
Proof.
  intros Hne. unfold merge_field.
  destruct (enrich !! j) as [v|]; [|done].
  destruct (truthy v); [|done]. by rewrite lookup_insert_ne.
Qed.

Lemma merge_fold_other (enrich : gmap string pyval) (keys : list string)
    (record : gmap string pyval) (k : string) :
  k ∉ keys -> foldl (merge_field enrich) record keys !! k = record !! k.
Proof.
  revert record. induction keys as [|j keys IH]; intros record Hk; [done|].
  apply not_elem_of_cons in Hk as [Hne Hk].
  simpl. rewrite IH by done.
  by apply merge_field_other.
Qed.

Lemma merge_fold_same (enrich : gmap string pyval) (keys : list string)
    (record : gmap string pyval) (k : string) :
  NoDup keys -> k ∈ keys ->
  foldl (merge_field enrich) record keys !! k = merge_field enrich record k !! k.
Proof.
  revert record. induction keys as [|j keys IH]; intros record Hnd Hk.
  - by apply elem_of_nil in Hk.
  - apply NoDup_cons in Hnd as [Hj Hnd]. simpl.
    destruct (decide (k = j)) as [->|Hne].
    + by rewrite merge_fold_other.
    + apply elem_of_cons in Hk as [?|Hk]; [done|].
      rewrite IH by done.
      rewrite !merge_field_same.
      assert (Hd : dget (merge_field enrich record j) k = dget record k).
      { unfold dget. by rewrite merge_field_other. }
      rewrite Hd. rewrite merge_field_other by done. done.
Qed.

Lemma MERGE_KEYS_NoDup : NoDup MERGE_KEYS.
Proof. apply (bool_decide_unpack _). by vm_compute. Qed.

(** C1.  The Record Merger is first-non-empty-wins, field by field over the
    fixed field list.  For every base record and every enrichment output:
    under each key of the list the merged record has the value of the base
    record when that value is not null or empty (Python truth: [None], the
    empty string and the empty list are the empty values of the record's
    fields), and otherwise the value of the enrichment when that one is
    present and not empty, and otherwise what the base record had; the value
    is taken whole, and no other key is touched.  In particular a base phone
    "123" survives an enrichment phone "456", and a null base phone becomes
    "456". *)
Theorem merge_first_non_empty_wins (record enrich : gmap string pyval) :
  Forall (fun k =>
            merge_enrichment record enrich !! k =
              if truthy (dget record k) then record !! k
              else if truthy (dget enrich k) then enrich !! k
              else record !! k) MERGE_KEYS
  /\ (forall k, k ∉ MERGE_KEYS -> merge_enrichment record enrich !! k = record !! k)
  /\ (record !! "phone"%string = Some (JStr (py "123")) ->
      enrich !! "phone"%string = Some (JStr (py "456")) ->
      merge_enrichment record enrich !! "phone"%string = Some (JStr (py "123")))
  /\ (record !! "phone"%string = Some JNull ->
      enrich !! "phone"%string = Some (JStr (py "456")) ->
      merge_enrichment record enrich !! "phone"%string = Some (JStr (py "456"))).
Proof.
  assert (Hall : forall k, k ∈ MERGE_KEYS ->
            merge_enrichment record enrich !! k =
              if truthy (dget record k) then record !! k
              else if truthy (dget enrich k) then enrich !! k
              else record !! k).
  { intros k Hk. unfold merge_enrichment.
    rewrite (merge_fold_same _ _ _ _ MERGE_KEYS_NoDup Hk).
    apply merge_field_same. }
  assert (Hphone : "phone"%string ∈ MERGE_KEYS).
  { apply (bool_decide_unpack _). by vm_compute. }
  split; [by apply Forall_forall|].
  split; [intros k Hk; by apply merge_fold_other|].
  split; intros Hr He; rewrite (Hall _ Hphone); unfold dget; rewrite Hr, He; done.
Qed.

End Merge.

Lemma merge_first_non_empty_wins_witness :
  merge_enrichment Sample.record_phone_123 Sample.enrich_phone_456 !! "phone"%string
  = Some (JStr (py "123")).
Proof.
  apply (proj1 (proj2 (proj2
           (merge_first_non_empty_wins Sample.record_phone_123
                                       Sample.enrich_phone_456))));
    apply lookup_insert_eq.
Defined.

(** ** Runs with no page to fetch *)

Section PageZero.
Context `{PyLib} `{World}.

Lemma get_lat_lng_state (place : pyval) (key : option pystr) (w : world)
    (log : list Request) :
  exists r w' req,
    get_lat_lng place key (w, log) = (r, (w', log ++ [req]))
    /\ req_url req = GEO_URL.
Proof.
  unfold get_lat_lng, mbind, M_bind, http_get, lift, mret, M_ret.
  destruct (requests_get _ w) as [[resp|e] w']; simpl; [|eauto 6].
  destruct (raise_for_status resp); simpl; [|eauto 6].
  destruct (response_json resp) as [data|]; simpl; [|eauto 6].
  destruct (truthy data); simpl; [|eauto 6].
  destruct (py_index0 data) as [d0|]; simpl; [|eauto 6].
  destruct (py_item d0 "lat"); simpl; [|eauto 6].
  destruct (py_item d0 "lon"); simpl; eauto 6.
Qed.

(** With no page to fetch the maps source makes at most the geocoding
    request and finds nothing. *)
Lemma discover_maps_page_zero (query ll : pystr) (w : world) (log : list Request) :
  exists w' geo,
    discover_maps query ll 0 (w, log) = (Ok [], (w', log ++ geo))
    /\ Forall (fun r => req_url r = GEO_URL) geo.
Proof.
  unfold discover_maps.
  unfold mbind at 1. unfold M_bind, try_except at 1.
  unfold mbind at 1. unfold M_bind, lift at 1.
  destruct (parse_address query) as [parsed|e]; simpl.
  - destruct (get_lat_lng_state
                (py_or (py_or (dget (extract_components parsed) "country")
                              (dget (extract_components parsed) "state"))
                       (JStr (py "malaysia"))) GEO_MAP_API w log)
      as (r & w' & req & -> & Hreq).
    exists w', [req]. destruct r; simpl; split; try done; by constructor.
  - exists w, []. rewrite app_nil_r. by split.
Qed.

Lemma sources_loop_page_zero (query ll : pystr) (source_order : list pystr)
    (w : world) (log : list Request) :
  exists w' geo,
    sources_loop query ll 0 source_order [] (w, log) = (Ok [], (w', log ++ geo))
    /\ Forall (fun r => req_url r = GEO_URL) geo.
Proof.
  revert w log. induction source_order as [|src rest IH]; intros w log.
  - exists w, []. rewrite app_nil_r. by split.
  - simpl. destruct (str_eqb src (py "maps")).
    + destruct (discover_maps_page_zero query ll w log) as (w1 & g1 & E1 & F1).
      destruct (IH w1 (log ++ g1)) as (w2 & g2 & E2 & F2).
      exists w2, (g1 ++ g2).
      unfold mbind, M_bind. rewrite E1. simpl. rewrite E2.
      rewrite app_assoc. split; [done | by apply Forall_app].
    + apply IH.
Qed.

Lemma GEO_URL_not_MAPS_URL : GEO_URL ≠ MAPS_URL.
Proof. by vm_compute. Qed.

(** C10.  With a configured API key and a query that is not empty,
    [scrape_businesses] with [page = 0] requests no map page (the only
    requests it makes go to the geocoder), collects no discovery item and
    returns the empty list; the web route calls it this way when
    [page_count] has its default. *)
Theorem page_zero_returns_empty (query country : pystr)
    (keywords : option (list pystr)) (fetch : pystr) (dynamic : bool)
    (source ll : pystr) (w : world) (log : list Request) :
  key_missing API_KEY = false ->
  query ≠ [] ->
  (exists w' geo,
      scrape_businesses query country keywords fetch dynamic source ll 0 (w, log)
        = (Ok [], (w', log ++ geo))
      /\ Forall (fun r => req_url r = GEO_URL) geo
      /\ Forall (fun r => req_url r ≠ MAPS_URL) geo)
  /\ (exists w' geo,
        sources_loop query ll 0
          (if str_eqb source (py "all") then [py "search"; py "maps"] else [source])
          [] (w, log) = (Ok [], (w', log ++ geo)))
  /\ (exists w' geo,
        read_root_data query DEFAULT_PAGE_COUNT (w, log) = (Ok [], (w', log ++ geo))
        /\ Forall (fun r => req_url r ≠ MAPS_URL) geo).
Proof.
  intros Hkey Hq.
  assert (Hrun : forall country keywords fetch dynamic source ll,
    exists w' geo,
      scrape_businesses query country keywords fetch dynamic source ll 0 (w, log)
        = (Ok [], (w', log ++ geo))
      /\ Forall (fun r => req_url r = GEO_URL) geo
      /\ Forall (fun r => req_url r ≠ MAPS_URL) geo).
  { clear country keywords fetch dynamic source ll.
    intros country keywords fetch dynamic source ll.
    unfold scrape_businesses. rewrite Hkey.
    destruct query as [|c q]; [done|].
    destruct (sources_loop_page_zero (c :: q) ll
                (if str_eqb source (py "all") then [py "search"; py "maps"]
                 else [source]) w log) as (w' & geo & E & F).
    exists w', geo. unfold mbind, M_bind. rewrite E. simpl.
    split; [done|]. split; [done|].
    eapply Forall_impl; [exact F|]. intros r ->. apply GEO_URL_not_MAPS_URL. }
  split; [apply Hrun|].
  split.
  - destruct (sources_loop_page_zero query ll
                (if str_eqb source (py "all") then [py "search"; py "maps"]
                 else [source]) w log) as (w' & geo & E & _).
    by exists w', geo.
  - unfold read_root_data, DEFAULT_PAGE_COUNT.
    destruct (Hrun [] None (py "api") false (py "all") DEFAULT_LL)
      as (w' & geo & E & _ & F).
    by exists w', geo.
Qed.

End PageZero.

Lemma page_zero_returns_empty_witness :
  exists w' geo,
    @scrape_businesses Sample.plain_lib Sample.silent_world
       (py "clinic") [] None (py "api") false (py "all") DEFAULT_LL 0 (tt, [])
      = (Ok [], (w', [] ++ geo))
    /\ Forall (fun r => req_url r = GEO_URL) geo
    /\ Forall (fun r => req_url r ≠ MAPS_URL) geo.
Proof.
  apply (proj1 (@page_zero_returns_empty Sample.plain_lib Sample.silent_world
                  (py "clinic") [] None (py "api") false (py "all") DEFAULT_LL
                  tt [] eq_refl ltac:(discriminate))).
Defined.

(** ** Keeping the first item of every key *)

Lemma py_key_eqb_str (a b : pystr) :
  py_key_eqb (JStr a) (JStr b) = bool_decide (a = b).
Proof. done. Qed.

Lemma py_key_eqb_str_sym (a : pystr) (v : pyval) :
  text_or_null v = true -> py_key_eqb (JStr a) v = py_key_eqb v (JStr a).
Proof.
  destruct v; try done. intros _. rewrite !py_key_eqb_str.
  apply bool_decide_ext. split; congruence.
Qed.

Section FirstPerKey.
Context {A : Type} (key : A -> pyval) (keep_null : bool).

Lemma first_per_key_sublist (seen : list pyval) (l : list A) :
  sublist (first_per_key key keep_null seen l) l.
Proof.
  revert seen. induction l as [|x r IH]; intros seen; simpl; [done|].
  destruct (truthy (key x)).
  - destruct (negb (set_mem (key x) seen)); [by apply sublist_skip | by apply sublist_cons].
  - destruct (keep_null && is_none (key x)); [by apply sublist_skip | by apply sublist_cons].
Qed.

(** Of the items with a given text key, the first is kept unless the key was
    seen before. *)
Lemma first_per_key_text (k : pystr) (seen : list pyval) (l : list A) :
  k ≠ [] ->
  Forall (fun x => text_or_null (key x) = true) l ->
  Forall (fun v => text_or_null v = true) seen ->
  List.filter (keyed key (JStr k)) (first_per_key key keep_null seen l) =
    if set_mem (JStr k) seen then []
    else take 1 (List.filter (keyed key (JStr k)) l).
Proof.
  intros Hk Hl. revert seen.
  induction Hl as [|x r Hx Hr IH]; intros seen Hseen; simpl.
  - by destruct (set_mem (JStr k) seen).
  - unfold keyed at 2. destruct (key x) as [| | |s| |] eqn:Ekx; try done; simpl.
    + (* no key *)
      destruct keep_null; simpl.
      * unfold keyed at 1. rewrite Ekx. simpl. by apply IH.
      * by apply IH.
    + destruct s as [|c s]; simpl.
      * (* the empty key *)
        rewrite andb_false_r. rewrite IH by done.
        unfold str_eqb. rewrite bool_decide_eq_false_2 by congruence. done.
      * destruct (set_mem (JStr (c :: s)) seen) eqn:Hmem; simpl.
        -- rewrite IH by done. unfold str_eqb.
           case_bool_decide as Heq; [|done].
           subst k. by rewrite Hmem.
        -- unfold keyed at 1. rewrite Ekx. simpl.
           assert (Hs : Forall (fun v => text_or_null v = true) (JStr (c :: s) :: seen))
             by (by constructor).
           rewrite (IH _ Hs). simpl. unfold str_eqb.
           case_bool_decide as Heq.
           ++ subst k. rewrite bool_decide_eq_true_2 by done. simpl. by rewrite Hmem.
           ++ rewrite bool_decide_eq_false_2 by congruence. done.
Qed.

Lemma first_per_key_null (seen : list pyval) (l : list A) :
  keep_null = true ->
  List.filter (fun x => is_none (key x)) (first_per_key key keep_null seen l) =
    List.filter (fun x => is_none (key x)) l.
Proof.
  intros ->. revert seen. induction l as [|x r IH]; intros seen; [done|].
  cbn [first_per_key List.filter andb].
  destruct (is_none (key x)) eqn:Hn.
  - destruct (key x) eqn:Ekx; try discriminate. cbn [truthy List.filter].
    rewrite Ekx. cbn [is_none]. by rewrite IH.
  - destruct (truthy (key x)); [|by apply IH].
    destruct (negb (set_mem (key x) seen)); [|by apply IH].
    cbn [List.filter]. rewrite Hn. by apply IH.
Qed.

Lemma first_per_key_truthy (seen : list pyval) (l : list A) :
  keep_null = false ->
  Forall (fun x => truthy (key x) = true) (first_per_key key keep_null seen l).
Proof.
  intros ->. revert seen. induction l as [|x r IH]; intros seen; simpl; [done|].
  destruct (truthy (key x)) eqn:Ht; simpl; [|done].
  destruct (set_mem (key x) seen); simpl; [done|]. by constructor.
Qed.

End FirstPerKey.

Section Dedup.
Context `{PyLib}.

Lemma normalize_url_text (v : pyval) :
  text_or_null v = true -> text_or_null (normalize_url v) = true.
Proof.
  destruct v; try done. unfold normalize_url. by destruct (negb (truthy (JStr s))).
Qed.

Lemma text_hashable (v : pyval) : text_or_null v = true -> hashable v = true.
Proof. by destruct v. Qed.

Lemma link_key_text (r : pyval) :
  result_has_text_link r = true -> text_or_null (link_key r) = true.
Proof.
  unfold result_has_text_link. intros [_ Ht]%andb_prop.
  by apply normalize_url_text.
Qed.

Lemma py_get_field (r : pyval) (k : string) :
  is_dict r = true -> py_get r k = Ok (field r k).
Proof. by destruct r. Qed.

(** On well-formed results the loop of [clean_results] raises nothing and
    keeps the first result of every link. *)
Lemma clean_results_loop_pure (seen : list pyval) (results : list pyval) :
  Forall (fun r => result_has_text_link r = true) results ->
  clean_results_loop seen results = Ok (first_per_key link_key false seen results).
Proof.
  intros Hl. revert seen. induction Hl as [|r rest Hr _ IH]; intros seen; [done|].
  pose proof (link_key_text _ Hr) as Ht.
  apply andb_prop in Hr as [Hd _].
  cbn [clean_results_loop first_per_key andb].
  rewrite (py_get_field _ _ Hd). cbn [mbind result_bind].
  fold (link_key r).
  destruct (truthy (link_key r)); [|apply IH].
  rewrite (text_hashable _ Ht).
  destruct (negb (set_mem (link_key r) seen)); [|apply IH].
  by rewrite IH.
Qed.

(** C9 (amended).  For every list of search results that are objects with a
    str link or none, the clean pass raises nothing and returns a part of
    the list in input order.  The key of a result is its normalized link.
    No result is kept whose key is null or the empty string: these are the
    results whose link is missing or empty, and those whose link, like
    "////", is normalized to the empty string.  Of the results with one and
    the same key that is not empty, exactly the first is kept.  So a result
    is removed when its key is null or empty or repeats the key of an
    earlier result, and is kept otherwise. *)
Theorem clean_results_keeps_first_per_link (results : list pyval) :
  Forall (fun r => result_has_text_link r = true) results ->
  exists cleaned,
    clean_results (JArr results) = Ok cleaned
    /\ sublist cleaned results
    /\ (forall k, k ≠ [] ->
          List.filter (keyed link_key (JStr k)) cleaned
          = take 1 (List.filter (keyed link_key (JStr k)) results))
    /\ Forall (fun r => exists k, link_key r = JStr k /\ k ≠ []) cleaned
    /\ Forall (fun r => link_key r = JNull \/ exists k, link_key r = JStr k)
               results.
Proof.
  intros Hwf. exists (first_per_key link_key false [] results).
  assert (Forall (fun r => text_or_null (link_key r) = true) results) as Htext.
  { eapply Forall_impl; [exact Hwf|]. apply link_key_text. }
  split; [by apply clean_results_loop_pure|].
  split; [apply first_per_key_sublist|].
  split; [|split].
  - intros k Hk.
    by rewrite (first_per_key_text link_key false k [] results Hk).
  - pose proof (first_per_key_truthy link_key false [] results eq_refl) as Ht.
    pose proof (first_per_key_sublist link_key false [] results) as Hsub.
    apply Forall_forall. intros r Hr.
    rewrite Forall_forall in Ht, Htext.
    specialize (Ht r Hr). specialize (Htext r (elem_of_sublist _ _ _ Hr Hsub)).
    destruct (link_key r) as [| | |k| |]; try done.
    exists k. split; [done|]. by destruct k.
  - eapply Forall_impl; [exact Htext|]. intros r Hr.
    cbn beta in Hr.
    destruct (link_key r) as [| | |k| |];
      [by left|done|done|right; by exists k|done|done].
Qed.

Lemma dedupe_key_text (t : pystr * pyval) :
  item_has_text_url t = true -> text_or_null (dedupe_key t) = true.
Proof.
  unfold item_has_text_url, dedupe_key. intros [_ Ht]%andb_prop.
  destruct (truthy (item_url (snd t))); [|done].
  by apply normalize_url_text.
Qed.

Lemma url_for_dedupe_key (t : pystr * pyval) :
  is_dict (snd t) = true -> url_for_dedupe (snd t) = Ok (dedupe_key t).
Proof.
  intros Hd. unfold url_for_dedupe. rewrite !(py_get_field _ _ Hd). done.
Qed.

(** On well-formed items the loop of the cross-source deduplication raises
    nothing; it keeps the first item of every key and every item without
    one. *)
Lemma dedupe_loop_pure (seen : list pyval) (tagged : list (pystr * pyval)) :
  Forall (fun t => item_has_text_url t = true) tagged ->
  dedupe_loop seen tagged = Ok (first_per_key dedupe_key true seen tagged).
Proof.
  intros Hl. revert seen. induction Hl as [|[src r] rest Hr _ IH]; intros seen; [done|].
  pose proof (dedupe_key_text _ Hr) as Ht.
  apply andb_prop in Hr as [Hd _].
  cbn [dedupe_loop first_per_key andb].
  pose proof (url_for_dedupe_key (src, r) Hd) as E. cbn [snd] in E.
  rewrite E. cbn [mbind result_bind].
  destruct (truthy (dedupe_key (src, r))).
  - rewrite (text_hashable _ Ht).
    destruct (negb (set_mem (dedupe_key (src, r)) seen)); [|apply IH].
    by rewrite IH.
  - destruct (is_none (dedupe_key (src, r))); [|apply IH].
    by rewrite IH.
Qed.

(** What the cross-source deduplication does on a list of tagged discovery
    items that are objects whose URL (website, else website_url, else link)
    is a str when there is one: the key of an item is the normalized URL, or
    null when the item has no URL; the deduplication raises nothing,
    preserves the input order, keeps of the items that share a key that is
    not the empty string exactly the first, and keeps every item with no
    URL. *)
Theorem dedupe_keeps_first_per_key (tagged : list (pystr * pyval)) :
  Forall (fun t => item_has_text_url t = true) tagged ->
  exists kept,
    dedupe tagged = Ok kept
    /\ Forall (fun t => url_for_dedupe (snd t) = Ok (dedupe_key t)) tagged
    /\ sublist kept tagged
    /\ (forall k, k ≠ [] ->
          List.filter (keyed dedupe_key (JStr k)) kept
          = take 1 (List.filter (keyed dedupe_key (JStr k)) tagged))
    /\ List.filter (fun t => is_none (dedupe_key t)) kept
       = List.filter (fun t => is_none (dedupe_key t)) tagged.
Proof.
  intros Hwf. exists (first_per_key dedupe_key true [] tagged).
  split; [by apply dedupe_loop_pure|].
  split.
  { eapply Forall_impl; [exact Hwf|]. intros t [Hd _]%andb_prop.
    by apply url_for_dedupe_key. }
  split; [apply first_per_key_sublist|].
  split; [|by apply first_per_key_null].
  intros k Hk.
  rewrite (first_per_key_text dedupe_key true k [] tagged Hk); [done| |done].
  eapply Forall_impl; [exact Hwf|]. apply dedupe_key_text.
Qed.

End Dedup.

(** C9, as stated, fails: a result without a link, and a result whose link
    is normalized to the empty string, repeat no earlier result, and the
    clean pass removes them. *)
Lemma clean_results_drops_result_without_link :
  @clean_results Sample.plain_lib (JArr [Sample.result_without_link]) = Ok []
  /\ @link_key Sample.plain_lib Sample.result_slashes = JStr []
  /\ @clean_results Sample.plain_lib (JArr [Sample.result_slashes]) = Ok [].
Proof. repeat split; reflexivity. Qed.

Lemma clean_results_keeps_first_per_link_witness :
  exists cleaned,
    @clean_results Sample.plain_lib
      (JArr [snd Sample.item_b; Sample.result_without_link;
             Sample.result_slashes; snd Sample.item_b])
    = Ok cleaned
    /\ sublist cleaned [snd Sample.item_b; Sample.result_without_link;
                        Sample.result_slashes; snd Sample.item_b]
    /\ List.filter (keyed (@link_key Sample.plain_lib) (JStr (py "https://acme.com/")))
                   cleaned
       = [snd Sample.item_b]
    /\ Forall (fun r => exists k, @link_key Sample.plain_lib r = JStr k /\ k ≠ [])
               cleaned.
Proof.
  destruct (@clean_results_keeps_first_per_link Sample.plain_lib
              [snd Sample.item_b; Sample.result_without_link;
               Sample.result_slashes; snd Sample.item_b])
    as (cleaned & E & S & K & T & _).
  - repeat constructor.
  - exists cleaned. repeat split; [done|done| |done].
    by rewrite (K (py "https://acme.com/")).
Defined.

(** C6, at the failing input.  The key of an item whose website is four
    slashes is the empty string.  The loop keeps an item when its key is
    true and new, or when its key is [None]; the empty string is neither, so
    the item is removed although no other item has its key: of the items
    with this key none survives, where the claim keeps exactly the first.
    An item with no URL at all is kept. *)
Lemma dedupe_drops_item_with_empty_key :
  @url_for_dedupe Sample.plain_lib (snd Sample.item_slashes) = Ok (JStr [])
  /\ @dedupe Sample.plain_lib [Sample.item_slashes] = Ok []
  /\ @dedupe Sample.plain_lib [Sample.item_a; Sample.item_slashes; Sample.item_c]
     = Ok [Sample.item_a; Sample.item_c].
Proof. repeat split; reflexivity. Qed.

Lemma dedupe_keeps_first_per_key_witness :
  exists kept,
    @dedupe Sample.plain_lib [Sample.item_a; Sample.item_c; Sample.item_b; Sample.item_c]
    = Ok kept
    /\ sublist kept [Sample.item_a; Sample.item_c; Sample.item_b; Sample.item_c].
Proof.
  destruct (@dedupe_keeps_first_per_key Sample.plain_lib
              [Sample.item_a; Sample.item_c; Sample.item_b; Sample.item_c])
    as (kept & E & _ & S & _).
  - repeat constructor.
  - exists kept. auto.
Defined.

(** ** The JSON-LD pass *)

Section JsonLd.
Context `{PyLib}.

Lemma ld_bind_snd {A B} (m : LD A) (f : A -> LD B) (out : gmap string pyval) :
  snd ((m ≫= f) out) =
    match m out with
    | (Ok a, o) => snd (f a o)
    | (Raise _, o) => o
    end.
Proof. unfold mbind, M_bind. by destruct (m out) as [[a|e] o]. Qed.

Lemma ld_keeps_ret {A} (k : string) (a : A) : ld_keeps k (mret a : LD A).
Proof. by intros out. Qed.

Lemma ld_keeps_lift {A} (k : string) (r : result A) :
  ld_keeps k (lift r : LD A).
Proof. by intros out. Qed.

Lemma ld_keeps_read (k j : string) : ld_keeps k (ld_read j).
Proof. by intros out. Qed.

Lemma ld_keeps_write (k j : string) (v : pyval) :
  k ≠ j -> ld_keeps k (ld_write j v).
Proof. intros Hne out. simpl. apply dget_insert_ne. congruence. Qed.

Lemma ld_keeps_bind {A B} (k : string) (m : LD A) (f : A -> LD B) :
  ld_keeps k m -> (forall a, ld_keeps k (f a)) -> ld_keeps k (m ≫= f).
Proof.
  intros Hm Hf out. rewrite ld_bind_snd. specialize (Hm out).
  destruct (m out) as [[a|e] o]; simpl in *; [|done].
  by rewrite Hf.
Qed.



Lemma ld_keeps_take (k j : string) (vals : list pyval) :
  k ≠ j -> ld_keeps k (ld_take j vals).
Proof.
  intros Hne. apply ld_keeps_bind; [apply ld_keeps_read|].
  intros old. by apply ld_keeps_write.
Qed.

Lemma ld_keeps_when (k : string) (b : bool) (m : LD unit) :
  ld_keeps k m -> ld_keeps k (ld_when b m).
Proof. intros Hm. destruct b; [done | apply ld_keeps_ret]. Qed.

(** Frame reasoning over the statements of the loop. *)
Ltac ld_frame :=
  repeat lazymatch goal with
         | |- ld_keeps _ (match ?x with _ => _ end) => destruct x
         | |- ld_keeps _ (mbind _ _) => apply ld_keeps_bind; [|intros ?]
         | |- ld_keeps _ (mret _) => apply ld_keeps_ret
         | |- ld_keeps _ (lift _) => apply ld_keeps_lift
         | |- ld_keeps _ (ld_read _) => apply ld_keeps_read
         | |- ld_keeps _ (ld_write _ _) => apply ld_keeps_write; assumption
         | |- ld_keeps _ (ld_take _ _) => apply ld_keeps_take; assumption
         | |- ld_keeps _ (ld_when _ _) => apply ld_keeps_when
         end.

Lemma ld_name_keeps (k : string) (obj : pyval) :
  k ≠ "center_name"%string -> ld_keeps k (ld_name obj).
Proof. intros Hk. unfold ld_name. ld_frame. Qed.


Lemma ld_address_keeps (k : string) (obj : pyval) :
  k ∉ ["address"; "city"; "state"; "country"; "zipcode"]%string ->
  ld_keeps k (ld_address obj).
Proof.
  intros Hk. unfold ld_address.
  repeat (apply not_elem_of_cons in Hk as [? Hk]).
  ld_frame.
Qed.

Lemma ld_contact_keeps (k : string) (obj : pyval) :
  k ∉ ["phone"; "websiteurl"]%string -> ld_keeps k (ld_contact obj).
Proof.
  intros Hk. unfold ld_contact.
  repeat (apply not_elem_of_cons in Hk as [? Hk]).
  ld_frame.
Qed.

Lemma ld_social_keeps (k : string) (social : gmap string pyval) :
  k ∉ SOCIAL_KEYS -> ld_keeps k (ld_social social).
Proof.
  intros Hk. unfold ld_social.
  induction SOCIAL_KEYS as [|j keys IH]; simpl; [apply ld_keeps_ret|].
  apply not_elem_of_cons in Hk as [Hne Hk].
  apply ld_keeps_bind; [apply ld_keeps_read|]. intros old.
  apply ld_keeps_bind; [by apply ld_keeps_write|]. intros _. by apply IH.
Qed.




Lemma ld_links_keeps (k : string) (obj : pyval) :
  k ∉ ("email" :: SOCIAL_KEYS)%string -> ld_keeps k (ld_links obj).
Proof.
  intros [Hne Hk]%not_elem_of_cons. unfold ld_links.
  apply ld_keeps_bind; [apply ld_keeps_lift|]. intros link.
  apply ld_keeps_bind; [apply ld_keeps_lift|]. intros email.
  apply ld_keeps_bind; [by apply ld_keeps_take|]. intros _.
  by apply ld_social_keeps.
Qed.






















End JsonLd.



(** ** Text *)

Lemma dropwhile_app_last (p : char -> bool) (l : pystr) (x : char) :
  dropwhile p (l ++ [x]) =
    if forallb p l then (if p x then [] else [x]) else dropwhile p l ++ [x].
Proof.
  induction l as [|y l IH]; simpl; [done|].
  destruct (p y); simpl; [done|]. done.
Qed.

Lemma rstrip_by_cons (p : char -> bool) (x : char) (r : pystr) :
  rstrip_by p (x :: r) =
    match rstrip_by p r with
    | [] => if p x then [] else [x]
    | r' => x :: r'
    end.
Proof.
  unfold rstrip_by. simpl.
  induction (rev r) as [|y l IH]; simpl; [by destruct (p x)|].
  destruct (p y) eqn:Hy; simpl.
  - rewrite IH. done.
  - rewrite rev_app_distr. simpl. destruct (rev l ++ [y]) eqn:E; [|done].
    by destruct (rev l).
Qed.

Lemma rstrip_by_nil (p : char -> bool) : rstrip_by p [] = [].
Proof. done. Qed.

Lemma rstrip_by_idemp (p : char -> bool) (s : pystr) :
  rstrip_by p (rstrip_by p s) = rstrip_by p s.
Proof.
  unfold rstrip_by. rewrite rev_involutive. f_equal.
  induction (rev s) as [|y l IH]; simpl; [done|].
  destruct (p y) eqn:Hy; simpl; [done|]. by rewrite Hy.
Qed.

Lemma lstrip_rstrip_comm (p : char -> bool) (s : pystr) :
  lstrip_by p (rstrip_by p s) = rstrip_by p (lstrip_by p s).
Proof.
  unfold lstrip_by. induction s as [|x r IH]; [done|].
  rewrite rstrip_by_cons. simpl. destruct (p x) eqn:Hx.
  - destruct (rstrip_by p r) as [|y r'] eqn:E.
    + rewrite <- IH. done.
    + rewrite <- IH. simpl. by rewrite Hx.
  - rewrite rstrip_by_cons.
    destruct (rstrip_by p r); simpl; by rewrite Hx.
Qed.

Lemma strip_rstrip (s : pystr) : strip (rstrip_by is_space s) = strip s.
Proof.
  unfold strip. rewrite lstrip_rstrip_comm. apply rstrip_by_idemp.
Qed.

Lemma has_char_app (c : char) (a b : pystr) :
  has_char c (a ++ b) = has_char c a || has_char c b.
Proof. apply existsb_app. Qed.

Lemma replace_char_absent (c d : char) (s : pystr) :
  forallb (fun x => negb (x =? c)%N) s = true -> replace_char c d s = s.
Proof.
  unfold replace_char. induction s as [|x r IH]; simpl; [done|].
  intros [Hx Hr]%andb_prop. rewrite IH by done.
  by destruct (x =? c)%N.
Qed.

Lemma replace_char_app (c d : char) (a b : pystr) (x : char) :
  replace_char c d (a ++ x :: b) =
    replace_char c d a ++ (if (x =? c)%N then d else x) :: replace_char c d b.
Proof. unfold replace_char. by rewrite map_app. Qed.

Lemma span_all (p : char -> bool) (s : pystr) :
  forallb p s = true -> span p s = (s, []).
Proof.
  induction s as [|x r IH]; simpl; [done|].
  intros [-> Hr]%andb_prop. by rewrite IH.
Qed.

Lemma span_stop (p : char -> bool) (a b : pystr) (x : char) :
  forallb p a = true -> p x = false -> span p (a ++ x :: b) = (a, x :: b).
Proof.
  intros Ha Hx. induction a as [|y a IH]; simpl.
  - by rewrite Hx.
  - simpl in Ha. apply andb_prop in Ha as [-> Ha]. by rewrite IH.
Qed.

(** ** Title cleaning *)

Section TitleCleaning.
Context `{PyLib}.

(** The two outcomes of [clean_business_name] for the part [head] of the
    title that is kept. *)
Lemma clean_business_name_kept (s head : pystr) (url : pyval) :
  strip (split_title_head (replace_char c_endash c_hyphen (html_unescape s)))
  = strip head ->
  clean_business_name (JStr s) url =
    if (length (strip head) <? 3)%nat || str_in (lower (strip head)) generic_words
    then Ok (domain_to_name url)
    else Ok (collapse_ws false (strip head)).
Proof.
  intros Hhead. unfold clean_business_name.
  destruct s as [|c s].
  - (* no title: the unescaped title is empty as well *)
    cbn [truthy negb]. revert Hhead. unfold html_unescape. cbn.
    intros <-. done.
  - cbn [truthy negb]. by rewrite Hhead.
Qed.

(** C7 (amended).  [clean_business_name] works on the title as
    [html.unescape] returns it, with every en dash made a hyphen, and cuts
    it at its first hyphen or bar, with or without white space around it:
    what stands before that character is kept, what follows does not count,
    and a title without hyphen and bar is kept whole.  When the part that is
    kept, trimmed, has less than 3 characters or is one of about, services,
    home, faq and contact in any case, the name derived from the domain of
    the URL is returned, and otherwise that part, trimmed, with every run of
    white space made one space.  So "Acme Care - Home | Best in KL" gives
    "Acme Care" for every URL, and "Home" with "https://my-clinic.com" gives
    "My Clinic". *)
Theorem clean_business_name_cuts_at_first_separator (s : pystr) (url : pyval) :
  let t := replace_char c_endash c_hyphen (html_unescape s) in
  (forall a b sep,
      t = a ++ sep :: b ->
      forallb (fun c => negb (is_title_sep c)) a = true ->
      is_title_sep sep = true ->
      clean_business_name (JStr s) url =
        if (length (strip a) <? 3)%nat || str_in (lower (strip a)) generic_words
        then Ok (domain_to_name url)
        else Ok (collapse_ws false (strip a)))
  /\ (forallb (fun c => negb (is_title_sep c)) t = true ->
      clean_business_name (JStr s) url =
        if (length (strip t) <? 3)%nat || str_in (lower (strip t)) generic_words
        then Ok (domain_to_name url)
        else Ok (collapse_ws false (strip t)))
  /\ clean_business_name (JStr (py "Acme Care - Home | Best in KL")) url
     = Ok (py "Acme Care")
  /\ clean_business_name (JStr (py "Home")) (JStr (py "https://my-clinic.com"))
     = Ok (py "My Clinic").
Proof.
  intros t. split; [|split; [|split]].
  - intros a b sep Ht Ha Hsep. apply clean_business_name_kept.
    fold t. rewrite Ht. unfold split_title_head.
    rewrite (span_stop _ a _ _ Ha) by (by rewrite Hsep).
    apply strip_rstrip.
  - intros Ht. apply clean_business_name_kept.
    fold t. unfold split_title_head. by rewrite (span_all _ _ Ht).
  - unfold clean_business_name. by vm_compute.
  - by vm_compute.
Qed.

End TitleCleaning.

(** C7, as stated, fails: "Wal-Mart" has none of the three separators of the
    claim, is longer than 3 characters and is no generic word, and yet it is
    cut at the hyphen. *)
Lemma clean_business_name_cuts_at_bare_hyphen :
  @clean_business_name Sample.plain_lib (JStr (py "Wal-Mart"))
     (JStr (py "https://walmart.com")) = Ok (py "Wal").
Proof. by vm_compute. Qed.

Lemma clean_business_name_cuts_at_first_separator_witness :
  @clean_business_name Sample.plain_lib (JStr (py "Tom & Jerry - Home")) JNull
  = Ok (py "Tom & Jerry").
Proof.
  rewrite (proj1 (@clean_business_name_cuts_at_first_separator Sample.plain_lib
                    (py "Tom & Jerry - Home") JNull)
                 (py "Tom & Jerry ") (py " Home") c_hyphen);
    by vm_compute.
Defined.

(** ** The Discovery Aggregator *)

Section Aggregator.
Context `{PyLib}.







End Aggregator.

Section MapsAggregator.
Context `{PyLib} `{World}.






End MapsAggregator.



(** ** A search that fails *)

(** C8, at the failing input.  The key is configured, the query is not
    empty, one page of maps results is asked for and has one place, and every
    request of the search collaborator fails.  [get_google_search_results]
    makes its three attempts and returns the empty list, as the claim says;
    [search_filtered] is then read without ever having been assigned, and
    [scrape_businesses] raises instead of returning a list. *)
Lemma scrape_businesses_raises_when_search_fails :
  fst (@get_google_search_results Sample.search_down_world (py "Acme Care") 11
         JNull (tt, []))
    = Ok (JArr [])
  /\ length (snd (snd (@get_google_search_results Sample.search_down_world
                         (py "Acme Care") 11 JNull (tt, [])))) = 3
  /\ fst (@scrape_businesses Sample.plain_lib Sample.search_down_world
            (py "clinic") [] None (py "api") false (py "all") DEFAULT_LL 1
            (tt, []))
     = Raise UnboundLocalError.
Proof. repeat split; by vm_compute. Qed.

(** ** UTF-8 and percent-encoding *)

Ltac bool_to_prop :=
  repeat match goal with
         | H : (_ && _) = true |- _ => apply andb_prop in H as [? ?]
         | H : (_ || _) = false |- _ => apply orb_false_elim in H as [? ?]
         | H : negb _ = true |- _ => apply negb_true_iff in H
         | H : negb _ = false |- _ => apply negb_false_iff in H
         | H : (_ <? _)%N = true |- _ => apply N.ltb_lt in H
         | H : (_ <? _)%N = false |- _ => apply N.ltb_ge in H
         | H : (_ <=? _)%N = true |- _ => apply N.leb_le in H
         | H : (_ <=? _)%N = false |- _ => apply N.leb_gt in H
         | H : (_ =? _)%N = true |- _ => apply N.eqb_eq in H
         | H : (_ =? _)%N = false |- _ => apply N.eqb_neq in H
         end.

(** Decide the comparisons of the goal by linear arithmetic. *)
Ltac cmp_true b := replace b with true by (symmetry; first
  [ apply N.ltb_lt | apply N.leb_le | apply N.eqb_eq ]; lia).
Ltac cmp_false b := replace b with false by (symmetry; first
  [ apply N.ltb_ge | apply N.leb_gt | apply N.eqb_neq ]; lia).
Ltac cmp_goal :=
  repeat match goal with
         | |- context [(?a <? ?b)%N] =>
             first [cmp_true (a <? b)%N | cmp_false (a <? b)%N]
         | |- context [(?a <=? ?b)%N] =>
             first [cmp_true (a <=? b)%N | cmp_false (a <=? b)%N]
         | |- context [(?a =? ?b)%N] =>
             first [cmp_true (a =? b)%N | cmp_false (a =? b)%N]
         end.

(** The digits of [c] in base 64. *)
Lemma base64_digits (c : N) :
  exists q1 r0 q2 r1 q3 r2 : N,
    (c / 64 = q1 /\ c mod 64 = r0 /\ c / 4096 = q2 /\ (c / 64) mod 64 = r1
     /\ c / 262144 = q3 /\ (c / 4096) mod 64 = r2
     /\ c = 64 * q1 + r0 /\ r0 < 64 /\ q1 = 64 * q2 + r1 /\ r1 < 64
     /\ q2 = 64 * q3 + r2 /\ r2 < 64)%N.
Proof.
  exists (c / 64)%N, (c mod 64)%N, (c / 4096)%N, ((c / 64) mod 64)%N,
         (c / 262144)%N, ((c / 4096) mod 64)%N.
  assert (H1 : (c / 4096 = c / 64 / 64)%N) by (by rewrite N.Div0.div_div).
  assert (H2 : (c / 262144 = c / 4096 / 64)%N) by (by rewrite N.Div0.div_div).
  repeat split.
  - apply N.div_mod'.
  - by apply N.mod_lt.
  - rewrite H1. apply N.div_mod'.
  - by apply N.mod_lt.
  - rewrite H2. apply N.div_mod'.
  - by apply N.mod_lt.
Qed.

Ltac utf8_tests :=
  repeat (progress (unfold in_range, is_cont; cmp_goal; cbn [andb negb])).

(** One step of the decoder, without touching what follows. *)
Ltac utf8_step :=
  cbn [app];
  match goal with
  | |- utf8_decode (_ :: ?t) = _ =>
      let tl := fresh "tl" in
      remember t as tl eqn:Etl; cbn [utf8_decode]; subst tl; cbv beta match
  end.

(** Decoding undoes the encoding of one character. *)
Lemma utf8_decode_char (c : char) (e rest : list N) :
  utf8_encode_char c = Some e -> utf8_decode (e ++ rest) = c :: utf8_decode rest.
Proof.
  unfold utf8_encode_char, in_range.
  destruct (base64_digits c)
    as (q1 & r0 & q2 & r1 & q3 & r2 & -> & -> & -> & -> & -> & ->
        & Hc & Hr0 & Hq1 & Hr1 & Hq2 & Hr2).
  destruct (c <? 0x80)%N eqn:H1.
  { intros [= <-]. utf8_step. by rewrite H1. }
  destruct (c <? 0x800)%N eqn:H2.
  { intros [= <-]. bool_to_prop. utf8_step.
    utf8_tests. f_equal. lia. }
  destruct ((0xD800 <=? c)%N && (c <=? 0xDFFF)%N) eqn:H3; [done|].
  destruct (c <? 0x10000)%N eqn:H4.
  { intros [= <-]. bool_to_prop. apply andb_false_iff in H3.
    assert (Hs : (c < 0xD800 \/ 0xDFFF < c)%N).
    { destruct H3 as [H3|H3]; bool_to_prop; lia. }
    clear H3. utf8_step.
    destruct (0xE0 + q2 =? 0xE0)%N eqn:E0;
      destruct (0xE0 + q2 =? 0xED)%N eqn:E1; bool_to_prop;
      utf8_tests; f_equal; lia. }
  destruct (c <? 0x110000)%N eqn:H5; [|done].
  intros [= <-]. bool_to_prop. utf8_step.
  destruct (0xF0 + q3 =? 0xF0)%N eqn:E0;
    destruct (0xF0 + q3 =? 0xF4)%N eqn:E1; bool_to_prop;
    utf8_tests; f_equal; lia.
Qed.

Lemma utf8_decode_encode (s : pystr) (bs : list N) :
  utf8_encode s = Ok bs -> utf8_decode bs = s.
Proof.
  revert bs. induction s as [|c s IH]; intros bs; cbn [utf8_encode].
  - by intros [= <-].
  - destruct (utf8_encode_char c) as [e|] eqn:Ec; [|done].
    destruct (utf8_encode s) as [rest|]; [|done]. intros [= <-].
    rewrite (utf8_decode_char _ _ _ Ec). f_equal. by apply IH.
Qed.

Lemma utf8_encode_char_bytes (c : char) (e : list N) :
  utf8_encode_char c = Some e -> Forall (fun b => (b < 256)%N) e.
Proof.
  unfold utf8_encode_char, in_range.
  destruct (base64_digits c)
    as (q1 & r0 & q2 & r1 & q3 & r2 & -> & -> & -> & -> & -> & ->
        & Hc & Hr0 & Hq1 & Hr1 & Hq2 & Hr2).
  destruct (c <? 0x80)%N eqn:H1.
  { intros [= <-]. bool_to_prop. repeat constructor. lia. }
  destruct (c <? 0x800)%N eqn:H2.
  { intros [= <-]. bool_to_prop. repeat constructor; lia. }
  destruct ((0xD800 <=? c)%N && (c <=? 0xDFFF)%N) eqn:H3; [done|].
  destruct (c <? 0x10000)%N eqn:H4.
  { intros [= <-]. bool_to_prop. repeat constructor; lia. }
  destruct (c <? 0x110000)%N eqn:H5; [|done].
  intros [= <-]. bool_to_prop. repeat constructor; lia.
Qed.

(** An ASCII character is its own encoding, and the bytes of any other
    character are beyond ASCII. *)
Lemma utf8_encode_char_ascii (c : char) (e : list N) :
  utf8_encode_char c = Some e ->
  (is_ascii_char c = true /\ e = [c])
  \/ (is_ascii_char c = false /\ Forall (fun b => (128 <= b)%N) e).
Proof.
  unfold utf8_encode_char, in_range, is_ascii_char.
  destruct (base64_digits c)
    as (q1 & r0 & q2 & r1 & q3 & r2 & -> & -> & -> & -> & -> & ->
        & Hc & Hr0 & Hq1 & Hr1 & Hq2 & Hr2).
  destruct (c <? 0x80)%N eqn:H1.
  { intros [= <-]. by left. }
  intros He. right. split; [done|]. revert He.
  destruct (c <? 0x800)%N eqn:H2.
  { intros [= <-]. bool_to_prop. repeat constructor; lia. }
  destruct ((0xD800 <=? c)%N && (c <=? 0xDFFF)%N) eqn:H3; [done|].
  destruct (c <? 0x10000)%N eqn:H4.
  { intros [= <-]. bool_to_prop. repeat constructor; lia. }
  destruct (c <? 0x110000)%N eqn:H5; [|done].
  intros [= <-]. bool_to_prop. repeat constructor; lia.
Qed.

Lemma utf8_encode_bytes (s : pystr) (bs : list N) :
  utf8_encode s = Ok bs -> Forall (fun b => (b < 256)%N) bs.
Proof.
  revert bs. induction s as [|c s IH]; intros bs; cbn [utf8_encode].
  - by intros [= <-].
  - destruct (utf8_encode_char c) as [e|] eqn:Ec; [|done].
    destruct (utf8_encode s) as [rest|]; [|done]. intros [= <-].
    apply Forall_app. split; [by eapply utf8_encode_char_bytes | by apply IH].
Qed.

(** The encoding has the byte [b] of ASCII exactly when the text has the
    character. *)
Lemma utf8_encode_has_ascii (s : pystr) (bs : list N) (b : N) :
  utf8_encode s = Ok bs -> (b < 128)%N -> has_char b bs = has_char b s.
Proof.
  intros Hs Hb. revert bs Hs. induction s as [|c s IH]; intros bs; cbn [utf8_encode].
  - by intros [= <-].
  - destruct (utf8_encode_char c) as [e|] eqn:Ec; [|done].
    destruct (utf8_encode s) as [rest|]; [|done]. intros [= <-].
    rewrite has_char_app, (IH rest eq_refl).
    change (has_char b (c :: s)) with ((b =? c)%N || has_char b s). f_equal.
    destruct (utf8_encode_char_ascii _ _ Ec) as [[_ ->]|[Hc He]].
    + cbn. by rewrite orb_false_r.
    + unfold is_ascii_char in Hc. bool_to_prop.
      replace (b =? c)%N with false by (symmetry; apply N.eqb_neq; lia).
      clear Ec. induction He as [|x e Hx _ IHe]; [done|].
      change (has_char b (x :: e)) with ((b =? x)%N || has_char b e).
      rewrite IHe. replace (b =? x)%N with false; [done|].
      symmetry; apply N.eqb_neq; lia.
Qed.

Lemma always_safe_ascii (b : N) : always_safe b = true -> (b < 128)%N.
Proof.
  unfold always_safe, is_alnum, is_alpha, is_upper, is_lower, is_digit, in_range,
    c_dot, c_hyphen.
  intros Hb. repeat (apply orb_prop in Hb as [Hb|Hb]); bool_to_prop; lia.
Qed.

Lemma always_safe_not (b : N) :
  always_safe b = true ->
  b ≠ c_space /\ b ≠ c_pct /\ b ≠ c_plus /\ b ≠ c_amp /\ b ≠ c_eq.
Proof.
  unfold always_safe, is_alnum, is_alpha, is_upper, is_lower, is_digit, in_range,
    c_dot, c_hyphen, c_space, c_pct, c_plus, c_amp, c_eq.
  intros Hb. repeat (apply orb_prop in Hb as [Hb|Hb]); bool_to_prop; lia.
Qed.

Lemma hexdigit_upper_safe (n : N) : (n < 16)%N -> always_safe (hexdigit_upper n) = true.
Proof.
  intros Hn. unfold hexdigit_upper.
  assert (Hcases : n ∈ [0;1;2;3;4;5;6;7;8;9;10;11;12;13;14;15]%N).
  { rewrite !elem_of_cons. lia. }
  rewrite !elem_of_cons, elem_of_nil in Hcases.
  repeat (destruct Hcases as [->|Hcases]; [reflexivity|]). done.
Qed.

Lemma hexval_hexdigit (n : N) : (n < 16)%N -> hexval (hexdigit_upper n) = Some n.
Proof.
  intros Hn.
  assert (Hcases : n ∈ [0;1;2;3;4;5;6;7;8;9;10;11;12;13;14;15]%N).
  { rewrite !elem_of_cons. lia. }
  rewrite !elem_of_cons, elem_of_nil in Hcases.
  repeat (destruct Hcases as [->|Hcases]; [reflexivity|]). done.
Qed.

(** The characters that [quote_plus] writes. *)
Lemma quote_plus_byte_chars (b : N) :
  (b < 256)%N ->
  forallb (fun c => always_safe c || (c =? c_plus)%N || (c =? c_pct)%N)
          (quote_plus_byte b) = true.
Proof.
  intros Hb. unfold quote_plus_byte, quote_byte.
  destruct (b =? c_space)%N; [done|].
  cbn [has_char existsb]. rewrite orb_false_r.
  destruct (always_safe b) eqn:Hs; cbn [forallb].
  - by rewrite Hs.
  - rewrite !hexdigit_upper_safe; [done| |].
    + by apply N.mod_lt.
    + apply N.Div0.div_lt_upper_bound. lia.
Qed.

Lemma hexdigit_upper_ge (n : N) : (48 <= hexdigit_upper n)%N.
Proof. unfold hexdigit_upper. destruct (n <? 10)%N; lia. Qed.

Lemma replace_char_concat (c d : char) (l : list pystr) :
  replace_char c d (concat l) = concat (map (replace_char c d) l).
Proof.
  induction l as [|x l IH]; [done|].
  cbn [concat map]. rewrite <- IH. unfold replace_char. apply map_app.
Qed.

Lemma replace_quote_byte (b : N) :
  replace_char c_space c_plus (quote_byte [c_space] b) = quote_plus_byte b.
Proof.
  unfold quote_plus_byte, quote_byte, replace_char.
  cbn [has_char existsb]. rewrite !orb_false_r.
  destruct (b =? c_space)%N eqn:Hsp.
  - rewrite orb_true_r. cbn [map]. by rewrite Hsp.
  - rewrite orb_false_r. destruct (always_safe b); cbn [map].
    + by rewrite Hsp.
    + pose proof (hexdigit_upper_ge (b / 16)). pose proof (hexdigit_upper_ge (b mod 16)).
      unfold c_space. cmp_goal. done.
Qed.

(** [quote(s, ' ')] followed by [replace(' ', '+')], byte by byte. *)
Lemma replace_quote_space (bs : list N) :
  replace_char c_space c_plus (quote_from_bytes bs [c_space])
  = concat (map quote_plus_byte bs).
Proof.
  unfold quote_from_bytes. rewrite replace_char_concat, map_map.
  f_equal. apply map_ext. intros b. apply replace_quote_byte.
Qed.

(** [quote_plus], byte by byte. *)
Lemma quote_plus_bytes (s : pystr) :
  quote_plus s = (bs ← utf8_encode s; Ok (concat (map quote_plus_byte bs))).
Proof.
  unfold quote_plus, quote.
  destruct (has_char c_space s) eqn:Hsp; cbn [negb].
  - destruct (utf8_encode s) as [bs|] eqn:Hbs; [|done]. cbn [mbind result_bind].
    f_equal. apply replace_quote_space.
  - destruct (utf8_encode s) as [bs|] eqn:Hbs; [|done]. cbn [mbind result_bind].
    f_equal. unfold quote_from_bytes. f_equal. apply map_ext_in.
    intros b Hb. unfold quote_plus_byte.
    destruct (b =? c_space)%N eqn:E; [|done]. bool_to_prop. subst b.
    assert (Hin : has_char c_space bs = true).
    { unfold has_char. apply existsb_exists. exists c_space. split; [done|].
      by apply N.eqb_eq. }
    rewrite (utf8_encode_has_ascii s bs c_space Hbs) in Hin; [congruence|done].
Qed.

Lemma quote_plus_chars (s e : pystr) :
  quote_plus s = Ok e ->
  forallb (fun c => always_safe c || (c =? c_plus)%N || (c =? c_pct)%N) e = true.
Proof.
  rewrite quote_plus_bytes.
  destruct (utf8_encode s) as [bs|] eqn:Hbs; [|done]. intros [= <-].
  pose proof (utf8_encode_bytes _ _ Hbs) as Hlt. clear Hbs.
  induction Hlt as [|b bs Hb _ IH]; [done|].
  cbn [map concat]. rewrite forallb_app. apply andb_true_intro.
  split; [by apply quote_plus_byte_chars | exact IH].
Qed.

(** The bytes come back from what [quote_plus] made of them. *)
Lemma unquote_to_bytes_quote_plus (bs : list N) :
  Forall (fun b => (b < 256)%N) bs ->
  unquote_to_bytes (replace_char c_plus c_space (concat (map quote_plus_byte bs)))
  = bs.
Proof.
  intros Hlt. rewrite replace_char_concat, map_map.
  induction Hlt as [|b bs Hb _ IH]; [done|].
  cbn [map concat]. unfold quote_plus_byte at 1, quote_byte.
  cbn [has_char existsb]. rewrite orb_false_r.
  destruct (b =? c_space)%N eqn:Hsp.
  - bool_to_prop. subst b. cbn. f_equal. exact IH.
  - destruct (always_safe b) eqn:Hs.
    + destruct (always_safe_not b Hs) as (_ & Hpct & Hplus & _).
      unfold replace_char at 1. cbn [map app].
      replace (b =? c_plus)%N with false by (symmetry; by apply N.eqb_neq).
      cbn [unquote_to_bytes].
      replace (b =? c_pct)%N with false by (symmetry; by apply N.eqb_neq).
      f_equal. exact IH.
    + assert (H1 : (b / 16 < 16)%N) by (apply N.Div0.div_lt_upper_bound; lia).
      assert (H2 : (b mod 16 < 16)%N) by (by apply N.mod_lt).
      pose proof (hexdigit_upper_ge (b / 16)).
      pose proof (hexdigit_upper_ge (b mod 16)).
      unfold replace_char at 1. cbn [map app]. unfold c_plus.
      cmp_goal. cbn [unquote_to_bytes].
      rewrite (hexval_hexdigit _ H1), (hexval_hexdigit _ H2).
      cbn [N.eqb c_pct Pos.eqb]. f_equal; [|exact IH].
      rewrite (N.div_mod' b 16) at 3. done.
Qed.

Lemma unquote_to_bytes_plain (s : pystr) :
  has_char c_pct s = false -> unquote_to_bytes s = s.
Proof.
  induction s as [|c s IH]; [done|].
  change (has_char c_pct (c :: s)) with ((c_pct =? c)%N || has_char c_pct s).
  intros [Hc Hs]%orb_false_elim. cbn [unquote_to_bytes].
  rewrite N.eqb_sym, Hc. f_equal. by apply IH.
Qed.

Lemma utf8_decode_ascii (s : list N) :
  isascii s = true -> utf8_decode s = s.
Proof.
  induction s as [|c s IH]; [done|]. cbn [isascii forallb].
  intros [Hc Hs]%andb_prop. unfold is_ascii_char in Hc.
  remember s as tl eqn:Etl in |- * at 1. cbn [utf8_decode]. subst tl.
  change (c <? 128)%N with (c <? 0x80)%N in Hc. rewrite Hc. f_equal. by apply IH.
Qed.

Lemma unquote_runs_ascii (run s : pystr) :
  isascii s = true ->
  unquote_runs run s = utf8_decode (unquote_to_bytes (rev run ++ s)).
Proof.
  revert run. induction s as [|c s IH]; intros run; cbn [isascii forallb].
  - intros _. cbn [unquote_runs]. by rewrite app_nil_r.
  - intros [Hc Hs]%andb_prop. cbn [unquote_runs]. rewrite Hc.
    rewrite (IH _ Hs). cbn [rev]. by rewrite <- app_assoc.
Qed.

Lemma unquote_ascii (s : pystr) :
  isascii s = true -> unquote s = utf8_decode (unquote_to_bytes s).
Proof.
  intros Hs. unfold unquote. destruct (has_char c_pct s) eqn:Hp; cbn [negb].
  - by rewrite unquote_runs_ascii.
  - rewrite (unquote_to_bytes_plain _ Hp). by rewrite utf8_decode_ascii.
Qed.

(** What [quote_plus] wrote, [unquote_plus] reads back. *)
Lemma unquote_quote_plus (s e : pystr) :
  quote_plus s = Ok e -> unquote (replace_char c_plus c_space e) = s.
Proof.
  intros He. pose proof (quote_plus_chars _ _ He) as Hchars.
  rewrite quote_plus_bytes in He.
  destruct (utf8_encode s) as [bs|] eqn:Hbs; [|done]. injection He as <-.
  rewrite unquote_ascii.
  - rewrite (unquote_to_bytes_quote_plus bs (utf8_encode_bytes _ _ Hbs)).
    by apply utf8_decode_encode.
  - unfold isascii, replace_char. rewrite forallb_forall in *.
    intros c Hc. apply in_map_iff in Hc as (x & <- & Hx).
    destruct (x =? c_plus)%N; [done|].
    specialize (Hchars x Hx).
    apply orb_prop in Hchars as [Hchars|Hchars].
    + apply orb_prop in Hchars as [Hsafe|Hplus].
      * unfold is_ascii_char. apply N.ltb_lt. by apply always_safe_ascii.
      * bool_to_prop. by subst x.
    + bool_to_prop. by subst x.
Qed.

(** ** Splitting and joining *)

Lemma has_char_cons (c x : char) (s : pystr) :
  has_char c (x :: s) = (c =? x)%N || has_char c s.
Proof. done. Qed.

Lemma partition_at_app (c : char) (a b : pystr) :
  has_char c a = false -> partition_at c (a ++ c :: b) = Some (a, b).
Proof.
  induction a as [|x a IH]; cbn [app partition_at].
  - intros _. by rewrite N.eqb_refl.
  - rewrite has_char_cons. intros [Hx Ha]%orb_false_elim.
    rewrite N.eqb_sym, Hx. by rewrite IH.
Qed.

Lemma partition_at_none (c : char) (s : pystr) :
  has_char c s = false -> partition_at c s = None.
Proof.
  induction s as [|x s IH]; [done|].
  rewrite has_char_cons. intros [Hx Hs]%orb_false_elim.
  cbn [partition_at]. rewrite N.eqb_sym, Hx. by rewrite IH.
Qed.

Lemma partition_at_some (c : char) (s a b : pystr) :
  partition_at c s = Some (a, b) -> s = a ++ c :: b /\ has_char c a = false.
Proof.
  revert a. induction s as [|x s IH]; intros a; [done|].
  cbn [partition_at]. destruct (x =? c)%N eqn:Hx.
  - intros [= <- <-]. bool_to_prop. by subst x.
  - destruct (partition_at c s) as [[a' b']|]; [|done].
    intros [= <- <-]. destruct (IH a' eq_refl) as [-> Ha]. split; [done|].
    rewrite has_char_cons, N.eqb_sym, Hx. done.
Qed.

Lemma partition_at_none_inv (c : char) (s : pystr) :
  partition_at c s = None -> has_char c s = false.
Proof.
  induction s as [|x s IH]; [done|].
  cbn [partition_at]. destruct (x =? c)%N eqn:Hx; [done|].
  destruct (partition_at c s) as [[a' b']|]; [done|].
  intros _. rewrite has_char_cons, N.eqb_sym, Hx. by apply IH.
Qed.

Lemma split_on_plain (c : char) (w : pystr) :
  has_char c w = false -> split_on c w = [w].
Proof.
  induction w as [|x w IH]; [done|].
  rewrite has_char_cons. intros [Hx Hw]%orb_false_elim.
  cbn [split_on]. rewrite N.eqb_sym, Hx. by rewrite IH.
Qed.

Lemma split_on_app (c : char) (w rest : pystr) :
  has_char c w = false -> split_on c (w ++ c :: rest) = w :: split_on c rest.
Proof.
  induction w as [|x w IH]; cbn [app split_on].
  - intros _. by rewrite N.eqb_refl.
  - rewrite has_char_cons. intros [Hx Hw]%orb_false_elim.
    rewrite N.eqb_sym, Hx. by rewrite IH.
Qed.

(** Splitting undoes joining, for words without the separator. *)
Lemma split_on_join (c : char) (l : list pystr) :
  l ≠ [] -> Forall (fun w => has_char c w = false) l ->
  split_on c (join_with c l) = l.
Proof.
  intros Hne Hl. induction Hl as [|w l Hw Hl IH]; [done|].
  destruct l as [|w' l]; cbn [join_with].
  - by apply split_on_plain.
  - rewrite split_on_app by done. f_equal. by apply IH.
Qed.

(** ** The query string *)

Lemma quote_plus_no (s e : pystr) (c : char) :
  quote_plus s = Ok e ->
  always_safe c = false -> c ≠ c_plus -> c ≠ c_pct -> has_char c e = false.
Proof.
  intros He Hs Hplus Hpct. pose proof (quote_plus_chars _ _ He) as Hchars.
  apply not_true_is_false. intros Hin. unfold has_char in Hin.
  apply existsb_exists in Hin as (x & Hx & Hcx). bool_to_prop. subst x.
  rewrite forallb_forall in Hchars. specialize (Hchars c Hx).
  rewrite Hs in Hchars. cbn [orb] in Hchars.
  apply orb_prop in Hchars as [H|H]; bool_to_prop; done.
Qed.

(** The words of an encoded query: each is [key=value], and neither part
    has a bar of the query in it. *)
Lemma urlencode_items_words (q : list (pystr * pystr)) (l : list pystr) :
  urlencode_items q = Ok l ->
  Forall2 (fun kv w => exists k' v',
             quote_plus (fst kv) = Ok k' /\ quote_plus (snd kv) = Ok v'
             /\ w = k' ++ c_eq :: v') q l.
Proof.
  revert l. induction q as [|[k v] q IH]; intros l; cbn [urlencode_items].
  - intros [= <-]. constructor.
  - destruct (quote_plus k) as [k'|] eqn:Hk; [|done]. cbn [mbind result_bind].
    destruct (quote_plus v) as [v'|] eqn:Hv; [|done]. cbn [mbind result_bind].
    destruct (urlencode_items q) as [l'|]; [|done]. cbn [mbind result_bind].
    intros [= <-]. constructor; [|by apply IH].
    exists k', v'. done.
Qed.

Lemma join_with_nil (c : char) (w : pystr) (l : list pystr) :
  join_with c (w :: l) = [] -> w = [].
Proof. destruct l, w; cbn; done. Qed.

(** What [urlencode] wrote, [parse_qsl] reads back. *)
Lemma parse_qsl_urlencode (q : list (pystr * pystr)) (qs : pystr) :
  urlencode q = Ok qs -> parse_qsl qs = q.
Proof.
  unfold urlencode. destruct (urlencode_items q) as [l|] eqn:Hl; [|done].
  cbn [mbind result_bind]. intros [= <-].
  pose proof (urlencode_items_words _ _ Hl) as Hw. clear Hl.
  assert (Hwords : Forall (fun w => has_char c_amp w = false) l).
  { clear -Hw. induction Hw as [|kv w q l (k' & v' & Hk & Hv & ->) _ IH]; [done|].
    constructor; [|done].
    rewrite has_char_app, has_char_cons.
    rewrite (quote_plus_no _ _ c_amp Hk), (quote_plus_no _ _ c_amp Hv); done. }
  unfold parse_qsl.
  assert (Hsplit : match join_with c_amp l with
                   | [] => []
                   | _ => split_on c_amp (join_with c_amp l)
                   end = l).
  { destruct l as [|w l']; [done|].
    destruct (join_with c_amp (w :: l')) eqn:Ej.
    - apply join_with_nil in Ej. subst w.
      apply Forall2_cons_inv_r in Hw as (kv & q' & (k' & v' & _ & _ & Hnil) & _ & _).
      by destruct k'.
    - rewrite <- Ej. by apply split_on_join. }
  rewrite Hsplit. clear Hsplit Hwords.
  induction Hw as [|[k v] w q l (k' & v' & Hk & Hv & ->) _ IH]; [done|].
  cbn [flat_map fst snd] in *. rewrite IH.
  destruct (k' ++ c_eq :: v') eqn:E; [by destruct k'|]. rewrite <- E. clear E.
  rewrite partition_at_app by (by apply (quote_plus_no k)).
  by rewrite (unquote_quote_plus _ _ Hk), (unquote_quote_plus _ _ Hv).
Qed.

(** ** Sorting the parameters *)

Lemma str_leb_total (a b : pystr) : str_leb a b = false -> str_leb b a = true.
Proof.
  revert b. induction a as [|x a IH]; intros [|y b]; cbn [str_leb]; try done.
  intros [Hlt H]%orb_false_elim.
  destruct (x =? y)%N eqn:Heq; cbn [andb] in H.
  - bool_to_prop. subst y. rewrite N.eqb_refl. cbn [andb].
    rewrite (IH _ H). apply orb_true_r.
  - bool_to_prop. apply orb_true_intro. left. apply N.ltb_lt. lia.
Qed.

Abbreviation key_le := (fun x y : pystr * pystr => str_leb (fst x) (fst y) = true).

Lemma insert_by_key_sorted (x : pystr * pystr) (l : list (pystr * pystr)) :
  Sorted key_le l -> Sorted key_le (insert_by_key x l).
Proof.
  induction 1 as [|y l Hl IH Hy]; cbn [insert_by_key].
  - repeat constructor.
  - destruct (str_leb (fst x) (fst y)) eqn:Hxy.
    + repeat constructor; done.
    + constructor; [done|].
      destruct l as [|z l]; cbn [insert_by_key] in *.
      * constructor. by apply str_leb_total.
      * destruct (str_leb (fst x) (fst z)).
        -- constructor. by apply str_leb_total.
        -- constructor. by inversion Hy.
Qed.

Lemma sort_by_key_sorted (l : list (pystr * pystr)) : Sorted key_le (sort_by_key l).
Proof.
  unfold sort_by_key. induction l as [|x l IH]; cbn [foldr]; [constructor|].
  by apply insert_by_key_sorted.
Qed.

(** Sorting leaves a sorted list as it is. *)
Lemma sort_by_key_id (l : list (pystr * pystr)) :
  Sorted key_le l -> sort_by_key l = l.
Proof.
  unfold sort_by_key. induction 1 as [|x l Hl IH Hx]; [done|].
  cbn [foldr]. rewrite IH. destruct Hx as [|y l Hxy]; [done|].
  cbn [insert_by_key]. by rewrite Hxy.
Qed.

Lemma insert_by_key_Forall (P : pystr * pystr -> Prop) (x : pystr * pystr)
    (l : list (pystr * pystr)) :
  P x -> Forall P l -> Forall P (insert_by_key x l).
Proof.
  intros Hx. induction 1 as [|y l Hy Hl IH]; cbn [insert_by_key].
  - by constructor.
  - destruct (str_leb (fst x) (fst y)); repeat constructor; done.
Qed.

Lemma sort_by_key_Forall (P : pystr * pystr -> Prop) (l : list (pystr * pystr)) :
  Forall P l -> Forall P (sort_by_key l).
Proof.
  unfold sort_by_key. induction 1; cbn [foldr]; [done|].
  by apply insert_by_key_Forall.
Qed.

Lemma filter_Forall_id {A} (p : A -> bool) (l : list A) :
  Forall (fun x => p x = true) l -> List.filter p l = l.
Proof. induction 1 as [|x l Hx _ IH]; cbn; [done|]. by rewrite Hx, IH. Qed.

Lemma filter_Forall {A} (p : A -> bool) (l : list A) :
  Forall (fun x => p x = true) (List.filter p l).
Proof.
  induction l as [|x l IH]; cbn; [done|].
  destruct (p x) eqn:Hx; [by constructor | done].
Qed.

Section QueryNormal.
Context `{PyLib}.

(** The parameters that [normalize_url] writes are those that it reads back
    and normalizes. *)
Lemma normalize_query_urlencode (query qs : pystr) :
  urlencode (normalize_query query) = Ok qs ->
  normalize_query qs = normalize_query query.
Proof.
  intros Hqs. unfold normalize_query at 1.
  rewrite (parse_qsl_urlencode _ _ Hqs).
  rewrite filter_Forall_id.
  - apply sort_by_key_id. apply sort_by_key_sorted.
  - unfold normalize_query. apply sort_by_key_Forall. apply filter_Forall.
Qed.

End QueryNormal.

(** ** Splitting a URL *)

Lemma remove_char_id (c : char) (s : pystr) :
  has_char c s = false -> remove_char c s = s.
Proof.
  unfold remove_char. induction s as [|x s IH]; [done|].
  rewrite has_char_cons. intros [Hx Hs]%orb_false_elim.
  cbn [List.filter]. rewrite N.eqb_sym, Hx. cbn [negb]. by rewrite IH.
Qed.

Lemma has_char_remove (c d : char) (s : pystr) :
  has_char c (remove_char d s) = has_char c s && negb (c =? d)%N.
Proof.
  unfold remove_char. induction s as [|x s IH]; [done|].
  cbn [List.filter]. destruct (x =? d)%N eqn:Hx; cbn [negb].
  - rewrite has_char_cons, IH. apply N.eqb_eq in Hx. subst x.
    destruct (c =? d)%N; cbn [orb negb]; [by rewrite andb_false_r | done].
  - rewrite !has_char_cons, IH.
    destruct (c =? x)%N eqn:Hc; cbn [orb]; [|done].
    apply N.eqb_eq in Hc. subst x. by rewrite Hx.
Qed.

Lemma no_ctl_has (s : pystr) :
  forallb (fun c => negb (is_ctl c)) s = true <->
  has_char c_tab s = false /\ has_char c_lf s = false /\ has_char c_cr s = false.
Proof.
  induction s as [|x s IH]; [done|].
  rewrite !has_char_cons. cbn [forallb]. rewrite andb_true_iff, IH.
  unfold is_ctl. rewrite !(N.eqb_sym x).
  destruct (c_tab =? x)%N, (c_lf =? x)%N, (c_cr =? x)%N; cbn; intuition congruence.
Qed.

(** The text that [urlsplit] works on has no tab, line feed or carriage
    return, and is the URL itself when the URL has none. *)
Lemma url_clean_no_ctl (s : pystr) :
  forallb (fun c => negb (is_ctl c))
          (remove_char c_lf (remove_char c_cr (remove_char c_tab s))) = true.
Proof.
  apply no_ctl_has. rewrite !has_char_remove. cbn.
  rewrite !andb_false_r. by rewrite ?andb_false_l.
Qed.

Lemma url_clean_id (s : pystr) :
  forallb (fun c => negb (is_ctl c)) s = true ->
  remove_char c_lf (remove_char c_cr (remove_char c_tab s)) = s.
Proof.
  intros (Ht & Hl & Hc)%no_ctl_has.
  by rewrite (remove_char_id c_tab), (remove_char_id c_cr), (remove_char_id c_lf).
Qed.

(** *** The scheme *)

Lemma has_char_app_eq (c : char) (a b : pystr) :
  has_char c (a ++ b) = has_char c a || has_char c b.
Proof. unfold has_char. apply existsb_app. Qed.

Lemma has_char_split (c : char) (s : pystr) :
  has_char c s = true ->
  exists a b, s = a ++ c :: b /\ has_char c a = false.
Proof.
  intros Hs. destruct (partition_at c s) as [[a b]|] eqn:Hp.
  - exists a, b. by apply partition_at_some.
  - apply partition_at_none_inv in Hp. congruence.
Qed.

Lemma is_scheme_char_ascii (c : char) : is_scheme_char c = true -> is_ascii_char c = true.
Proof.
  unfold is_scheme_char, is_alnum, is_alpha, is_upper, is_lower, is_digit,
    in_range, is_ascii_char, c_plus, c_hyphen, c_dot.
  intros Hc. apply N.ltb_lt.
  repeat (apply orb_prop in Hc as [Hc|Hc]); bool_to_prop; lia.
Qed.

Lemma is_scheme_char_not (c : char) :
  is_scheme_char c = true -> c <> c_colon /\ c <> c_slash /\ is_ctl c = false.
Proof.
  unfold is_scheme_char, is_alnum, is_alpha, is_upper, is_lower, is_digit,
    in_range, is_ctl, c_plus, c_hyphen, c_dot, c_colon, c_slash, c_tab, c_lf, c_cr.
  intros Hc.
  assert (43 <= c)%N as Hge
    by (repeat (apply orb_prop in Hc as [Hc|Hc]); bool_to_prop; lia).
  assert (c <> 58 /\ c <> 47)%N as [? ?]
    by (repeat (apply orb_prop in Hc as [Hc|Hc]); bool_to_prop; lia).
  repeat split; try done.
  cmp_goal. done.
Qed.

Lemma scheme_chars_ascii (s : pystr) :
  forallb is_scheme_char s = true -> isascii s = true.
Proof.
  unfold isascii. induction s as [|x s IH]; [done|].
  cbn [forallb]. intros [Hx Hs]%andb_prop.
  by rewrite (is_scheme_char_ascii _ Hx), IH.
Qed.

Lemma scheme_chars_no_colon (s : pystr) :
  forallb is_scheme_char s = true -> has_char c_colon s = false.
Proof.
  induction s as [|x s IH]; [done|].
  cbn [forallb]. intros [Hx Hs]%andb_prop. rewrite has_char_cons, IH by done.
  destruct (is_scheme_char_not _ Hx) as (Hc & _).
  rewrite orb_false_r. apply N.eqb_neq. congruence.
Qed.

Lemma ascii_lower_scheme_char (c : char) :
  is_scheme_char c = true -> is_scheme_char (ascii_lower c) = true.
Proof.
  unfold ascii_lower. destruct (is_upper c) eqn:Hu; [|done]. intros _.
  unfold is_upper, in_range in Hu. bool_to_prop.
  unfold is_scheme_char, is_alnum, is_alpha, is_upper, is_lower, in_range.
  cmp_goal. done.
Qed.

Lemma ascii_lower_not_upper (c : char) : is_upper (ascii_lower c) = false.
Proof.
  unfold ascii_lower. destruct (is_upper c) eqn:Hu; [|done].
  unfold is_upper, in_range in *. bool_to_prop. cmp_goal. done.
Qed.

Lemma ascii_lower_alpha (c : char) :
  is_alpha c = true -> is_alpha (ascii_lower c) = true.
Proof.
  unfold ascii_lower. destruct (is_upper c) eqn:Hu; [|done]. intros _.
  unfold is_upper, in_range in Hu. bool_to_prop.
  unfold is_alpha, is_upper, is_lower, in_range. cmp_goal. done.
Qed.

Lemma map_ascii_lower_id (s : pystr) :
  forallb (fun c => negb (is_upper c)) s = true -> map ascii_lower s = s.
Proof.
  induction s as [|x s IH]; [done|].
  cbn [forallb map]. intros [Hx Hs]%andb_prop. rewrite IH by done.
  unfold ascii_lower. apply negb_true_iff in Hx. by rewrite Hx.
Qed.

Lemma forallb_map_eq {A B} (p : B -> bool) (f : A -> B) (l : list A) :
  forallb p (map f l) = forallb (fun x => p (f x)) l.
Proof. induction l as [|x l IH]; [done|]. cbn. by rewrite IH. Qed.

Section SchemeLemmas.
Context `{PyLib}.

Lemma lower_ascii (s : pystr) : isascii s = true -> lower s = map ascii_lower s.
Proof. unfold lower. by intros ->. Qed.

(** [urlsplit] finds no scheme, or one in lower case. *)
Lemma split_scheme_inv (v S rest : pystr) :
  split_scheme v = (S, rest) ->
  (S = [] /\ rest = v)
  \/ (is_scheme S = true /\ exists pre, v = pre ++ c_colon :: rest).
Proof.
  unfold split_scheme.
  destruct (partition_at c_colon v) as [[[|c0 pre] r]|] eqn:Hp;
    try (intros [= <- <-]; by left).
  destruct (is_ascii_char c0 && is_alpha c0 && forallb is_scheme_char (c0 :: pre))
    eqn:Ht; [|intros [= <- <-]; by left].
  intros [= <- <-]. right.
  apply andb_prop in Ht as [[Ha Hal]%andb_prop Hs].
  apply partition_at_some in Hp as [Hv _]. split; [|by eexists].
  rewrite lower_ascii by by apply scheme_chars_ascii.
  cbn [map is_scheme]. rewrite ascii_lower_alpha by done. cbn [andb].
  apply andb_true_intro. split.
  - change (forallb is_scheme_char (map ascii_lower (c0 :: pre)) = true).
    rewrite forallb_map_eq. rewrite forallb_forall in Hs. apply forallb_forall.
    intros x Hx. apply ascii_lower_scheme_char. by apply Hs.
  - change (forallb (fun c => negb (is_upper c)) (map ascii_lower (c0 :: pre)) = true).
    rewrite forallb_map_eq. apply forallb_forall. intros x _.
    by rewrite ascii_lower_not_upper.
Qed.

(** A scheme put in front of a text is the scheme that [urlsplit] finds. *)
Lemma split_scheme_scheme (S x : pystr) :
  is_scheme S = true -> split_scheme (S ++ c_colon :: x) = (S, x).
Proof.
  destruct S as [|c0 pre]; [done|]. cbn [is_scheme].
  intros [[Hal Hs]%andb_prop Hu]%andb_prop.
  unfold split_scheme.
  rewrite partition_at_app by by apply scheme_chars_no_colon.
  rewrite Hs, Hal. pose proof (scheme_chars_ascii _ Hs) as Hasc.
  rewrite lower_ascii by done. unfold isascii in Hasc. cbn [forallb] in Hasc.
  apply andb_prop in Hasc as [-> _]. cbn [andb].
  by rewrite map_ascii_lower_id.
Qed.

(** Where [urlsplit] finds no scheme, it finds none in a text that starts
    in the same way and has no further colon. *)
Lemma split_scheme_none (a w z : pystr) :
  split_scheme (a ++ w) = ([], a ++ w) ->
  has_char c_colon z = false ->
  split_scheme (a ++ z) = ([], a ++ z).
Proof.
  intros Hw Hz. destruct (has_char c_colon a) eqn:Ha.
  - apply has_char_split in Ha as (pre & b & -> & Hpre).
    revert Hw. unfold split_scheme. rewrite <- !app_assoc. cbn [app].
    rewrite !partition_at_app by done.
    destruct pre as [|c0 pre]; [done|].
    destruct (is_ascii_char c0 && is_alpha c0 && forallb is_scheme_char (c0 :: pre))
      eqn:Ht; [|done].
    intros [= Hl _]. apply andb_prop in Ht as [_ Hs].
    rewrite lower_ascii in Hl by by apply scheme_chars_ascii. done.
  - unfold split_scheme. rewrite partition_at_none; [done|].
    by rewrite has_char_app_eq, Ha, Hz.
Qed.

Lemma split_scheme_slash (x : pystr) :
  split_scheme (c_slash :: x) = ([], c_slash :: x).
Proof.
  unfold split_scheme. destruct (partition_at c_colon (c_slash :: x))
    as [[[|c0 pre] r]|] eqn:Hp; try done.
  apply partition_at_some in Hp as [[= <- _] _]. done.
Qed.

End SchemeLemmas.

(** *** The host and the path *)

Lemma span_inv (p : char -> bool) (s a b : pystr) :
  span p s = (a, b) ->
  s = a ++ b /\ forallb p a = true
  /\ (b = [] \/ exists x t, b = x :: t /\ p x = false).
Proof.
  revert a b. induction s as [|x r IH]; cbn [span]; intros a b.
  - intros [= <- <-]. auto.
  - destruct (p x) eqn:Hx.
    + destruct (span p r) as [a' b'] eqn:Hs. intros [= <- <-].
      destruct (IH _ _ eq_refl) as (-> & Ha & Hb). cbn [forallb app].
      by rewrite Hx, Ha.
    + intros [= <- <-]. repeat split. right. by exists x, r.
Qed.

Lemma dropwhile_head (p : char -> bool) (s : pystr) :
  dropwhile p s = [] \/ exists x t, dropwhile p s = x :: t /\ p x = false.
Proof.
  induction s as [|x r IH]; cbn [dropwhile]; [by left|].
  destruct (p x) eqn:Hx; [done|]. right. by exists x, r.
Qed.

Lemma lstrip_by_prefix (p : char -> bool) (a b : pystr) :
  a <> [] -> lstrip_by p (a ++ b) = a ++ b -> lstrip_by p a = a.
Proof.
  unfold lstrip_by. destruct a as [|x a]; [done|]. intros _. cbn [dropwhile app].
  destruct (p x) eqn:Hx; [|done].
  intros Hd. exfalso.
  assert (length (dropwhile p (a ++ b)) <= length (a ++ b))%nat as Hlen.
  { clear. induction (a ++ b) as [|y l IH]; cbn [dropwhile]; [done|].
    destruct (p y); cbn [length]; lia. }
  rewrite Hd in Hlen. cbn [length] in Hlen. lia.
Qed.

Lemma dropwhile_length (p : char -> bool) (s : pystr) :
  (length (dropwhile p s) <= length s)%nat.
Proof.
  induction s as [|y l IH]; cbn [dropwhile]; [done|].
  destruct (p y); cbn [length]; lia.
Qed.

Lemma lstrip_by_app (p : char -> bool) (a b : pystr) :
  a <> [] -> lstrip_by p a = a -> lstrip_by p (a ++ b) = a ++ b.
Proof.
  unfold lstrip_by. destruct a as [|x a]; [done|]. intros _. cbn [dropwhile app].
  destruct (p x) eqn:Hx; [|done].
  intros Hd. pose proof (dropwhile_length p a) as Hlen.
  rewrite Hd in Hlen. cbn [length] in Hlen. lia.
Qed.

Lemma url_clean_head (u : pystr) :
  let v := remove_char c_lf (remove_char c_cr (remove_char c_tab
             (lstrip_by is_c0_or_space u))) in
  lstrip_by is_c0_or_space v = v.
Proof.
  cbn zeta. unfold lstrip_by.
  destruct (dropwhile_head is_c0_or_space u) as [->|(x & t & -> & Hx)]; [done|].
  unfold is_c0_or_space in Hx. apply N.leb_gt in Hx.
  unfold remove_char. cbn [List.filter].
  replace (x =? c_tab)%N with false by (symmetry; apply N.eqb_neq; unfold c_tab; lia).
  cbn [negb List.filter].
  replace (x =? c_cr)%N with false by (symmetry; apply N.eqb_neq; unfold c_cr; lia).
  cbn [negb List.filter].
  replace (x =? c_lf)%N with false by (symmetry; apply N.eqb_neq; unfold c_lf; lia).
  cbn [negb dropwhile]. unfold is_c0_or_space.
  by replace (x <=? 32)%N with false by (symmetry; apply N.leb_gt; lia).
Qed.

Lemma path_chars (s : pystr) :
  has_char c_qmark s = false -> has_char c_hash s = false ->
  forallb (fun c => negb (is_ctl c)) s = true ->
  forallb is_path_char s = true.
Proof.
  induction s as [|x s IH]; [done|].
  rewrite !has_char_cons. cbn [forallb].
  intros [Hq Hqs]%orb_false_elim [Hh Hhs]%orb_false_elim [Hc Hcs]%andb_prop.
  rewrite IH by done. unfold is_path_char.
  rewrite N.eqb_sym, Hq, N.eqb_sym, Hh, Hc. done.
Qed.

Lemma path_chars_inv (s : pystr) :
  forallb is_path_char s = true ->
  has_char c_qmark s = false /\ has_char c_hash s = false
  /\ forallb (fun c => negb (is_ctl c)) s = true.
Proof.
  induction s as [|x s IH]; [done|].
  rewrite !has_char_cons. cbn [forallb]. intros [Hx Hs]%andb_prop.
  destruct (IH Hs) as (-> & -> & ->). unfold is_path_char in Hx.
  apply andb_prop in Hx as [[Hq Hh]%andb_prop Hc].
  rewrite (N.eqb_sym c_qmark), (N.eqb_sym c_hash).
  apply negb_true_iff in Hq, Hh. by rewrite Hq, Hh, Hc.
Qed.

Lemma host_chars (s : pystr) :
  forallb (fun c => negb (is_netloc_delim c)) s = true ->
  forallb (fun c => negb (is_ctl c)) s = true ->
  forallb is_host_char s = true.
Proof.
  induction s as [|x s IH]; [done|].
  cbn [forallb]. intros [Hd Hds]%andb_prop [Hc Hcs]%andb_prop.
  rewrite IH by done. unfold is_host_char. by rewrite Hd, Hc.
Qed.

(** The path that [urlsplit] cuts out of the text after the host: what
    stands before the first [#] and the first [?]. *)
Lemma path_cut (url : pystr) :
  exists P w,
    (let '(url1, fragment) :=
       match partition_at c_hash url with
       | Some (u, f) => (u, f)
       | None => (url, [])
       end in
     let '(url2, query) :=
       match partition_at c_qmark url1 with
       | Some (u, q) => (u, q)
       | None => (url1, [])
       end in url2) = P
    /\ url = P ++ w /\ has_char c_qmark P = false /\ has_char c_hash P = false.
Proof.
  destruct (partition_at c_hash url) as [[u f]|] eqn:Hh.
  - apply partition_at_some in Hh as [-> Hu].
    destruct (partition_at c_qmark u) as [[u2 q]|] eqn:Hq.
    + apply partition_at_some in Hq as [-> Hu2].
      exists u2, (c_qmark :: q ++ c_hash :: f). repeat split; try done.
      * by rewrite <- app_assoc.
      * rewrite has_char_app_eq in Hu. by apply orb_false_elim in Hu as [? _].
    + apply partition_at_none_inv in Hq.
      exists u, (c_hash :: f). done.
  - apply partition_at_none_inv in Hh.
    destruct (partition_at c_qmark url) as [[u2 q]|] eqn:Hq.
    + apply partition_at_some in Hq as [-> Hu2].
      exists u2, (c_qmark :: q). repeat split; try done.
      rewrite has_char_app_eq in Hh. by apply orb_false_elim in Hh as [? _].
    + apply partition_at_none_inv in Hq.
      exists url, []. by rewrite app_nil_r.
Qed.

Section SplitLemmas.
Context `{PyLib}.

Lemma result_bind_ok {A B} (m : result A) (k : A -> result B) (b : B) :
  (x ← m; k x) = Ok b -> exists a, m = Ok a /\ k a = Ok b.
Proof. destruct m as [a|e]; [|done]. intros Hk. by exists a. Qed.

(** What [urlsplit] returns: a scheme in lower case or none, a host
    without [/], [?] and [#], a path without [?] and [#] that starts with
    a slash when there is a host. *)
Lemma urlsplit_inv (u : pystr) (r : SplitResult) :
  urlsplit u = Ok r -> split_facts (sr_scheme r) (sr_netloc r) (sr_path r).
Proof.
  unfold urlsplit.
  pose proof (url_clean_head u) as Hhead. cbn zeta in Hhead.
  pose proof (url_clean_no_ctl (lstrip_by is_c0_or_space u)) as Hctl.
  set (v := remove_char c_lf _) in *. clearbody v.
  destruct (split_scheme v) as [S rest] eqn:ES.
  intros ([N0 url'] & Hnet & Hr)%result_bind_ok.
  destruct (path_cut url') as (P & w & HP & Hurl & Hq & Hh).
  assert (sr_scheme r = S /\ sr_netloc r = N0 /\ sr_path r = P) as (-> & -> & ->).
  { revert HP Hr.
    destruct (match partition_at c_hash url' with
              | Some (u0, f) => (u0, f) | None => (url', []) end) as [url1 fr].
    destruct (match partition_at c_qmark url1 with
              | Some (u0, q) => (u0, q) | None => (url1, []) end) as [url2 qu].
    intros -> ([] & _ & [= <-])%result_bind_ok. done. }
  clear HP Hr. subst url'.
  assert (forallb (fun c => negb (is_ctl c)) rest = true
          /\ (S = [] \/ is_scheme S = true)
          /\ (S = [] -> rest = v)) as (Hrest & HS & HSv).
  { destruct (split_scheme_inv _ _ _ ES) as [[-> ->]|[HS (pre & ->)]]; [auto|].
    rewrite forallb_app in Hctl. apply andb_prop in Hctl as [_ Hctl].
    cbn [forallb] in Hctl. apply andb_prop in Hctl as [_ Hctl].
    repeat split; [done|by right|].
    intros ->. done. }
  assert (N0 = [] /\ rest = P ++ w
          \/ (rest = c_slash :: c_slash :: N0 ++ P ++ w
              /\ forallb (fun c => negb (is_netloc_delim c)) N0 = true
              /\ (P = [] \/ startswith [c_slash] P = true))) as Hcase.
  { destruct rest as [|a [|b r0]]; try (injection Hnet as <- <-; by left).
    destruct ((a =? c_slash)%N && (b =? c_slash)%N) eqn:Hab;
      [|injection Hnet as <- <-; by left].
    apply andb_prop in Hab as [->%N.eqb_eq ->%N.eqb_eq].
    destruct (span (fun c => negb (is_netloc_delim c)) r0) as [n rest'] eqn:Hsp.
    apply result_bind_ok in Hnet as ([] & _ & [= -> ->]).
    apply span_inv in Hsp as (-> & Hn & Hstop).
    right. repeat split; [done|].
    destruct P as [|x P]; [by left|right].
    destruct Hstop as [Hnil|(y & t & Hy & Hd)]; [done|].
    injection Hy as <- _. cbn [startswith].
    rewrite !has_char_cons in Hq, Hh.
    apply orb_false_elim in Hq as [Hq _]. apply orb_false_elim in Hh as [Hh _].
    apply negb_false_iff in Hd. unfold is_netloc_delim in Hd.
    rewrite (N.eqb_sym x c_qmark), (N.eqb_sym x c_hash), Hq, Hh in Hd.
    rewrite !orb_false_r in Hd. rewrite N.eqb_sym, Hd. done. }
  unfold split_facts. split; [done|].
  destruct Hcase as [[-> ->]|(-> & Hn & HP)].
  - rewrite forallb_app in Hrest. apply andb_prop in Hrest as [HPc _].
    repeat split; [by apply path_chars|].
    destruct P as [|x P]; [by left|]. right; right. split; [done|].
    intros HS0. specialize (HSv HS0). subst S. split.
    + eapply lstrip_by_prefix; [done|]. by rewrite HSv.
    + exists w. rewrite HSv in ES |- *. done.
  - cbn [forallb] in Hrest.
    apply andb_prop in Hrest as [_ [_ Hrest]%andb_prop].
    rewrite !forallb_app in Hrest.
    apply andb_prop in Hrest as [HNc [HPc _]%andb_prop].
    repeat split; [by apply host_chars|by apply path_chars|].
    destruct HP as [->|HP]; auto.
Qed.

End SplitLemmas.

(** *** The parameters of the last path segment *)

Lemma rpartition_at_some (c : char) (s a b : pystr) :
  rpartition_at c s = Some (a, b) -> s = a ++ c :: b /\ has_char c b = false.
Proof.
  revert a b. induction s as [|x r IH]; cbn [rpartition_at]; [done|].
  intros a b. destruct (rpartition_at c r) as [[a' b']|] eqn:Hr.
  - intros [= <- <-]. destruct (IH _ _ eq_refl) as [-> Hb]. done.
  - destruct (x =? c)%N eqn:Hx; [|done]. intros [= <- <-].
    apply N.eqb_eq in Hx. subst x. split; [done|].
    clear IH. induction r as [|y r IH]; [done|].
    cbn [rpartition_at] in Hr.
    destruct (rpartition_at c r) as [[a' b']|]; [done|].
    destruct (y =? c)%N eqn:Hy; [done|].
    rewrite has_char_cons, N.eqb_sym, Hy. by apply IH.
Qed.

Lemma rpartition_at_none (c : char) (s : pystr) :
  rpartition_at c s = None -> has_char c s = false.
Proof.
  induction s as [|x r IH]; [done|]. cbn [rpartition_at].
  destruct (rpartition_at c r) as [[a' b']|]; [done|].
  destruct (x =? c)%N eqn:Hx; [done|]. intros _.
  rewrite has_char_cons, N.eqb_sym, Hx. by apply IH.
Qed.

Lemma after_last_absent (c : char) (s : pystr) :
  has_char c s = false -> after_last c s = s.
Proof.
  destruct s as [|x r]; [done|]. rewrite has_char_cons.
  intros [Hx Hr]%orb_false_elim. cbn [after_last].
  by rewrite Hr, N.eqb_sym, Hx.
Qed.

Lemma after_last_app (c : char) (a b : pystr) :
  has_char c b = false -> after_last c (a ++ c :: b) = b.
Proof.
  intros Hb. induction a as [|x a IH]; cbn [app after_last].
  - by rewrite Hb, N.eqb_refl.
  - rewrite has_char_app_eq, has_char_cons, N.eqb_refl. cbn [orb].
    by rewrite orb_true_r.
Qed.

Lemma after_last_cons_sep (c : char) (s : pystr) :
  after_last c (c :: s) = after_last c s.
Proof.
  cbn [after_last]. destruct (has_char c s) eqn:Hs; [done|].
  by rewrite N.eqb_refl, after_last_absent.
Qed.

Lemma removelast_prefix {A} (l : list A) : exists b, l = removelast l ++ b.
Proof.
  induction l as [|x l [b IH]]; [by exists []|].
  destruct l as [|y l]; [by exists [x]|].
  exists b. cbn [removelast app] in *. by rewrite <- IH.
Qed.

(** [_splitparams] returns a prefix of the path, and all of it when the last
    segment has no semicolon. *)
Lemma splitparams_prefix (url : pystr) :
  exists b, url = fst (splitparams url) ++ b.
Proof.
  unfold splitparams.
  destruct (rpartition_at c_slash url) as [[dir last]|] eqn:Hr.
  - apply rpartition_at_some in Hr as [-> _].
    destruct (partition_at c_semi last) as [[a b]|] eqn:Hp.
    + apply partition_at_some in Hp as [-> _]. exists (c_semi :: b).
      cbn [fst]. by rewrite <- app_assoc.
    + exists []. cbn [fst]. by rewrite app_nil_r.
  - destruct (partition_at c_semi url) as [[a b]|] eqn:Hp.
    + apply partition_at_some in Hp as [-> _]. by exists (c_semi :: b).
    + apply removelast_prefix.
Qed.

Lemma splitparams_id (url : pystr) :
  has_char c_semi url = true ->
  has_char c_semi (after_last c_slash url) = false ->
  splitparams url = (url, []).
Proof.
  intros Hu Hlast. unfold splitparams.
  destruct (rpartition_at c_slash url) as [[dir last]|] eqn:Hr.
  - apply rpartition_at_some in Hr as [-> Hl].
    rewrite after_last_app in Hlast by done.
    by rewrite partition_at_none.
  - apply rpartition_at_none in Hr. rewrite after_last_absent in Hlast by done.
    congruence.
Qed.

Section ParseLemmas.
Context `{PyLib}.

Lemma split_facts_prefix (S N0 a b : pystr) :
  split_facts S N0 (a ++ b) -> split_facts S N0 a.
Proof.
  intros (HS & HN & HP & Hhead). repeat split; try done.
  - rewrite forallb_app in HP. by apply andb_prop in HP as [? _].
  - destruct a as [|x a]; [by left|right].
    destruct Hhead as [?|[Hs|[HN0 Hrel]]]; [done|by left|right].
    split; [done|]. intros HS0. destruct (Hrel HS0) as [Hl [w Hw]]. split.
    + by eapply lstrip_by_prefix.
    + exists (b ++ w). by rewrite app_assoc.
Qed.

(** [urlparse] returns what [urlsplit] does, with a prefix of the path. *)
Lemma urlparse_inv (u : pystr) (p : ParseResult) :
  urlparse u = Ok p -> split_facts (scheme p) (netloc p) (path p).
Proof.
  unfold urlparse. intros (r & Hr%urlsplit_inv & Hp)%result_bind_ok.
  destruct (str_in (sr_scheme r) uses_params && has_char c_semi (sr_path r)).
  - destruct (splitparams_prefix (sr_path r)) as [b Hb].
    destruct (splitparams (sr_path r)) as [pa par]. injection Hp as <-.
    cbn [scheme netloc path fst] in *. rewrite Hb in Hr.
    by apply split_facts_prefix in Hr.
  - by injection Hp as <-.
Qed.

End ParseLemmas.

(** ** Splitting a URL that [urlunsplit] wrote *)

Lemma is_query_char_not (c : char) :
  is_query_char c = true ->
  c <> c_hash /\ c <> c_qmark /\ c <> c_colon /\ c <> c_semi /\ is_ctl c = false.
Proof.
  unfold is_query_char, always_safe, is_ctl, char in *.
  intros Hc.
  assert ((c = 37 \/ c = 38 \/ c = 43 \/ c = 45 \/ c = 46 \/ c = 61 \/ c = 95
           \/ c = 126 \/ 48 <= c <= 57 \/ 65 <= c <= 90 \/ 97 <= c <= 122)%N) as Hr.
  { revert Hc. unfold is_alnum, is_alpha, is_upper, is_lower, is_digit, in_range,
      c_plus, c_pct, c_eq, c_amp, c_dot, c_hyphen.
    intros Hc. repeat (apply orb_prop in Hc as [Hc|Hc]); bool_to_prop;
      lia. }
  unfold c_hash, c_qmark, c_colon, c_semi, c_tab, c_lf, c_cr.
  repeat split; try lia. cmp_goal. done.
Qed.

Lemma query_chars_no (c : char) (qs : pystr) :
  is_query_char c = false -> forallb is_query_char qs = true ->
  has_char c qs = false.
Proof.
  intros Hc. induction qs as [|x qs IH]; [done|].
  cbn [forallb]. intros [Hx Hqs]%andb_prop.
  rewrite has_char_cons, IH by done. rewrite orb_false_r.
  apply N.eqb_neq. intros ->. congruence.
Qed.

Lemma query_chars_no_ctl (qs : pystr) :
  forallb is_query_char qs = true ->
  forallb (fun c => negb (is_ctl c)) qs = true.
Proof.
  rewrite !forallb_forall. intros Hq x Hx.
  destruct (is_query_char_not _ (Hq x Hx)) as (_ & _ & _ & _ & ->). done.
Qed.

Section Rebuild.
Context `{PyLib}.

(** [urlsplit] step by step, on a text without a fragment: the tests on
    the host are all that can raise. *)
Lemma urlsplit_eq (u S rest n P qs : pystr) :
  lstrip_by is_c0_or_space u = u ->
  forallb (fun c => negb (is_ctl c)) u = true ->
  split_scheme u = (S, rest) ->
  match rest with
  | a :: b :: r =>
      if (a =? c_slash)%N && (b =? c_slash)%N then
        let '(netloc, rest) := span (fun c => negb (is_netloc_delim c)) r in
        _ ← check_brackets netloc; Ok (netloc, rest)
      else Ok ([], rest)
  | _ => Ok ([], rest)
  end = (_ ← check_brackets n; Ok (n, P ++ qpart qs)) ->
  forallb is_path_char P = true ->
  forallb is_query_char qs = true ->
  urlsplit u = (_ ← check_brackets n; _ ← checknetloc n;
                Ok {| sr_scheme := S; sr_netloc := n; sr_path := P;
                      sr_query := qs; sr_fragment := [] |}).
Proof.
  intros Hstrip Hctl HS Hnet (HPq & HPh & _)%path_chars_inv Hqs.
  unfold urlsplit. rewrite Hstrip, (url_clean_id _ Hctl), HS.
  cbv beta iota zeta.
  match goal with
  | |- (?m ≫= _) = _ =>
      assert (m = (_ ← check_brackets n; Ok (n, P ++ qpart qs))) as ->
        by exact Hnet
  end.
  destruct (check_brackets n) as [[]|e]; [|done].
  cbn [mbind result_bind].
  assert (has_char c_hash (qpart qs) = false) as Hqh.
  { destruct qs as [|q qs]; [done|]. unfold qpart.
    rewrite has_char_cons. by rewrite (query_chars_no c_hash (q :: qs)). }
  rewrite (partition_at_none c_hash) by by rewrite has_char_app_eq, HPh, Hqh.
  destruct qs as [|q qs]; unfold qpart.
  - by rewrite app_nil_r, (partition_at_none c_qmark) by done.
  - by rewrite partition_at_app by done.
Qed.

Lemma rooted_slash (pa : pystr) : exists t, rooted pa = c_slash :: t.
Proof.
  unfold rooted. destruct (startswith [c_slash] pa) eqn:Hs; [|by eexists].
  destruct pa as [|x t]; [done|]. cbn [startswith] in Hs.
  apply andb_prop in Hs as [->%N.eqb_eq _]. by eexists.
Qed.

Lemma rooted_path_chars (pa : pystr) :
  forallb is_path_char pa = true -> forallb is_path_char (rooted pa) = true.
Proof. unfold rooted. by destruct (startswith [c_slash] pa). Qed.

Lemma no_ctl_scheme (S : pystr) :
  is_scheme S = true -> forallb (fun c => negb (is_ctl c)) S = true.
Proof.
  destruct S as [|c0 S]; [done|]. cbn [is_scheme].
  intros [[_ Hs]%andb_prop _]%andb_prop.
  rewrite forallb_forall in Hs. apply forallb_forall. intros x Hx.
  destruct (is_scheme_char_not _ (Hs x Hx)) as (_ & _ & ->). done.
Qed.

Lemma no_ctl_host (n : pystr) :
  forallb is_host_char n = true -> forallb (fun c => negb (is_ctl c)) n = true.
Proof.
  rewrite !forallb_forall. intros Hn x Hx. specialize (Hn x Hx).
  unfold is_host_char in Hn. by apply andb_prop in Hn as [_ ?].
Qed.

Lemma no_delim_host (n : pystr) :
  forallb is_host_char n = true ->
  forallb (fun c => negb (is_netloc_delim c)) n = true.
Proof.
  rewrite !forallb_forall. intros Hn x Hx. specialize (Hn x Hx).
  unfold is_host_char in Hn. by apply andb_prop in Hn as [? _].
Qed.

Lemma no_ctl_qpart (qs : pystr) :
  forallb is_query_char qs = true ->
  forallb (fun c => negb (is_ctl c)) (qpart qs) = true.
Proof.
  intros Hqs. destruct qs as [|q qs]; [done|]. unfold qpart.
  change (forallb (fun c => negb (is_ctl c)) (q :: qs) = true).
  by apply query_chars_no_ctl.
Qed.

Lemma qpart_no_colon (qs : pystr) :
  forallb is_query_char qs = true -> has_char c_colon (qpart qs) = false.
Proof.
  intros Hqs. destruct qs as [|q qs]; [done|]. unfold qpart.
  rewrite has_char_cons. by rewrite (query_chars_no c_colon (q :: qs)).
Qed.

(** The text that [urlunsplit] writes. *)
Lemma urlunsplit_form (S n pa qs : pystr) :
  pa <> [] ->
  urlunsplit S n pa qs [] =
    (match S with [] => [] | _ => S ++ [c_colon] end)
    ++ (if writes_netloc S n pa
        then c_slash :: c_slash :: n ++ rooted pa else pa)
    ++ qpart qs.
Proof.
  intros Hpa. unfold urlunsplit, writes_netloc, rooted.
  set (b := _ || _). destruct b.
  - destruct pa as [|x t]; [done|]. cbn [startswith].
    rewrite andb_true_r, (N.eqb_sym c_slash x).
    destruct S as [|c0 S], qs as [|q qs]; unfold qpart;
      repeat (progress (rewrite <- ?app_assoc, ?app_nil_r; cbn [app]));
      reflexivity.
  - destruct S as [|c0 S], qs as [|q qs]; unfold qpart;
      repeat (progress (rewrite <- ?app_assoc, ?app_nil_r; cbn [app]));
      reflexivity.
Qed.

(** [urlsplit] finds in a URL that [urlunsplit] wrote the parts it was
    written from, the path with the slash that [urlunsplit] put before it. *)
Lemma urlsplit_urlunsplit (S n pa qs : pystr) :
  (S = [] \/ is_scheme S = true) ->
  forallb is_host_char n = true ->
  pa <> [] -> forallb is_path_char pa = true ->
  (startswith [c_slash] pa = true
   \/ (n = []
       /\ (S = [] ->
           lstrip_by is_c0_or_space pa = pa
           /\ exists w, split_scheme (pa ++ w) = ([], pa ++ w)))) ->
  (n = [] -> startswith [c_slash; c_slash] pa = false) ->
  forallb is_query_char qs = true ->
  urlsplit (urlunsplit S n pa qs [])
  = (_ ← check_brackets n; _ ← checknetloc n;
     Ok {| sr_scheme := S; sr_netloc := n;
           sr_path := if writes_netloc S n pa then rooted pa else pa;
           sr_query := qs; sr_fragment := [] |}).
Proof.
  intros HS Hn Hpa HP Hhead Hdbl Hqs.
  rewrite urlunsplit_form by done.
  set (core := if writes_netloc S n pa
               then c_slash :: c_slash :: n ++ rooted pa else pa).
  assert (forallb (fun c => negb (is_ctl c)) core = true) as Hcore.
  { unfold core. destruct (writes_netloc S n pa).
    - cbn [forallb]. rewrite forallb_app, (no_ctl_host _ Hn).
      apply rooted_path_chars in HP.
      by apply path_chars_inv in HP as (_ & _ & ->).
    - by apply path_chars_inv in HP as (_ & _ & ->). }
  assert (S = [] ->
          lstrip_by is_c0_or_space core = core
          /\ split_scheme (core ++ qpart qs) = ([], core ++ qpart qs)) as Hrel.
  { intros ->. unfold core.
    destruct (writes_netloc [] n pa) eqn:Hw.
    - split; [done|]. apply split_scheme_slash.
    - destruct Hhead as [Hs|[_ Hrel]].
      + destruct pa as [|x t]; [done|]. cbn [startswith] in Hs.
        apply andb_prop in Hs as [<-%N.eqb_eq _].
        split; [done|]. apply split_scheme_slash.
      + destruct (Hrel eq_refl) as [Hl [w Hw']]. split; [done|].
        eapply split_scheme_none; [done|]. by apply qpart_no_colon. }
  eapply (urlsplit_eq _ S (core ++ qpart qs)); try done.
  - destruct HS as [->|HS]; [|destruct S as [|c0 S]; [done|]].
    + destruct (Hrel eq_refl) as [Hl _]. cbn [app].
      apply lstrip_by_app; [|done].
      unfold core. by destruct (writes_netloc [] n pa).
    + cbn [is_scheme] in HS. apply andb_prop in HS as [[Hal _]%andb_prop _].
      unfold lstrip_by. cbn [app dropwhile].
      replace (is_c0_or_space c0) with false; [done|].
      symmetry. unfold is_c0_or_space. apply N.leb_gt.
      unfold is_alpha, is_upper, is_lower, in_range in Hal.
      apply orb_prop in Hal as [Hal|Hal]; bool_to_prop; unfold char in *; lia.
  - rewrite !forallb_app, Hcore, (no_ctl_qpart _ Hqs), andb_true_r.
    destruct HS as [->|HS]; [done|]. destruct S as [|c0 S]; [done|].
    rewrite forallb_app, (no_ctl_scheme _ HS). done.
  - destruct HS as [->|HS]; [by apply Hrel|]. destruct S as [|c0 S]; [done|].
    rewrite <- app_assoc. exact (split_scheme_scheme (c0 :: S) _ HS).
  - unfold core. destruct (writes_netloc S n pa) eqn:Hw.
    + cbn [app]. rewrite N.eqb_refl. cbn [andb].
      destruct (rooted_slash pa) as [t ->].
      rewrite <- app_assoc. cbn [app].
      by rewrite (span_stop _ n) by (by try apply no_delim_host).
    + assert (n = []) as -> by (unfold writes_netloc in Hw; by destruct n).
      specialize (Hdbl eq_refl).
      destruct pa as [|a [|b t]]; [done| |].
      * cbn [startswith] in Hdbl. destruct qs as [|q qs]; [done|].
        unfold qpart. cbn [app].
        by replace (c_qmark =? c_slash)%N with false; rewrite ?andb_false_r.
      * cbn [startswith] in Hdbl. rewrite andb_true_r in Hdbl.
        cbn [app]. by rewrite (N.eqb_sym a), (N.eqb_sym b), Hdbl.
  - destruct (writes_netloc S n pa); [by apply rooted_path_chars|done].
Qed.

End Rebuild.

(** ** The parts of a normalized URL *)

Lemma query_char_of_quoted (c : char) :
  always_safe c || (c =? c_plus)%N || (c =? c_pct)%N = true ->
  is_query_char c = true.
Proof. unfold is_query_char. intros ->. done. Qed.

Lemma join_with_chars (p : char -> bool) (c : char) (l : list pystr) :
  p c = true -> Forall (fun w => forallb p w = true) l ->
  forallb p (join_with c l) = true.
Proof.
  intros Hc. induction 1 as [|w l Hw Hl IH]; [done|].
  cbn [join_with]. destruct l as [|w' l]; [done|].
  rewrite forallb_app, Hw. cbn [forallb andb]. by rewrite Hc, IH.
Qed.

Lemma forallb_drop {A} (p : A -> bool) (k : nat) (l : list A) :
  forallb p l = true -> forallb p (drop k l) = true.
Proof.
  revert k. induction l as [|x l IH]; intros [|k]; cbn [drop forallb]; try done.
  intros [_ Hl]%andb_prop. by apply IH.
Qed.

Lemma ascii_lower_ascii (c : char) :
  is_ascii_char c = true -> is_ascii_char (ascii_lower c) = true.
Proof.
  unfold ascii_lower. destruct (is_upper c) eqn:Hu; [|done]. intros _.
  unfold is_upper, in_range in Hu. bool_to_prop.
  unfold is_ascii_char. apply N.ltb_lt. unfold char in *. lia.
Qed.

Lemma ascii_lower_host_char (c : char) :
  is_host_char c = true -> is_host_char (ascii_lower c) = true.
Proof.
  unfold ascii_lower. destruct (is_upper c) eqn:Hu; [|done]. intros _.
  unfold is_upper, in_range in Hu. bool_to_prop.
  unfold is_host_char, is_netloc_delim, is_ctl, c_slash, c_qmark, c_hash,
    c_tab, c_lf, c_cr.
  cmp_goal. done.
Qed.

Lemma rstrip_by_prefix (p : char -> bool) (s : pystr) :
  exists b, s = rstrip_by p s ++ b.
Proof.
  unfold rstrip_by.
  assert (forall l : pystr, exists a, l = a ++ dropwhile p l) as Hsuf.
  { induction l as [|x l [a IH]]; [by exists []|]. cbn [dropwhile].
    destruct (p x); [|by exists []]. exists (x :: a). cbn [app]. by rewrite <- IH. }
  destruct (Hsuf (rev s)) as [a Ha]. exists (rev a).
  rewrite <- rev_app_distr, <- Ha. by rewrite rev_involutive.
Qed.

Lemma rstrip_by_end (c : char) (s : pystr) :
  endswith [c] (rstrip_by (N.eqb c) s) = false.
Proof.
  unfold endswith, rstrip_by. rewrite rev_involutive. cbn [rev app].
  destruct (dropwhile_head (N.eqb c) (rev s)) as [->|(x & t & -> & Hx)]; [done|].
  cbn [startswith]. by rewrite Hx.
Qed.

Lemma endswith_cons (c x : char) (s : pystr) :
  s <> [] -> endswith [c] (x :: s) = endswith [c] s.
Proof.
  unfold endswith. cbn [rev app]. intros Hs.
  destruct (rev s) as [|y l] eqn:Hr; [|done].
  apply (f_equal (@rev _)) in Hr. rewrite rev_involutive in Hr. done.
Qed.

(** A path in normal form: not empty, and without a slash at its end unless
    it is the root. *)
Lemma normalize_path_normal (P : pystr) :
  let pa := normalize_path P in
  pa <> [] -> pa = [c_slash] \/ endswith [c_slash] pa = false.
Proof.
  cbn zeta. unfold normalize_path.
  set (P1 := match P with [] => [c_slash] | _ => P end).
  unfold str_eqb. case_bool_decide as Heq; cbn [negb andb]; [by left|].
  destruct (endswith [c_slash] P1) eqn:He; [|by right].
  intros _. right. apply rstrip_by_end.
Qed.

Lemma normalize_path_id (pa : pystr) :
  pa <> [] -> pa = [c_slash] \/ endswith [c_slash] pa = false ->
  normalize_path pa = pa.
Proof.
  intros Hpa Hn. unfold normalize_path.
  destruct pa as [|x t]; [done|].
  destruct Hn as [Hn | ->]; [by injection Hn as -> ->|]. by rewrite andb_false_r.
Qed.

Lemma normalize_path_prefix (P : pystr) :
  normalize_path P = [c_slash] \/ exists b, P = normalize_path P ++ b.
Proof.
  unfold normalize_path. destruct P as [|x t]; [by left|].
  destruct (negb (str_eqb (x :: t) [c_slash]) && endswith [c_slash] (x :: t)).
  - right. apply rstrip_by_prefix.
  - right. exists []. by rewrite app_nil_r.
Qed.

Lemma rooted_normal (pa : pystr) :
  pa <> [] -> pa = [c_slash] \/ endswith [c_slash] pa = false ->
  rooted pa = [c_slash] \/ endswith [c_slash] (rooted pa) = false.
Proof.
  intros Hpa Hn. unfold rooted.
  destruct (startswith [c_slash] pa) eqn:Hs; [done|].
  destruct Hn as [->|Hn]; [done|]. right. by rewrite endswith_cons.
Qed.

Lemma rooted_idemp (pa : pystr) : rooted (rooted pa) = rooted pa.
Proof.
  unfold rooted. destruct (startswith [c_slash] pa) eqn:Hs; [by rewrite Hs|].
  cbn [startswith]. by rewrite N.eqb_refl.
Qed.

Lemma after_last_rooted (pa : pystr) :
  after_last c_slash (rooted pa) = after_last c_slash pa.
Proof.
  unfold rooted. destruct (startswith [c_slash] pa); [done|].
  apply after_last_cons_sep.
Qed.

Section NormalParts.
Context `{PyLib}.

Lemma urlencode_chars (q : list (pystr * pystr)) (qs : pystr) :
  urlencode q = Ok qs -> forallb is_query_char qs = true.
Proof.
  unfold urlencode. intros (l & Hl & [= <-])%result_bind_ok.
  apply join_with_chars; [done|].
  apply urlencode_items_words in Hl.
  induction Hl as [|kv w q l (k' & v' & Hk & Hv & ->) _ IH]; constructor; [|done].
  rewrite forallb_app. cbn [forallb].
  apply quote_plus_chars in Hk, Hv.
  rewrite forallb_forall in Hk, Hv.
  apply andb_true_intro. split; [|apply andb_true_intro; split; [done|]].
  - apply forallb_forall. intros x Hx. apply query_char_of_quoted. by apply Hk.
  - apply forallb_forall. intros x Hx. apply query_char_of_quoted. by apply Hv.
Qed.

(** The host in normal form: its characters stay those of a host, and
    without a second "www." it is normalized to itself. *)
Lemma normalize_netloc_chars (n : pystr) :
  forallb is_host_char n = true -> isascii n = true ->
  let n' := normalize_netloc n in
  forallb is_host_char n' = true /\ isascii n' = true
  /\ forallb (fun c => negb (is_upper c)) n' = true.
Proof.
  intros Hn Hasc. cbn zeta. unfold normalize_netloc.
  rewrite lower_ascii by done.
  assert (forallb is_host_char (map ascii_lower n) = true
          /\ isascii (map ascii_lower n) = true
          /\ forallb (fun c => negb (is_upper c)) (map ascii_lower n) = true)
    as (H1 & H2 & H3).
  { unfold isascii in *. rewrite !forallb_map_eq.
    rewrite forallb_forall in Hn, Hasc. repeat split; apply forallb_forall.
    - intros x Hx. apply ascii_lower_host_char. by apply Hn.
    - intros x Hx. apply ascii_lower_ascii. by apply Hasc.
    - intros x Hx. by rewrite ascii_lower_not_upper. }
  destruct (startswith (py "www.") (map ascii_lower n)); [|done].
  unfold isascii in *. repeat split; by apply forallb_drop.
Qed.

Lemma normalize_netloc_id (n : pystr) :
  lower n = n -> startswith (py "www.") n = false -> normalize_netloc n = n.
Proof. intros Hl Hw. unfold normalize_netloc. by rewrite Hl, Hw. Qed.

Lemma normalize_netloc_ascii (n : pystr) :
  forallb is_host_char n = true -> isascii n = true ->
  forallb is_host_char (normalize_netloc n) = true
  /\ lower (normalize_netloc n) = normalize_netloc n.
Proof.
  intros Hn Hasc. destruct (normalize_netloc_chars n Hn Hasc) as (H1 & H2 & H3).
  split; [done|]. by rewrite lower_ascii, map_ascii_lower_id.
Qed.

Lemma normalize_netloc_nil (n : pystr) : n = [] -> normalize_netloc n = [].
Proof. intros ->. done. Qed.

(** [urlunsplit] writes a path and the path with the slash it puts in front
    in the same way. *)
Lemma writes_netloc_rooted (S n pa : pystr) :
  writes_netloc S n pa = true -> writes_netloc S n (rooted pa) = true.
Proof.
  unfold writes_netloc, rooted. destruct n as [|x n]; [|done]. cbn [orb].
  destruct (startswith [c_slash] pa) eqn:Hs; [done|].
  intros [HS _]%andb_prop. rewrite HS. cbn [startswith]. rewrite N.eqb_refl.
  destruct pa as [|y t]; [done|]. cbn [startswith] in Hs |- *.
  rewrite andb_true_r in Hs |- *. by rewrite Hs.
Qed.

Lemma urlunsplit_rooted (S n pa qs : pystr) :
  pa <> [] ->
  urlunsplit S n (if writes_netloc S n pa then rooted pa else pa) qs []
  = urlunsplit S n pa qs [].
Proof.
  intros Hpa. destruct (writes_netloc S n pa) eqn:Hw; [|done].
  assert (rooted pa <> []) as Hr by (destruct (rooted_slash pa) as [t ->]; done).
  rewrite !urlunsplit_form by done.
  by rewrite (writes_netloc_rooted _ _ _ Hw), Hw, rooted_idemp.
Qed.

End NormalParts.

(** ** Normalizing twice *)

Lemma endswith_app (c : char) (a b : pystr) :
  b <> [] -> endswith [c] (a ++ b) = endswith [c] b.
Proof.
  intros Hb. induction a as [|x a IH]; [done|].
  cbn [app]. rewrite endswith_cons; [done|]. by destruct a.
Qed.

Lemma after_last_app_sep (c : char) (a b : pystr) :
  after_last c (a ++ c :: b) = after_last c (c :: b).
Proof.
  induction a as [|x a IH]; [done|].
  rewrite <- IH. cbn [app].
  assert (has_char c (a ++ c :: b) = true) as Hin.
  { rewrite has_char_app_eq, has_char_cons, N.eqb_refl. cbn [orb].
    apply orb_true_r. }
  generalize dependent (a ++ c :: b). intros s _ Hin.
  cbn [after_last]. by rewrite Hin.
Qed.

Section Idempotence.
Context `{PyLib}.

(** [urlparse] of a URL that [urlunsplit] wrote from a scheme, a host, a
    path and a query. *)
Lemma urlparse_urlunsplit (S n pa qs : pystr) :
  (S = [] \/ is_scheme S = true) ->
  forallb is_host_char n = true ->
  pa <> [] -> forallb is_path_char pa = true ->
  (startswith [c_slash] pa = true
   \/ (n = []
       /\ (S = [] ->
           lstrip_by is_c0_or_space pa = pa
           /\ exists w, split_scheme (pa ++ w) = ([], pa ++ w)))) ->
  (n = [] -> startswith [c_slash; c_slash] pa = false) ->
  (str_in S uses_params = true ->
   has_char c_semi (after_last c_slash pa) = false) ->
  forallb is_query_char qs = true ->
  urlparse (urlunsplit S n pa qs [])
  = (_ ← check_brackets n; _ ← checknetloc n;
     Ok {| scheme := S; netloc := n;
           path := if writes_netloc S n pa then rooted pa else pa;
           params := []; query := qs; fragment := [] |}).
Proof.
  intros HS Hn Hpa HP Hhead Hdbl Hsemi Hqs.
  unfold urlparse. rewrite urlsplit_urlunsplit by done.
  destruct (check_brackets n) as [[]|e]; [|done].
  destruct (checknetloc n) as [[]|e]; [|done].
  cbn [mbind result_bind sr_scheme sr_path sr_netloc sr_query sr_fragment].
  set (pa' := if writes_netloc S n pa then rooted pa else pa).
  destruct (str_in S uses_params && has_char c_semi pa') eqn:Hc; [|done].
  apply andb_prop in Hc as [HSp Hc]. rewrite splitparams_id; [done|done|].
  unfold pa'. destruct (writes_netloc S n pa).
  - rewrite after_last_rooted. by apply Hsemi.
  - by apply Hsemi.
Qed.

Lemma normal_parts_inv (S h rest : pystr) :
  normal_parts S h rest = true ->
  forallb is_host_char h = true
  /\ lower h = h
  /\ startswith (py "www.") h = false
  /\ rest <> []
  /\ (h = [] -> startswith [c_slash; c_slash] rest = false)
  /\ (str_in S uses_params = true ->
      has_char c_semi (after_last c_slash rest) = false).
Proof.
  unfold normal_parts. intros Hr.
  apply andb_prop in Hr as [Hr H6]. apply andb_prop in Hr as [Hr H5].
  apply andb_prop in Hr as [Hr H4]. apply andb_prop in Hr as [Hr H3].
  apply andb_prop in Hr as [H1 H2].
  apply negb_true_iff in H3, H4, H5, H6.
  repeat split; try done.
  - unfold str_eqb in H2. by case_bool_decide.
  - intros Hnil. unfold str_eqb in H4. by rewrite Hnil, bool_decide_eq_true_2 in H4.
  - intros Hnil. unfold str_eqb in H5. rewrite Hnil in H5.
    by rewrite bool_decide_eq_true_2 in H5.
  - intros HSp. by rewrite HSp in H6.
Qed.

(** The normalizer leaves a URL as it is that [urlunsplit] wrote from parts
    in normal form. *)
Lemma normalize_normal_parts (S h rest qs : pystr) :
  (S = [] \/ is_scheme S = true) ->
  normal_parts S h rest = true ->
  forallb is_path_char rest = true ->
  rest = [c_slash] \/ endswith [c_slash] rest = false ->
  (startswith [c_slash] rest = true
   \/ (h = []
       /\ (S = [] ->
           lstrip_by is_c0_or_space rest = rest
           /\ exists w, split_scheme (rest ++ w) = ([], rest ++ w)))) ->
  urlencode (normalize_query qs) = Ok qs ->
  normalize_url_str (urlunsplit S h rest qs []) = urlunsplit S h rest qs [].
Proof.
  intros HS (Hh & Hlow & Hwww & Hrest & Hdbl & Hsemi)%normal_parts_inv
    HP Hnormal Hhead Hqs.
  unfold normalize_url_str, normalize_url_try.
  rewrite urlparse_urlunsplit by (try done; by eapply urlencode_chars).
  destruct (check_brackets h) as [[]|e]; [|done].
  destruct (checknetloc h) as [[]|e]; [|done].
  cbn [mbind result_bind scheme netloc path query].
  rewrite (normalize_netloc_id h) by done. rewrite Hqs.
  cbn [mbind result_bind]. unfold urlunparse.
  rewrite normalize_path_id.
  - by apply urlunsplit_rooted.
  - destruct (writes_netloc S h rest); [|done].
    by destruct (rooted_slash rest) as [t ->].
  - destruct (writes_netloc S h rest); [|done].
    by apply rooted_normal.
Qed.

(** What the normalizer returns when nothing raises. *)
Lemma normalize_url_try_ok (u normalized : pystr) :
  normalize_url_try u = Ok normalized ->
  exists p qs,
    urlparse u = Ok p
    /\ urlencode (normalize_query (query p)) = Ok qs
    /\ normalized = urlunsplit (scheme p) (normalize_netloc (netloc p))
                               (normalize_path (path p)) qs [].
Proof.
  unfold normalize_url_try.
  intros (p & Hp & (qs & Hqs & [= <-])%result_bind_ok)%result_bind_ok.
  by exists p, qs.
Qed.

Lemma urlunsplit_not_empty (S n pa qs : pystr) :
  pa <> [] -> urlunsplit S n pa qs [] <> [].
Proof.
  intros Hpa. rewrite urlunsplit_form by done.
  destruct S as [|c0 S]; [|done]. cbn [app].
  destruct (writes_netloc [] n pa); [done|]. by destruct pa.
Qed.

(** The path that the normalizer writes, for a URL that [urlparse]
    accepts. *)
Lemma normalize_path_facts (u : pystr) (p : ParseResult) :
  urlparse u = Ok p ->
  let S := scheme p in
  let host := normalize_netloc (netloc p) in
  let pa := normalize_path (path p) in
  (S = [] \/ is_scheme S = true)
  /\ forallb is_path_char pa = true
  /\ (pa <> [] -> pa = [c_slash] \/ endswith [c_slash] pa = false)
  /\ (pa = [] \/ startswith [c_slash] pa = true
      \/ (host = []
          /\ (S = [] ->
              lstrip_by is_c0_or_space pa = pa
              /\ exists w, split_scheme (pa ++ w) = ([], pa ++ w)))).
Proof.
  intros Hp S host pa.
  destruct (urlparse_inv _ _ Hp) as (HS & Hn & HP & Hhead).
  split; [done|]. split; [|split; [apply normalize_path_normal|]].
  - destruct (normalize_path_prefix (path p)) as [Hroot|[b Hb]].
    + fold pa in Hroot. by rewrite Hroot.
    + fold pa in Hb. rewrite Hb, forallb_app in HP.
      by apply andb_prop in HP as [? _].
  - destruct (normalize_path_prefix (path p)) as [Hroot|[b Hb]].
    + right; left. fold pa in Hroot. by rewrite Hroot.
    + fold pa in Hb.
      assert (split_facts (scheme p) (netloc p) pa) as (_ & _ & _ & Hh).
      { apply (split_facts_prefix _ _ _ b). by rewrite <- Hb. }
      destruct Hh as [?|[?|[Hnil Hrel]]]; [by left|by right; left|right; right].
      split; [|done]. unfold host. by rewrite Hnil.
Qed.

(** The URL that the normalizer writes of a regular URL is written from
    parts in normal form, when [urlparse] accepts it. *)
Lemma regular_url_parts (u normalized : pystr) :
  regular_url u = true ->
  normalize_url_try u = Ok normalized ->
  normalized <> []
  /\ ((exists e, urlparse normalized = Raise e)
      \/ normalize_url_str normalized = normalized).
Proof.
  intros Hr Htry. unfold regular_url in Hr. rewrite Htry in Hr.
  destruct (normalize_url_try_ok _ _ Htry) as (p & qs & Hp & Hqs & ->).
  rewrite Hp in Hr.
  set (S := scheme p) in *.
  set (host := normalize_netloc (netloc p)) in *.
  set (pa := normalize_path (path p)) in *.
  destruct (normalize_path_facts _ _ Hp) as (HS & HP & Hnormal & Hhead).
  fold S host pa in HS, HP, Hnormal, Hhead.
  assert (urlencode (normalize_query qs) = Ok qs) as Hqs'
    by (by rewrite (normalize_query_urlencode _ _ Hqs)).
  destruct (urlparse (urlunsplit S host pa qs [])) as [p2|e] eqn:Hp2.
  2:{ split; [|left; by exists e]. intros Hnil. by rewrite Hnil in Hp2. }
  destruct (str_eqb host [] && startswith [c_slash; c_slash] pa) eqn:Hre.
  - (* the path is read back as a host and a path *)
    apply andb_prop in Hre as [Hhost Hpa].
    unfold str_eqb in Hhost. apply bool_decide_eq_true_1 in Hhost.
    destruct pa as [|a [|b r]] eqn:Epa;
      [done | by cbn [startswith] in Hpa; rewrite andb_false_r in Hpa |].
    cbn [startswith] in Hpa. rewrite andb_true_r in Hpa.
    apply andb_prop in Hpa as [<-%N.eqb_eq <-%N.eqb_eq].
    cbn [drop] in Hr. rewrite drop_0 in Hr.
    destruct (span (fun c => negb (c =? c_slash)%N) r) as [h rest] eqn:Hsp.
    apply andb_prop in Hr as [Hw Hr].
    pose proof (normal_parts_inv _ _ _ Hr) as (_ & _ & _ & Hrest & Hdbl & _).
    apply span_inv in Hsp as (-> & _ & Hstop).
    destruct Hstop as [->|(x & t & -> & Hx)]; [done|].
    apply negb_false_iff, N.eqb_eq in Hx. subst x.
    split; [by apply urlunsplit_not_empty|]. right.
    assert (urlunsplit S host (c_slash :: c_slash :: h ++ c_slash :: t) qs []
            = urlunsplit S h (c_slash :: t) qs []) as ->.
    { rewrite !urlunsplit_form by done. rewrite Hhost.
      assert (writes_netloc S [] (c_slash :: c_slash :: h ++ c_slash :: t) = false)
        as -> by (unfold writes_netloc; cbn; by rewrite andb_false_r).
      assert (writes_netloc S h (c_slash :: t) = true) as ->.
      { apply orb_prop in Hw as [Hw|Hw]; [|by destruct h].
        unfold writes_netloc. destruct h; [|done].
        unfold str_eqb in Hw. by rewrite bool_decide_eq_true_2 in Hw. }
      unfold rooted. cbn [startswith]. rewrite N.eqb_refl. done. }
    apply normalize_normal_parts; try done.
    + cbn [forallb] in HP. apply andb_prop in HP as [_ [_ HP]%andb_prop].
      rewrite forallb_app in HP. by apply andb_prop in HP as [_ ?].
    + right. destruct (Hnormal ltac:(done)) as [?|Hend]; [done|].
      change (c_slash :: c_slash :: h ++ c_slash :: t)
        with ((c_slash :: c_slash :: h) ++ c_slash :: t) in Hend.
      by rewrite endswith_app in Hend.
    + by left.
  - (* the host and the path are read back *)
    pose proof (normal_parts_inv _ _ _ Hr) as (_ & _ & _ & Hpa & _).
    split; [by apply urlunsplit_not_empty|]. right.
    apply normalize_normal_parts; try done; [by apply Hnormal|].
    by destruct Hhead as [?|[?|?]]; [|left|right].
Qed.

Lemma normalize_url_str_raise (u : pystr) :
  (exists e, urlparse u = Raise e) -> normalize_url_str u = u.
Proof.
  intros [e He]. unfold normalize_url_str, normalize_url_try. by rewrite He.
Qed.

Lemma normalize_url_str_twice (u : pystr) :
  regular_url u = true ->
  normalize_url_str (normalize_url_str u) = normalize_url_str u.
Proof.
  intros Hr. unfold normalize_url_str at 2 3.
  destruct (normalize_url_try u) as [normalized|e] eqn:Htry.
  - destruct (regular_url_parts _ _ Hr Htry) as [_ [Hraise|Hfix]]; [|done].
    by apply normalize_url_str_raise.
  - unfold normalize_url_str. by rewrite Htry.
Qed.

Lemma normalize_url_str_not_empty (u : pystr) :
  regular_url u = true -> u <> [] -> normalize_url_str u <> [].
Proof.
  intros Hr Hu. unfold normalize_url_str.
  destruct (normalize_url_try u) as [normalized|e] eqn:Htry; [|done].
  by destruct (regular_url_parts _ _ Hr Htry) as [? _].
Qed.

End Idempotence.

Section IdentityNormalizer.
Context `{PyLib}.

Lemma normalize_url_fixed (u : pystr) :
  regular_url u = true -> u <> [] ->
  normalize_url (normalize_url (JStr u)) = normalize_url (JStr u)
  /\ normalize_url (JStr u) = JStr (normalize_url_str u).
Proof.
  intros Hr Hu. destruct u as [|c u]; [done|].
  assert (normalize_url (JStr (c :: u)) = JStr (normalize_url_str (c :: u))) as Hn
    by done.
  split; [|done]. rewrite Hn.
  pose proof (normalize_url_str_not_empty _ Hr Hu) as Hne.
  unfold normalize_url. destruct (normalize_url_str (c :: u)) as [|d v] eqn:Hs; [done|].
  cbn [truthy negb]. rewrite <- Hs. by rewrite normalize_url_str_twice.
Qed.

(** C3 (amended).  The Identity Normalizer is idempotent on the regular
    URLs: [normalize_url(normalize_url(u))] equals [normalize_url(u)] for
    every URL string [u] that the normalizer returns as it is because
    [urlparse] or [urlencode] raises, or whose normalized URL [urlparse]
    rejects, or of which the normalizer writes parts in normal form: a host
    that does not start with "www." again, and a path that is not made of
    slashes only and does not hide path parameters behind its trailing
    slashes; with no host and a path that starts with two slashes, the host
    and the path that are read back from that path are to be in normal
    form. *)
Theorem normalize_url_idempotent_on_regular_urls (u : pystr) :
  regular_url u = true ->
  normalize_url (normalize_url (JStr u)) = normalize_url (JStr u).
Proof.
  intros Hr. destruct u as [|c u]; [done|].
  by apply normalize_url_fixed.
Qed.

End IdentityNormalizer.

(** C3, as stated, fails.  Of a host that starts with "www." twice the
    normalizer removes one "www." each time.  Of a path made of slashes it
    leaves nothing, and then writes the root.  The trailing slash that it
    removes may uncover path parameters, which it removes the next time.  A
    path behind an empty host is read as a host the next time.  And the
    empty string that it makes of four slashes is no URL to it. *)
Lemma normalize_url_twice_strips_second_www :
  (@normalize_url Sample.plain_lib (JStr Sample.url_www_www)
   = JStr (py "http://www.example.com/")
   /\ @normalize_url Sample.plain_lib
        (@normalize_url Sample.plain_lib (JStr Sample.url_www_www))
      = JStr (py "http://example.com/"))
  /\ (@normalize_url Sample.plain_lib (JStr (py "http://a.com//"))
      = JStr (py "http://a.com")
      /\ @normalize_url Sample.plain_lib (JStr (py "http://a.com"))
         = JStr (py "http://a.com/"))
  /\ (@normalize_url Sample.plain_lib (JStr (py "http://a.com/p;x/"))
      = JStr (py "http://a.com/p;x")
      /\ @normalize_url Sample.plain_lib (JStr (py "http://a.com/p;x"))
         = JStr (py "http://a.com/p"))
  /\ (@normalize_url Sample.plain_lib (JStr (py "////x")) = JStr (py "//x")
      /\ @normalize_url Sample.plain_lib (JStr (py "//x")) = JStr (py "//x/"))
  /\ (@normalize_url Sample.plain_lib (JStr (py "////")) = JStr []
      /\ @normalize_url Sample.plain_lib (JStr []) = JNull)
  /\ Forall (fun u => @regular_url Sample.plain_lib u = false)
            [Sample.url_www_www; py "http://a.com//"; py "http://a.com/p;x/";
             py "////x"; py "////"].
Proof.
  split; [split; vm_compute; reflexivity|].
  split; [split; vm_compute; reflexivity|].
  split; [split; vm_compute; reflexivity|].
  split; [split; vm_compute; reflexivity|].
  split; [split; vm_compute; reflexivity|].
  repeat (apply Forall_cons; split; [vm_compute; reflexivity|]).
  apply Forall_nil_2.
Qed.

Lemma normalize_url_idempotent_on_regular_urls_witness :
  Forall (fun u =>
            @normalize_url Sample.plain_lib
              (@normalize_url Sample.plain_lib (JStr u))
            = @normalize_url Sample.plain_lib (JStr u))
         [Sample.url_tracking; Sample.url_umlaut; py "////x/y";
          py "mailto:x@y.com"; py "http://[::1]/"]
  /\ @normalize_url Sample.plain_lib (JStr Sample.url_tracking)
     = JStr (py "http://example.com/a/b?a=1&b=2").
Proof.
  split; [|vm_compute; reflexivity].
  repeat (apply Forall_cons; split;
          [apply (@normalize_url_idempotent_on_regular_urls Sample.plain_lib);
           vm_compute; reflexivity|]).
  apply Forall_nil_2.
Defined.

(** ** The website of a record *)

Ltac not_in_list := apply (bool_decide_unpack _); by vm_compute.

Lemma M_bind_ok {S A B} (m : M S A) (k : A -> M S B) (s s' : S) (b : B) :
  (m ≫= k) s = (Ok b, s') ->
  exists a s1, m s = (Ok a, s1) /\ k a s1 = (Ok b, s').
Proof.
  unfold mbind, M_bind. destruct (m s) as [[a|e] s1]; [|done].
  intros Hk. by exists a, s1.
Qed.

Lemma M_lift_ok {S A} (r : result A) (s s' : S) (a : A) :
  lift r s = (Ok a, s') -> r = Ok a /\ s' = s.
Proof. unfold lift. by intros [= -> ->]. Qed.

Lemma M_ret_ok {S A} (x a : A) (s s' : S) :
  (mret x : M S A) s = (Ok a, s') -> a = x /\ s' = s.
Proof. by intros [= -> ->]. Qed.

Section Website.
Context `{PyLib}.

(** The website that the provisional record gets. *)
Lemma make_record_website (idx : Z) (business_name : pystr)
    (website_field : pyval) (link : option pyval) (snippet address : pyval)
    (comps : gmap string pyval) (phone services : pyval) :
  dget (make_record idx business_name website_field link snippet address comps
                    phone services) "website"
  = if truthy website_field then normalize_url website_field else JNull.
Proof.
  unfold make_record. cbn [list_to_map foldr fst snd].
  repeat first [ rewrite dget_insert_eq | rewrite dget_insert_ne by done ].
  done.
Qed.

(** The JSON-LD pass and the scan of the hyperlinks leave the website of
    the extraction as it is. *)
Lemma json_ld_step_website (out : gmap string pyval) (obj : pyval) :
  dget (json_ld_step out obj) "website" = dget out "website".
Proof.
  revert out. change (ld_keeps "website" (json_ld_body obj)). unfold json_ld_body.
  apply ld_keeps_bind; [by apply ld_name_keeps|]. intros _.
  apply ld_keeps_bind; [apply ld_address_keeps; not_in_list|]. intros _.
  apply ld_keeps_bind; [apply ld_contact_keeps; not_in_list|]. intros _.
  apply ld_links_keeps. not_in_list.
Qed.

Lemma json_ld_pass_website (ld_list : list pyval) (out : gmap string pyval) :
  dget (json_ld_pass out ld_list) "website" = dget out "website".
Proof.
  unfold json_ld_pass. revert out.
  induction ld_list as [|obj l IH]; intros out; [done|].
  cbn [foldl]. by rewrite IH, json_ld_step_website.
Qed.

Lemma social_key_of_in (l : pystr) (k : string) :
  social_key_of l = Some k -> k ∈ SOCIAL_KEYS.
Proof.
  unfold social_key_of, SOCIAL_KEYS.
  destruct (List.find _ SOCIAL_DOMAINS) as [kd|] eqn:Hf; [|done].
  intros [= <-]. apply find_some in Hf as [Hin _].
  apply list_elem_of_fmap_2. by apply list_elem_of_In.
Qed.

Lemma href_step_website (out : gmap string pyval) (a_href : pystr) :
  dget (href_step out a_href) "website" = dget out "website".
Proof.
  unfold href_step.
  set (out1 := if WHATSAPP_RE_search (strip a_href) then _ else out).
  assert (dget out1 "website" = dget out "website") as <-.
  { unfold out1. destruct (WHATSAPP_RE_search (strip a_href)); [|done].
    by rewrite dget_insert_ne. }
  destruct (social_key_of (lower (strip a_href))) as [k|] eqn:Hk; [|done].
  apply social_key_of_in in Hk. rewrite dget_insert_ne; [done|].
  intros ->. revert Hk. not_in_list.
Qed.

Lemma href_scan_website (hrefs : list pystr) (out : gmap string pyval) :
  dget (foldl href_step out hrefs) "website" = dget out "website".
Proof.
  revert out. induction hrefs as [|h l IH]; intros out; [done|].
  cbn [foldl]. by rewrite IH, href_step_website.
Qed.

(** The extraction reports as website the normalized URL of the page,
    whatever the page holds. *)
Lemma extract_from_html_website (url : pyval) (html_text : pystr)
    (enrich : gmap string pyval) :
  extract_from_html url html_text = Ok enrich ->
  dget enrich "website" = normalize_url url.
Proof.
  unfold extract_from_html.
  intros (center_name & _ & Hrest)%result_bind_ok.
  set (out2 := foldl href_step _ _) in Hrest.
  assert (dget out2 "website" = normalize_url url) as H2.
  { unfold out2. rewrite href_scan_website, json_ld_pass_website.
    rewrite dget_insert_ne by done. unfold out_defaults.
    cbn [list_to_map foldr fst snd].
    repeat first [ rewrite dget_insert_eq | rewrite dget_insert_ne by done ].
    done. }
  set (out3 := match _ ++ _ with [] => out2 | _ => _ end) in Hrest.
  assert (dget out3 "website" = normalize_url url) as H3.
  { unfold out3. destruct (_ ++ _) as [|c l]; [done|].
    destruct (negb (truthy (dget out2 "address"))); [|done].
    by rewrite dget_insert_ne. }
  clearbody out3. clear out2 H2.
  apply result_bind_ok in Hrest as (out4 & H4 & Hrest).
  assert (dget out4 "website" = normalize_url url) as H4'.
  { destruct (truthy (dget out3 "address") && negb (truthy (dget out3 "zipcode")));
      [|by injection H4 as <-].
    destruct (dget out3 "address") as [| | |a| |]; try done.
    destruct (ZIP_RE_search a); injection H4 as <-; [|done].
    by rewrite dget_insert_ne. }
  destruct (services_scan _); injection Hrest as <-; [done|].
  by rewrite dget_insert_ne.
Qed.

(** The merge leaves a field as it is when the enrichment has it with the
    same value. *)
Lemma merge_enrichment_same (record enrich : gmap string pyval) (k : string) :
  k ∈ MERGE_KEYS -> dget enrich k = dget record k ->
  dget (merge_enrichment record enrich) k = dget record k.
Proof.
  intros Hk He. unfold merge_enrichment, dget at 1.
  rewrite (merge_fold_same _ _ _ _ MERGE_KEYS_NoDup Hk), merge_field_same.
  rewrite He. unfold dget in *.
  by destruct (truthy (default JNull (record !! k))).
Qed.

End Website.

Section Records.
Context `{PyLib} `{World}.

Lemma fetch_html_some (fetch : pystr) (dynamic : bool) (website_field : pyval)
    (s s' : state) (t : pystr) :
  fetch_html fetch dynamic website_field s = (Ok (Some t), s') ->
  truthy website_field = true.
Proof. unfold fetch_html. by destruct (truthy website_field). Qed.

(** The record of a maps candidate: its website is null when the item has
    no website field, and the normalized field otherwise, with or without
    the merge of the enrichment. *)
Lemma maps_candidate_website (country : pystr) (keywords : option (list pystr))
    (fetch : pystr) (dynamic : bool) (idx : Z) (res : pyval) (loc loc' : locals)
    (s s' : state) :
  maps_candidate country keywords fetch dynamic idx res loc s = (Ok loc', s') ->
  exists record website_field,
    l_record loc' = Some record
    /\ website_field_of res = Ok website_field
    /\ dget record "website"
       = if truthy website_field then normalize_url website_field else JNull.
Proof.
  unfold maps_candidate. intros Hrun.
  repeat (apply M_bind_ok in Hrun as (? & ? & ? & Hrun)).
  match goal with
  | Hw : lift (website_field_of res) _ = (Ok ?wf, _) |- _ =>
      apply M_lift_ok in Hw as [Hw _]; rename wf into website_field
  end.
  match goal with
  | p : (option pyval * pyval)%type |- _ => destruct p as [link snippet]
  end.
  repeat (apply M_bind_ok in Hrun as (? & ? & ? & Hrun)).
  apply M_ret_ok in Hrun as [-> _]. cbn [l_record].
  eexists _, website_field. split; [done|]. split; [done|].
  match goal with
  | Hm : (match ?html with Some _ => _ | None => _ end) _ = (Ok ?r, _),
    Hf : fetch_html _ _ _ _ = (Ok ?html, _) |- _ =>
      destruct html as [t|];
      [ apply fetch_html_some in Hf;
        apply M_bind_ok in Hm as (enrich & ? & He & Hm);
        apply M_lift_ok in He as [He _];
        apply M_ret_ok in Hm as [-> _]
      | apply M_ret_ok in Hm as [-> _] ]
  end.
  - rewrite merge_enrichment_same; [apply make_record_website| |].
    + apply (bool_decide_unpack _). by vm_compute.
    + rewrite (extract_from_html_website _ _ _ He), make_record_website.
      by match goal with Hf : truthy _ = true |- _ => rewrite Hf end.
  - apply make_record_website.
Qed.

Lemma regular_item_website (res website_field : pyval)
    (record : gmap string pyval) :
  regular_item res = true ->
  website_field_of res = Ok website_field ->
  dget record "website"
  = (if truthy website_field then normalize_url website_field else JNull) ->
  website_is_normal record.
Proof.
  unfold regular_item. intros Hr Hw Hrec. rewrite Hw in Hr.
  destruct website_field as [| | |u| |]; try done; [by left|].
  destruct u as [|c u]; [by left|].
  destruct (normalize_url_fixed (c :: u) Hr) as [Hfix Hn]; [done|].
  right. exists (normalize_url_str (c :: u)).
  cbn [truthy] in Hrec. rewrite Hrec, <- Hn. done.
Qed.

(** The records of the loop over the candidates. *)
Lemma candidates_loop_websites (country : pystr) (keywords : option (list pystr))
    (fetch : pystr) (dynamic : bool) (filtered_tagged : list (pystr * pyval)) :
  Forall (fun item => regular_item (snd item) = true) filtered_tagged ->
  forall (idx : Z) (loc : locals) (all_data : list (gmap string pyval)),
    (forall r, l_record loc = Some r -> website_is_normal r) ->
    Forall website_is_normal all_data ->
    returns (Forall website_is_normal)
            (candidates_loop country keywords fetch dynamic idx filtered_tagged
                             loc all_data).
Proof.
  induction 1 as [|[src res] rest Hres _ IH]; intros idx loc all_data Hloc Hall.
  - intros s out s' [-> _]%M_ret_ok. done.
  - intros s out s'. cbn [candidates_loop snd] in *.
    intros (loc1 & s1 & Hstep & Hrest)%M_bind_ok.
    assert (forall r, l_record loc1 = Some r -> website_is_normal r) as Hloc1.
    { destruct (str_eqb src (py "maps")).
      - apply maps_candidate_website in Hstep as (record & wf & Hr & Hw & Hweb).
        intros r Hr'. rewrite Hr in Hr'. injection Hr' as <-.
        by eapply regular_item_website.
      - by apply M_ret_ok in Hstep as [-> _]. }
    destruct (l_record loc1) as [record|] eqn:Hrec; [|done].
    refine (IH (idx + 1)%Z loc1 (all_data ++ [record]) _ _ _ _ _ Hrest).
    + intros r Hr. rewrite Hrec in Hr. by apply Hloc1.
    + apply Forall_app. split; [done|]. constructor; [|done]. by apply Hloc1.
Qed.

(** *** What the discovery returns *)

Lemma returns_ret {S A} (P : A -> Prop) (a : A) :
  P a -> returns P (mret a : M S A).
Proof. intros Ha s b s' [-> _]%M_ret_ok. done. Qed.

Lemma returns_bind {S A B} (Q : A -> Prop) (P : B -> Prop)
    (m : M S A) (k : A -> M S B) :
  returns Q m -> (forall a, Q a -> returns P (k a)) -> returns P (m ≫= k).
Proof.
  intros Hm Hk s b s' (a & s1 & Ha & Hb)%M_bind_ok.
  eapply Hk; [|done]. by eapply Hm.
Qed.

Lemma returns_any {S A} (m : M S A) : returns (fun _ => True) m.
Proof. by intros s a s' _. Qed.

Lemma returns_try_except {S A} (P : A -> Prop) (m h : M S A) :
  returns P m -> returns P h -> returns P (try_except m h).
Proof.
  intros Hm Hh s a s'. unfold try_except.
  destruct (m s) as [[b|e] s1] eqn:Hms.
  - intros [= <- <-]. by eapply Hm.
  - apply Hh.
Qed.

Lemma returns_attempts {A} (P : A -> Prop) (n : nat) (m : M state A) (fallback : A) :
  returns P m -> P fallback -> returns P (attempts n m fallback).
Proof.
  intros Hm Hf. induction n as [|n IH]; cbn [attempts].
  - by apply returns_ret.
  - by apply returns_try_except.
Qed.

Lemma http_get_ok (req : Request) (s s' : state) (resp : Response) :
  http_get req s = (Ok resp, s') ->
  exists w w', requests_get req w = (Ok resp, w').
Proof.
  destruct s as [w log]. unfold http_get.
  destruct (requests_get req w) as [r w'] eqn:Hr. intros [= -> _].
  by exists w, w'.
Qed.

(** A page of the maps provider. *)
Lemma get_google_maps_results_regular (query ll : pystr) (page : Z) :
  regular_provider ->
  returns (Forall (fun res => regular_item res = true))
          (get_google_maps_results query ll page).
Proof.
  intros Hprov. unfold get_google_maps_results.
  destruct (key_missing API_KEY); [by apply returns_ret|].
  apply returns_attempts; [|done].
  intros s l s' (resp & s1 & (w & w' & Hget)%http_get_ok & Hrest)%M_bind_ok.
  apply M_bind_ok in Hrest as ([] & s2 & _ & Hrest).
  apply M_bind_ok in Hrest as (data & s3 & [Hdata _]%M_lift_ok & Hrest).
  apply M_ret_ok in Hrest as [-> _].
  apply (Hprov _ _ _ _ _ Hget); [done|].
  unfold response_json in Hdata. by destruct (json_body resp) as [v|]; [injection Hdata as ->|].
Qed.

Lemma get_all_loop_regular {S} (P : pyval -> Prop)
    (fetch : pystr -> pystr -> Z -> M S (list pyval)) (query : pystr)
    (pages : list Z) :
  (forall ll page, returns (Forall P) (fetch query ll page)) ->
  forall ll all_results,
    Forall P all_results ->
    returns (Forall P) (get_all_loop fetch query ll pages all_results).
Proof.
  intros Hfetch. induction pages as [|page rest IH]; intros ll all_results Hall.
  - by apply returns_ret.
  - cbn [get_all_loop].
    eapply returns_bind; [apply Hfetch|]. intros results Hres.
    eapply returns_bind; [apply returns_any|]. intros ll' _.
    apply IH. apply Forall_app. done.
Qed.

Lemma discover_maps_regular (query ll : pystr) (page : Z) :
  regular_provider ->
  returns (Forall (fun res => regular_item res = true))
          (discover_maps query ll page).
Proof.
  intros Hprov. unfold discover_maps.
  eapply returns_bind; [apply returns_any|]. intros ll_param _.
  apply returns_try_except; [|by apply returns_ret].
  unfold get_all_google_maps_results, get_all_google_maps_results_with.
  apply get_all_loop_regular; [|done].
  intros ll' page'. by apply get_google_maps_results_regular.
Qed.

Lemma sources_loop_regular (query ll : pystr) (page : Z)
    (source_order : list pystr) :
  regular_provider ->
  forall combined_tagged,
    Forall (fun item => regular_item (snd item) = true) combined_tagged ->
    returns (Forall (fun item : pystr * pyval => regular_item (snd item) = true))
            (sources_loop query ll page source_order combined_tagged).
Proof.
  intros Hprov. induction source_order as [|src rest IH]; intros combined Hc.
  - by apply returns_ret.
  - cbn [sources_loop]. destruct (str_eqb src (py "maps")); [|by apply IH].
    eapply returns_bind; [by apply discover_maps_regular|].
    intros maps_raw Hraw. apply IH. apply Forall_app. split; [done|].
    apply Forall_fmap. by eapply Forall_impl.
Qed.

(** The deduplication returns items of its input. *)
Lemma dedupe_loop_items (P : pystr * pyval -> Prop)
    (tagged : list (pystr * pyval)) :
  Forall P tagged ->
  forall seen kept, dedupe_loop seen tagged = Ok kept -> Forall P kept.
Proof.
  induction 1 as [|[src r] rest Hx _ IH]; intros seen kept; cbn [dedupe_loop].
  - by intros [= <-].
  - intros (key & _ & Hrest)%result_bind_ok.
    destruct (truthy key).
    + destruct (hashable key); [|done].
      destruct (negb (set_mem key seen)); [|by eapply IH].
      apply result_bind_ok in Hrest as (kept' & Hk & [= <-]).
      constructor; [done|]. by eapply IH.
    + destruct (is_none key); [|by eapply IH].
      apply result_bind_ok in Hrest as (kept' & Hk & [= <-]).
      constructor; [done|]. by eapply IH.
Qed.

(** C4 (amended).  When the maps provider answers with regular items only
    (the website, else website_url, else link of an item is missing or a
    regular URL), every record that the pipeline returns has a website that
    is null or a string that the Identity Normalizer leaves as it is: the
    record is created with the normalized website field, and the merge step
    keeps it. *)
Theorem records_have_normal_website (query country : pystr)
    (keywords : option (list pystr)) (fetch : pystr) (dynamic : bool)
    (source ll : pystr) (page : Z) (s s' : state)
    (records : list (gmap string pyval)) :
  regular_provider ->
  scrape_businesses query country keywords fetch dynamic source ll page s
  = (Ok records, s') ->
  Forall website_is_normal records.
Proof.
  intros Hprov. unfold scrape_businesses.
  destruct (key_missing API_KEY); [by intros [-> _]%M_ret_ok|].
  destruct query as [|c query]; [by intros [-> _]%M_ret_ok|].
  intros (combined & s1 & Hsrc & Hrest)%M_bind_ok.
  apply M_bind_ok in Hrest as (filtered & s2 & [Hded _]%M_lift_ok & Hrest).
  apply sources_loop_regular in Hsrc; [|done..].
  refine (candidates_loop_websites _ _ _ _ filtered _ 1%Z no_locals [] _ _
            _ _ _ Hrest); [|done|done].
  unfold dedupe in Hded. by eapply dedupe_loop_items.
Qed.

End Records.

(** C4, as stated, fails: the record of a place whose website has "www."
    twice has a website that the normalizer changes. *)
Lemma record_website_is_not_fixed :
  match fst (@scrape_businesses Sample.plain_lib
               (Sample.shop_world Sample.url_www_www)
               (py "clinic") [] None (py "api") false (py "maps") DEFAULT_LL 1
               (tt, [])) with
  | Ok records => map (fun record => dget record "website") records
  | Raise _ => []
  end = [JStr (py "http://www.example.com/")]
  /\ @normalize_url Sample.plain_lib (JStr (py "http://www.example.com/"))
     = JStr (py "http://example.com/").
Proof. split; vm_compute; reflexivity. Qed.

Lemma shop_world_regular :
  @regular_provider Sample.plain_lib (Sample.shop_world Sample.url_tracking).
Proof.
  intros req w resp w' data Hget Hurl Hbody.
  cbn [requests_get Sample.shop_world] in Hget.
  rewrite Hurl in Hget. unfold str_eqb in Hget.
  rewrite bool_decide_eq_true_2 in Hget by done.
  injection Hget as <- _. injection Hbody as <-.
  apply Forall_cons. split; [vm_compute; reflexivity|]. apply Forall_nil_2.
Qed.

Lemma records_have_normal_website_witness :
  exists records,
    fst (@scrape_businesses Sample.plain_lib
           (Sample.shop_world Sample.url_tracking)
           (py "clinic") [] None (py "api") false (py "maps") DEFAULT_LL 1
           (tt, []))
    = Ok records
    /\ length records = 1%nat
    /\ Forall (@website_is_normal Sample.plain_lib) records.
Proof.
  assert (match fst (@scrape_businesses Sample.plain_lib
                       (Sample.shop_world Sample.url_tracking)
                       (py "clinic") [] None (py "api") false (py "maps")
                       DEFAULT_LL 1 (tt, [])) with
          | Ok records => length records
          | Raise _ => 0%nat
          end = 1%nat) as Hlen by (vm_compute; reflexivity).
  destruct (@scrape_businesses Sample.plain_lib
              (Sample.shop_world Sample.url_tracking)
              (py "clinic") [] None (py "api") false (py "maps") DEFAULT_LL 1
              (tt, [])) as [[records|e] s'] eqn:Hrun; [|discriminate Hlen].
  exists records. split; [done|]. split; [exact Hlen|].
  exact (@records_have_normal_website Sample.plain_lib
           (Sample.shop_world Sample.url_tracking) _ _ _ _ _ _ _ _ _ _ _
           shop_world_regular Hrun).
Defined.

(** * Further properties of the collaborators and of the helpers *)

Section Requests.
Context `{PyLib} `{World}.

(** A retry loop whose attempt makes the one request [req] makes it once
    more after each failure, and raises nothing. *)
Lemma attempts_requests {A} (req : Request) (m : M state A) (fallback : A)
    (n : nat) :
  (forall w log, exists r w', m (w, log) = (r, (w', log ++ [req]))) ->
  forall w log, exists a w' k,
    attempts n m fallback (w, log) = (Ok a, (w', log ++ repeat req k))
    /\ (k <= n)%nat /\ (n = 0%nat \/ 0 < k)%nat.
Proof.
  intros Hm. induction n as [|n IH]; intros w log; cbn [attempts].
  - exists fallback, w, 0%nat. cbn [repeat]. rewrite app_nil_r.
    split; [done|]. split; [lia | by left].
  - unfold try_except. destruct (Hm w log) as (r & w1 & ->).
    destruct r as [a|e].
    + exists a, w1, 1%nat. split; [done|]. split; [lia | right; lia].
    + destruct (IH w1 (log ++ [req])) as (a & w2 & k & -> & Hk & _).
      exists a, w2, (S k). cbn [repeat]. rewrite <- app_assoc.
      split; [done|]. split; [lia | right; lia].
Qed.

(** [get_google_maps_results] raises nothing, whatever the network answers.
    Without API key it makes no request and returns the empty page; with a
    key it makes one to three requests, each the same request to the maps
    endpoint with the key, the query, the page and the anchor. *)
Theorem get_google_maps_results_requests (query ll : pystr) (page : Z)
    (w : world) (log : list Request) :
  let req := {| req_url := MAPS_URL;
                req_params := [("api_key", opt_str API_KEY); ("query", JStr query);
                               ("page", JInt page); ("ll", JStr ll)]%string |} in
  exists results w' k,
    get_google_maps_results query ll page (w, log)
    = (Ok results, (w', log ++ repeat req k))
    /\ (k <= 3)%nat
    /\ (if key_missing API_KEY then k = 0%nat /\ results = [] else (0 < k)%nat).
Proof.
  intros req. unfold get_google_maps_results.
  destruct (key_missing API_KEY).
  - exists [], w, 0%nat. cbn [repeat]. rewrite app_nil_r.
    split; [done|]. split; [lia | done].
  - fold req.
    destruct (attempts_requests req
                (resp ← http_get req;
                 _ ← lift (raise_for_status resp);
                 data ← lift (response_json resp);
                 mret (maps_results_of data)) [] 3) with (w := w) (log := log)
      as (a & w' & k & E & Hk & Hpos).
    + intros w0 log0. unfold mbind, M_bind, http_get, lift, mret, M_ret.
      destruct (requests_get req w0) as [[resp|e] w1]; simpl; [|eauto].
      destruct (raise_for_status resp); simpl; [|eauto].
      destruct (response_json resp); simpl; eauto.
    + exists a, w', k. split; [exact E|]. split; [done|].
      destruct Hpos as [?|?]; [discriminate | done].
Qed.

(** [get_google_search_results] raises nothing, whatever the network
    answers: it makes one to three requests, each the same request to the
    search endpoint. *)
Theorem get_google_search_results_requests (query : pystr) (num_results : Z)
    (country : pyval) (w : world) (log : list Request) :
  let req := {| req_url := SEARCH_URL;
                req_params := [("api_key", opt_str API_KEY); ("query", JStr query);
                               ("results", JInt num_results); ("country", country);
                               ("domain", JStr (py "google.com"));
                               ("advance_search", JStr (py "true"))]%string |} in
  exists results w' k,
    get_google_search_results query num_results country (w, log)
    = (Ok results, (w', log ++ repeat req k))
    /\ (1 <= k <= 3)%nat.
Proof.
  intros req. unfold get_google_search_results. fold req.
  destruct (attempts_requests req
              (response ← http_get req;
               _ ← lift (raise_for_status response);
               data ← lift (response_json response);
               lift (organic_results data)) (JArr []) 3) with (w := w) (log := log)
    as (a & w' & k & E & Hk & Hpos).
  - intros w0 log0. unfold mbind, M_bind, http_get, lift.
    destruct (requests_get req w0) as [[resp|e] w1]; simpl; [|eauto].
    destruct (raise_for_status resp); simpl; [|eauto].
    destruct (response_json resp); simpl; eauto.
  - exists a, w', k. split; [exact E|].
    destruct Hpos as [?|?]; [discriminate | lia].
Qed.

(** [get_lat_lng] makes exactly one request, to the geocoding endpoint with
    the place, the limit 1 and the key, whether it returns or raises; what
    it returns is the empty string or an anchor [@lat,lon,15z]. *)
Theorem get_lat_lng_one_request (place : pyval) (key : option pystr)
    (w : world) (log : list Request) :
  let req := {| req_url := GEO_URL;
                req_params := [("q", place); ("limit", JInt 1);
                               ("appid", opt_str key)]%string |} in
  exists r w',
    get_lat_lng place key (w, log) = (r, (w', log ++ [req]))
    /\ match r with
       | Ok a => a = [] \/ exists lat lon, a = anchor lat lon
       | Raise _ => True
       end.
Proof.
  intros req. unfold get_lat_lng. fold req.
  unfold mbind, M_bind, http_get, lift, mret, M_ret.
  destruct (requests_get req w) as [[resp|e] w']; simpl; [|by eexists _, _].
  destruct (raise_for_status resp); simpl; [|by eexists _, _].
  destruct (response_json resp) as [data|]; simpl; [|by eexists _, _].
  destruct (truthy data); simpl; [|eexists _, _; split; [done | by left]].
  destruct (py_index0 data) as [d0|]; simpl; [|by eexists _, _].
  destruct (py_item d0 "lat") as [lat|]; simpl; [|by eexists _, _].
  destruct (py_item d0 "lon") as [lon|]; simpl; [|by eexists _, _].
  eexists _, _. split; [done|]. right. by exists lat, lon.
Qed.

(** [fetch_html_via_scrapingdog] raises nothing.  Without API key it makes
    no request and returns [None]; with a key it makes one request to the
    scrape endpoint, the same whatever [dynamic] is.  The page it returns is
    never the empty string. *)
Theorem fetch_html_via_scrapingdog_page (target_url : pyval) (dynamic : bool)
    (w : world) (log : list Request) :
  let req := {| req_url := SCRAPE_URL;
                req_params := [("api_key", opt_str API_KEY); ("url", target_url);
                               ("premium", JStr (py "true"));
                               ("dynamic", JStr (py "true"))]%string |} in
  exists page w',
    fetch_html_via_scrapingdog target_url dynamic (w, log)
    = (Ok page, (w', log ++ (if key_missing API_KEY then [] else [req])))
    /\ page <> Some []
    /\ (key_missing API_KEY = true -> page = None).
Proof.
  intros req. unfold fetch_html_via_scrapingdog.
  destruct (key_missing API_KEY).
  - exists None, w. rewrite app_nil_r. by split.
  - fold req. unfold try_except, mbind, M_bind, http_get, mret, M_ret.
    destruct (requests_get req w) as [[resp|e] w']; simpl.
    + exists (page_text resp), w'. split; [done|]. split; [|done].
      unfold page_text. destruct (_ && _); [|done].
      by destruct (text resp).
    + exists None, w'. by split.
Qed.

(** [fetch_html_direct] raises nothing: for a URL that is a str it makes
    one request, to that URL, and for another value none; the page it
    returns is never the empty string. *)
Theorem fetch_html_direct_page (url : pyval) (w : world) (log : list Request) :
  exists page w',
    fetch_html_direct url (w, log)
    = (Ok page,
       (w', log ++ match url with
                   | JStr u => [{| req_url := u; req_params := [] |}]
                   | _ => []
                   end))
    /\ page <> Some [].
Proof.
  unfold fetch_html_direct, try_except.
  destruct url as [| | | u | |];
    try (exists None, w; rewrite app_nil_r; by split).
  unfold mbind, M_bind, http_get, mret, M_ret.
  destruct (requests_get _ w) as [[resp|e] w']; simpl.
  - exists (page_text resp), w'. split; [done|].
    unfold page_text. destruct (_ && _); [|done].
    by destruct (text resp).
  - exists None, w'. by split.
Qed.

End Requests.

(** ** The helpers of the extraction *)

Section Helpers.
Context `{PyLib}.

Lemma lstrip_by_idemp (p : char -> bool) (s : pystr) :
  lstrip_by p (lstrip_by p s) = lstrip_by p s.
Proof.
  unfold lstrip_by. induction s as [|c s IH]; [done|].
  cbn [dropwhile]. destruct (p c) eqn:E; [exact IH|].
  cbn [dropwhile]. by rewrite E.
Qed.

Lemma strip_idemp (s : pystr) : strip (strip s) = strip s.
Proof.
  unfold strip at 2. rewrite strip_rstrip. unfold strip.
  by rewrite lstrip_by_idemp.
Qed.

Lemma first_cons_skip (v : pyval) (rest : list pyval) :
  (forall s, v = JStr s -> strip s = []) -> first (v :: rest) = first rest.
Proof.
  intros Hv. destruct v as [| | | s | |]; try reflexivity.
  destruct s as [|c t]; [reflexivity|].
  cbn [first]. by rewrite (Hv _ eq_refl).
Qed.

Lemma first_cons_take (s : pystr) (rest : list pyval) :
  strip s <> [] -> first (JStr s :: rest) = JStr (strip s).
Proof.
  intros Hs. destruct s as [|c t]; [by destruct Hs|].
  cbn [first]. by destruct (strip (c :: t)).
Qed.

(** [first] returns the first of its values that is a str with something
    else than white space, trimmed, and [None] when there is none. *)
Theorem first_is_first_non_blank (vals : list pyval) :
  match first vals with
  | JNull => Forall (fun v => forall s, v = JStr s -> strip s = []) vals
  | JStr t =>
      t <> [] /\ strip t = t
      /\ exists before s after,
           vals = before ++ JStr s :: after /\ t = strip s
           /\ Forall (fun v => forall s, v = JStr s -> strip s = []) before
  | _ => False
  end.
Proof.
  induction vals as [|v rest IH]; [by constructor|].
  assert ((forall s, v = JStr s -> strip s = [])
          \/ exists s, v = JStr s /\ strip s <> []) as [Hv | (s & -> & Hs)].
  { destruct v as [| | | s | |]; try by (left; intros ? [=]).
    destruct (strip s) eqn:E; [left; by intros ? [= <-]|].
    right. exists s. split; [done|]. by rewrite E. }
  - rewrite (first_cons_skip _ _ Hv).
    destruct (first rest) as [| | | t | |]; try done.
    + by constructor.
    + destruct IH as (Ht & Hst & before & s & after & -> & -> & Hb).
      split; [done|]. split; [done|].
      exists (v :: before), s, after. split; [done|]. split; [done|].
      by constructor.
  - rewrite (first_cons_take _ _ Hs).
    split; [done|]. split; [apply strip_idemp|].
    by exists [], s, rest.
Qed.

Lemma default_last_cons {A} (d x : A) (l : list A) :
  default d (last (x :: l)) = default x (last l).
Proof. rewrite last_cons. by destruct (last l). Qed.

Lemma pick_social_fold (k : string) (links : list pyval)
    (out : gmap string pyval) :
  dget (foldl
          (fun out link =>
             match link with
             | JStr s =>
                 match social_key_of (lower s) with
                 | Some k => <[k := link]> out
                 | None => out
                 end
             | _ => out
             end) out links) k
  = default (dget out k) (last (List.filter (names_network k) links)).
Proof.
  revert out. induction links as [|link links IH]; intros out; [done|].
  cbn [foldl List.filter]. rewrite IH.
  destruct link as [| | | s | |]; cbn [names_network]; try done.
  destruct (social_key_of (lower s)) as [k'|] eqn:E.
  - destruct (decide (k' = k)) as [->|Hne].
    + rewrite bool_decide_eq_true_2 by done.
      by rewrite default_last_cons, dget_insert_eq.
    + rewrite bool_decide_eq_false_2 by congruence.
      by rewrite dget_insert_ne.
  - by rewrite bool_decide_eq_false_2.
Qed.

(** [pick_social_from_sameas] gives each network the last link of [sameAs]
    that counts for it, and [None] when no link does or [sameAs] is empty;
    a link counts for the first network, in the order facebook, instagram,
    twitter, tiktok, linkedin, one of whose domains occurs in its lower
    case. *)
Theorem pick_social_last_link_wins (same_as : pyval) :
  Forall
    (fun k =>
       dget (pick_social_from_sameas same_as) k
       = if truthy same_as
         then default JNull
                (last (List.filter (names_network k) (sameas_links same_as)))
         else JNull)
    SOCIAL_KEYS.
Proof.
  apply Forall_forall. intros k _. unfold pick_social_from_sameas.
  destruct (truthy same_as); cbn [negb].
  - fold (sameas_links same_as). rewrite pick_social_fold.
    assert (dget no_social k = JNull) as ->; [|done].
    unfold no_social.
    repeat match goal with
           | |- dget (<[?j := _]> _) ?k = _ =>
               destruct (decide (j = k)) as [<-|?];
               [by rewrite dget_insert_eq | rewrite dget_insert_ne by done]
           end.
    unfold dget. by rewrite lookup_empty.
  - unfold no_social.
    repeat match goal with
           | |- dget (<[?j := _]> _) ?k = _ =>
               destruct (decide (j = k)) as [<-|?];
               [by rewrite dget_insert_eq | rewrite dget_insert_ne by done]
           end.
    unfold dget. by rewrite lookup_empty.
Qed.

Lemma extract_components_fold (kl : string * pystr) (pairs : list (pystr * pystr))
    (comps : gmap string pyval) :
  kl ∈ COMPONENT_LABELS ->
  dget (foldl
          (fun comps '(text, label) =>
             if str_eqb label (py "city") then <["city" := JStr text]> comps
             else if str_eqb label (py "state") then <["state" := JStr text]> comps
             else if str_eqb label (py "country") then <["country" := JStr text]> comps
             else if str_eqb label (py "postcode") then <["zipcode" := JStr text]> comps
             else comps) comps pairs) kl.1
  = default (dget comps kl.1)
      (last (map (fun p => JStr (fst p))
                 (List.filter (fun p => str_eqb (snd p) kl.2) pairs))).
Proof.
  intros Hkl. revert comps.
  induction pairs as [|[text label] pairs IH]; intros comps; [done|].
  cbn [foldl List.filter]. rewrite IH. cbn [snd]. unfold str_eqb.
  repeat (apply elem_of_cons in Hkl as [-> | Hkl]);
    [| | | | by apply elem_of_nil in Hkl]; cbn [fst snd];
    repeat case_bool_decide; subst; try discriminate;
    cbn [map]; rewrite ?default_last_cons, ?dget_insert_eq;
    try done; by rewrite ?dget_insert_ne.
Qed.

(** [extract_components] gives each of city, state, country and zipcode the
    text of the last pair that has its label (postcode for the zipcode), and
    [None] when no pair has it. *)
Theorem extract_components_last_pair_wins (address_pairs : list (pystr * pystr)) :
  Forall
    (fun kl =>
       dget (extract_components address_pairs) kl.1
       = default JNull
           (last (map (fun p => JStr (fst p))
                      (List.filter (fun p => str_eqb (snd p) kl.2) address_pairs))))
    COMPONENT_LABELS.
Proof.
  apply Forall_forall. intros kl Hkl. unfold extract_components.
  rewrite (extract_components_fold kl _ _ Hkl).
  assert (dget (<["city" := JNull]> (<["state" := JNull]> (<["country" := JNull]>
                  (<["zipcode" := JNull]> ∅)))) kl.1 = JNull) as ->; [|done].
  repeat (apply elem_of_cons in Hkl as [-> | Hkl]);
    [| | | | by apply elem_of_nil in Hkl]; reflexivity.
Qed.

End Helpers.

(** ** The normalizer and the extraction *)

Section Normalizer.
Context `{PyLib}.

Lemma insert_by_key_perm (x : pystr * pystr) (l : list (pystr * pystr)) :
  insert_by_key x l ≡ₚ x :: l.
Proof.
  induction l as [|y l IH]; [done|].
  cbn [insert_by_key]. destruct (str_leb _ _); [done|].
  rewrite IH. apply Permutation_swap.
Qed.

Lemma sort_by_key_perm (l : list (pystr * pystr)) : sort_by_key l ≡ₚ l.
Proof.
  unfold sort_by_key. induction l as [|x l IH]; [done|].
  cbn [foldr]. by rewrite insert_by_key_perm, IH.
Qed.

(** The query parameters that [normalize_url] writes: those of the query
    that are no tracking parameters, each as often as in the query, in the
    order of their keys; and the query written from them is read back as
    the same parameters. *)
Theorem normalize_query_sorted_without_tracking (query : pystr) :
  normalize_query query
    ≡ₚ List.filter (fun kv => negb (is_tracking_key (fst kv))) (parse_qsl query)
  /\ Sorted (fun x y => str_leb (fst x) (fst y) = true) (normalize_query query)
  /\ Forall (fun kv => is_tracking_key (fst kv) = false) (normalize_query query)
  /\ (forall qs, urlencode (normalize_query query) = Ok qs ->
        normalize_query qs = normalize_query query).
Proof.
  split; [apply sort_by_key_perm|].
  split; [apply sort_by_key_sorted|].
  split; [|intros qs; apply normalize_query_urlencode].
  unfold normalize_query. apply sort_by_key_Forall.
  eapply Forall_impl; [apply filter_Forall|].
  intros kv. cbn beta. by intros ->%negb_true_iff.
Qed.

(** The normalized URL of a regular URL is a str that is not empty. *)
Theorem normalize_url_of_regular_url_not_empty (u : pystr) :
  regular_url u = true -> u <> [] ->
  exists k, normalize_url (JStr u) = JStr k /\ k <> [].
Proof.
  intros Hreg Hu. exists (normalize_url_str u).
  split; [|by apply normalize_url_str_not_empty].
  unfold normalize_url. by destruct u.
Qed.

(** The extraction reports as website the normalized URL of the page that
    it was given, whatever the page holds. *)
Theorem extract_from_html_reports_page_url (url : pyval) (html_text : pystr)
    (enrich : gmap string pyval) :
  extract_from_html url html_text = Ok enrich ->
  dget enrich "website" = normalize_url url.
Proof. apply extract_from_html_website. Qed.

End Normalizer.

Lemma normalize_url_of_regular_url_not_empty_witness :
  exists k,
    @normalize_url Sample.plain_lib (JStr Sample.url_tracking) = JStr k
    /\ k <> [].
Proof.
  apply (@normalize_url_of_regular_url_not_empty Sample.plain_lib
           Sample.url_tracking).
  - vm_compute. reflexivity.
  - discriminate.
Defined.

Lemma extract_from_html_reports_page_url_witness :
  exists enrich,
    @extract_from_html Sample.plain_lib (JStr Sample.url_tracking) [] = Ok enrich
    /\ dget enrich "website" = JStr (py "http://example.com/a/b?a=1&b=2").
Proof.
  assert (match @extract_from_html Sample.plain_lib (JStr Sample.url_tracking) [] with
          | Ok _ => true
          | Raise _ => false
          end = true) as Hok by (vm_compute; reflexivity).
  destruct (@extract_from_html Sample.plain_lib (JStr Sample.url_tracking) [])
    as [enrich|e] eqn:Hrun; [|discriminate Hok].
  exists enrich. split; [done|].
  rewrite (@extract_from_html_reports_page_url Sample.plain_lib _ _ _ Hrun).
  vm_compute. reflexivity.
Defined.

Lemma normalize_query_sorted_without_tracking_witness :
  normalize_query (py "utm_source=x&b=2&a=1")
  = [(py "a", py "1"); (py "b", py "2")]
  /\ normalize_query (py "a=1&b=2")
     = normalize_query (py "utm_source=x&b=2&a=1").
Proof.
  split; [vm_compute; reflexivity|].
  apply (normalize_query_sorted_without_tracking (py "utm_source=x&b=2&a=1")).
  vm_compute. reflexivity.
Defined.
